(** * Scheduling engine of the auto-scheduling calendar (script, class [Calendar])

    Shallow embedding of [autoScheduleTasks] and [getAvailableSlots].
    Timestamps are JavaScript [Date] values, i.e. integer milliseconds ([Z]).
    Calendar arithmetic ([setHours], [setDate], [getDay]) is modelled in a
    single time zone without daylight-saving shifts: a calendar day is
    [DAY] milliseconds long and day number 0 (1970-01-01) is a Thursday.
    Identifiers produced by [generateId] ([Math.random]) and display names
    are not modelled. *)

From Stdlib Require Import ZArith List Bool Lia.
From Stdlib Require Import Sorting.Permutation Sorting.Sorted.
From Stdlib Require Strings.String Strings.Ascii.
Import ListNotations.
Open Scope Z_scope.

Definition MINUTE : Z := 60000.
Definition HOUR : Z := 3600000.
Definition DAY : Z := 86400000.

(** ** Data *)

Record Settings := mkSettings {
  workingHours_start : Z;          (* settings.workingHours.start, an hour *)
  workingHours_end : Z;            (* settings.workingHours.end, an hour *)
  workDays : list Z;               (* 0 = Sunday .. 6 = Saturday *)
  minBreakBetweenTasks : Z         (* minutes *)
}.

Record Event := mkEvent {
  ev_start : Z;
  ev_end : Z;
  isFixed : bool;
  isTask : bool;
  isCommute : bool;
  ev_taskId : option Z
}.

Record Task := mkTask {
  task_id : Z;
  priority : Z;
  duration : Z;                    (* minutes *)
  deadline : Z;
  commuteToDuration : Z;           (* minutes, 0 when no location *)
  commuteFromDuration : Z;         (* minutes, 0 when no location *)
  isScheduled : bool;
  scheduledStart : option Z;
  scheduledEnd : option Z
}.

(** An available slot [{ start, end }], half open. *)
Record Slot := mkSlot { slot_start : Z; slot_end : Z }.

Record Calendar := mkCalendar {
  tasks : list Task;
  events : list Event;
  settings : Settings
}.

(** ** Array.prototype.sort with a numeric comparator

    ECMAScript requires [sort] to be stable; for a consistent comparator
    every stable sort returns the same list, so we use insertion sort:
    [x] goes in front of the first [y] with [cmp x y <= 0]. *)

Section Sort.
Context {A : Type} (cmp : A -> A -> Z).

Fixpoint insert_cmp (x : A) (l : list A) : list A :=
  match l with
  | [] => [x]
  | y :: l' => if cmp x y <=? 0 then x :: y :: l' else y :: insert_cmp x l'
  end.

Fixpoint sort_cmp (l : list A) : list A :=
  match l with
  | [] => []
  | x :: l' => insert_cmp x (sort_cmp l')
  end.
End Sort.

(** ** Dates *)

(** [d.setHours(0, 0, 0, 0)] *)
Definition midnight (t : Z) : Z := DAY * (t / DAY).

(** [d.getDay()] *)
Definition getDay (t : Z) : Z := (t / DAY + 4) mod 7.

(** [d.setHours(h, 0, 0, 0)] on a midnight [d] *)
Definition setHours (d h : Z) : Z := d + h * HOUR.

(** ** getAvailableSlots *)

(** [dayEvents.forEach(...)]: returns the emitted slots and the final
    [timePointer]. *)
Fixpoint sweep (timePointer : Z) (dayEvents : list Event) : list Slot * Z :=
  match dayEvents with
  | [] => ([], timePointer)
  | e :: es =>
      let here := if timePointer <? ev_start e
                  then [mkSlot timePointer (ev_start e)] else [] in
      let '(rest, p) := sweep (Z.max timePointer (ev_end e)) es in
      (here ++ rest, p)
  end.

Definition eventCmp (a b : Event) : Z := ev_start a - ev_start b.

Definition dayStart_of (st : Settings) (currentDate : Z) : Z :=
  setHours currentDate (workingHours_start st).

Definition dayEnd_of (st : Settings) (currentDate : Z) : Z :=
  setHours currentDate (workingHours_end st).

Definition effectiveStart_of (st : Settings) (startDate currentDate : Z) : Z :=
  let dayStart := dayStart_of st currentDate in
  if dayStart <? startDate then startDate else dayStart.

Definition isWorkDay (st : Settings) (currentDate : Z) : bool :=
  existsb (Z.eqb (getDay currentDate)) (workDays st).

(** Body of the [while] loop for one calendar day. *)
Definition day_slots (st : Settings) (startDate : Z) (fixedEvents : list Event)
    (currentDate : Z) : list Slot :=
  if isWorkDay st currentDate then
    let dayEnd := dayEnd_of st currentDate in
    let effectiveStart := effectiveStart_of st startDate currentDate in
    if effectiveStart <? dayEnd then
      let dayEvents :=
        sort_cmp eventCmp
          (filter (fun e => (ev_start e <? dayEnd) && (effectiveStart <? ev_end e))
             fixedEvents) in
      let '(gs, timePointer) := sweep effectiveStart dayEvents in
      gs ++ (if timePointer <? dayEnd then [mkSlot timePointer dayEnd] else [])
    else []
  else [].

(** [while (currentDate < endDate) { ...; currentDate += 1 day }], with a
    fuel bound that is never the binding limit (see [day_fuel]). *)
Fixpoint days_loop (st : Settings) (startDate endDate : Z) (fixedEvents : list Event)
    (fuel : nat) (currentDate : Z) : list Slot :=
  match fuel with
  | O => []
  | S f =>
      if currentDate <? endDate then
        day_slots st startDate fixedEvents currentDate
          ++ days_loop st startDate endDate fixedEvents f (currentDate + DAY)
      else []
  end.

Definition day_fuel (startDate endDate : Z) : nat :=
  Z.to_nat ((endDate - midnight startDate) / DAY + 1).

(** All slots pushed by the loop, before the final length filter. *)
Definition emitted_slots (st : Settings) (startDate endDate : Z) (evs : list Event)
    : list Slot :=
  days_loop st startDate endDate (filter isFixed evs) (day_fuel startDate endDate)
    (midnight startDate).

(** [durationMinutes >= minBreakBetweenTasks + 15], with
    [durationMinutes = (end - start) / 60000]. *)
Definition long_enough (st : Settings) (s : Slot) : bool :=
  (minBreakBetweenTasks st + 15) * MINUTE <=? slot_end s - slot_start s.

Definition getAvailableSlots (st : Settings) (startDate endDate : Z) (evs : list Event)
    : list Slot :=
  filter (long_enough st) (emitted_slots st startDate endDate evs).

(** ** autoScheduleTasks *)

(** [task.duration + task.commuteToDuration + task.commuteFromDuration] *)
Definition totalDuration (t : Task) : Z :=
  duration t + commuteToDuration t + commuteFromDuration t.

(** [slotDuration >= totalDuration], [slotDuration = (slot.end - slot.start) / 60000] *)
Definition fits (total : Z) (s : Slot) : bool :=
  total * MINUTE <=? slot_end s - slot_start s.

Definition commuteEvent (a b : Z) : Event :=
  mkEvent a b false false true None.

Definition taskEvent (t : Task) (a b : Z) : Event :=
  mkEvent a b false true false (Some (task_id t)).

Definition set_scheduled (t : Task) (a b : Z) : Task :=
  {| task_id := task_id t; priority := priority t; duration := duration t;
     deadline := deadline t; commuteToDuration := commuteToDuration t;
     commuteFromDuration := commuteFromDuration t;
     isScheduled := true; scheduledStart := Some a; scheduledEnd := Some b |}.

Definition reset_task (t : Task) : Task :=
  {| task_id := task_id t; priority := priority t; duration := duration t;
     deadline := deadline t; commuteToDuration := commuteToDuration t;
     commuteFromDuration := commuteFromDuration t;
     isScheduled := false; scheduledStart := None; scheduledEnd := None |}.

(** Steps 1-3 inside a slot that works, starting at [slot.start]: the pushed
    events, [scheduledStart], [scheduledEnd] and the final [currentTime]. *)
Definition place_in_slot (t : Task) (slotStart : Z) : list Event * Z * Z * Z :=
  let '(evs1, cur1) :=
    if 0 <? commuteToDuration t
    then let commuteEnd := slotStart + commuteToDuration t * MINUTE in
         ([commuteEvent slotStart commuteEnd], commuteEnd)
    else ([], slotStart) in
  let sStart := cur1 in
  let sEnd := sStart + duration t * MINUTE in
  let evs2 := evs1 ++ [taskEvent t sStart sEnd] in
  let '(evs3, cur3) :=
    if 0 <? commuteFromDuration t
    then let commuteEnd := sEnd + commuteFromDuration t * MINUTE in
         (evs2 ++ [commuteEvent sEnd commuteEnd], commuteEnd)
    else (evs2, sEnd) in
  (evs3, sStart, sEnd, cur3).

(** The [for] loop over [availableSlots] for one task: [None] when no slot
    works (nothing changes), otherwise the pushed events, the scheduled
    start and end, and the slot list with the chosen slot's start moved to
    [currentTime + minBreakBetweenTasks * 60000]. *)
Fixpoint scan (minBreak : Z) (t : Task) (slots : list Slot)
    : option (list Event * Z * Z * list Slot) :=
  match slots with
  | [] => None
  | s :: rest =>
      if fits (totalDuration t) s then
        let '(evs, a, b, cur) := place_in_slot t (slot_start s) in
        Some (evs, a, b, mkSlot (cur + minBreak * MINUTE) (slot_end s) :: rest)
      else
        match scan minBreak t rest with
        | None => None
        | Some (evs, a, b, rest') => Some (evs, a, b, s :: rest')
        end
  end.

(** [tasks[i] = x]; [i] is always in range here. *)
Fixpoint replace_nth {A : Type} (i : nat) (x : A) (l : list A) : list A :=
  match l, i with
  | [], _ => []
  | _ :: l', O => x :: l'
  | y :: l', S i' => y :: replace_nth i' x l'
  end.

(** [taskQueue.forEach(...)]. The queue holds references to the objects of
    [this.tasks]; a reference is modelled by its index in [this.tasks],
    paired with the (reset) task it points to. *)
Fixpoint run_queue (minBreak : Z) (queue : list (nat * Task))
    (ts : list Task) (slots : list Slot) (evs : list Event)
    : list Task * list Slot * list Event :=
  match queue with
  | [] => (ts, slots, evs)
  | (i, t) :: q =>
      match scan minBreak t slots with
      | None => run_queue minBreak q ts slots evs
      | Some (pushed, a, b, slots') =>
          run_queue minBreak q (replace_nth i (set_scheduled t a b) ts) slots'
            (evs ++ pushed)
      end
  end.

(** The comparator of [[...this.tasks].sort(...)]. *)
Definition taskCmp (a b : Task) : Z :=
  if negb (priority a =? priority b) then priority b - priority a
  else deadline a - deadline b.

(** The comparator applied to queue entries (position, task). *)
Definition queueCmp (a b : nat * Task) : Z := taskCmp (snd a) (snd b).

Definition taskQueue (ts : list Task) : list (nat * Task) :=
  sort_cmp queueCmp (combine (seq 0 (length ts)) ts).

(** Strict order on queue entries: key [(- priority, deadline)], then the
    position in [this.tasks]. *)
Definition queue_before (a b : nat * Task) : Prop :=
  priority (snd b) < priority (snd a)
  \/ (priority (snd a) = priority (snd b) /\ deadline (snd a) < deadline (snd b))
  \/ (priority (snd a) = priority (snd b) /\ deadline (snd a) = deadline (snd b)
      /\ (fst a < fst b)%nat).

(** [twoWeeksFromNow = now + 14 * 24 * 60 * 60 * 1000] *)
Definition horizonEnd (now : Z) : Z := now + 14 * DAY.

Definition schedule_result (now : Z) (c : Calendar) : list Task * list Slot * list Event :=
  let ts := map reset_task (tasks c) in
  let evs := filter isFixed (events c) in
  let availableSlots := getAvailableSlots (settings c) now (horizonEnd now) evs in
  run_queue (minBreakBetweenTasks (settings c)) (taskQueue ts) ts availableSlots evs.

(** [autoScheduleTasks()] run at time [now]. *)
Definition autoScheduleTasks (now : Z) (c : Calendar) : Calendar :=
  let '(ts, _, evs) := schedule_result now c in
  mkCalendar ts evs (settings c).

(** The tasks that could not be scheduled. *)
Definition unscheduled (c : Calendar) : list Task :=
  filter (fun t => negb (isScheduled t)) (tasks c).

(** ** Intervals *)

Definition in_slot (s : Slot) (t : Z) : Prop := slot_start s <= t < slot_end s.

Definition in_event (e : Event) (t : Z) : Prop := ev_start e <= t < ev_end e.

(** [a] ends no later than [b] starts. *)
Definition slot_precedes (a b : Slot) : Prop := slot_end a <= slot_start b.

(** [g] is a non-empty slot inside the working hours of a working day
    visited by the [while] loop of [getAvailableSlots startDate endDate],
    not before [startDate]. *)
Definition slot_on_day (st : Settings) (startDate endDate : Z) (g : Slot) : Prop :=
  exists k : nat,
    let cur := midnight startDate + Z.of_nat k * DAY in
    cur < endDate /\ isWorkDay st cur = true /\
    effectiveStart_of st startDate cur <= slot_start g /\
    slot_start g < slot_end g /\ slot_end g <= dayEnd_of st cur.

(** Two events share a point of time. *)
Definition ev_overlap (a b : Event) : Prop := exists t, in_event a t /\ in_event b t.

(** Durations of a task are non-negative. *)
Definition task_nonneg (t : Task) : Prop :=
  0 <= duration t /\ 0 <= commuteToDuration t /\ 0 <= commuteFromDuration t.

(** [t] with another deadline. *)
Definition with_deadline (t : Task) (d : Z) : Task :=
  {| task_id := task_id t; priority := priority t; duration := duration t;
     deadline := d; commuteToDuration := commuteToDuration t;
     commuteFromDuration := commuteFromDuration t;
     isScheduled := isScheduled t; scheduledStart := scheduledStart t;
     scheduledEnd := scheduledEnd t |}.

(** Invariant of the placement pass, relative to the slot list [G0] it
    started from: the current slots [G] are the slots of [G0] with their
    starts moved later and their ends kept, and each placed item [P] lies
    in one slot of [G0], before the current start of that slot; placed
    items come one after the other and none is fixed. *)
Definition pass_inv (G0 G : list Slot) (P : list Event) : Prop :=
  length G = length G0 /\
  (forall j g0 g, nth_error G0 j = Some g0 -> nth_error G j = Some g ->
     slot_start g0 <= slot_start g /\ slot_end g = slot_end g0) /\
  (forall p, In p P -> exists j g0 g,
     nth_error G0 j = Some g0 /\ nth_error G j = Some g /\
     slot_start g0 <= ev_start p /\ ev_start p <= ev_end p /\
     ev_end p <= slot_start g /\ ev_end p <= slot_end g0) /\
  ForallOrdPairs (fun x y => ev_end x <= ev_start y \/ ev_end y <= ev_start x) P /\
  Forall (fun p => isFixed p = false) P.

(** Slots only shrink during the pass. *)
Definition slots_shrunk (G0 G : list Slot) : Prop :=
  length G = length G0 /\
  forall j g0 g, nth_error G0 j = Some g0 -> nth_error G j = Some g ->
    slot_start g0 <= slot_start g /\ slot_end g = slot_end g0.

(** ** Strings, [addEvent], the [.ics] importer and number parsing

    JavaScript strings are modelled as [string], one [ascii] per UTF-16
    code unit (code units below 256). *)

Module Text.
Import Strings.String Strings.Ascii.
Local Open Scope string_scope.

Definition CR : ascii := "013"%char.
Definition LF : ascii := "010"%char.

(** The line terminators below 256, which [.] in a regular expression does
    not match. *)
Definition is_line_terminator (c : ascii) : bool := Ascii.eqb c LF || Ascii.eqb c CR.

(** [WhiteSpace] and [LineTerminator] code units below 256, as removed by
    [String.prototype.trim] and skipped by [parseInt]. *)
Definition is_ws (c : ascii) : bool :=
  let n := nat_of_ascii c in
  Nat.eqb n 9 || Nat.eqb n 10 || Nat.eqb n 11 || Nat.eqb n 12 || Nat.eqb n 13 ||
  Nat.eqb n 32 || Nat.eqb n 160.

Fixpoint trim_start (s : string) : string :=
  match s with
  | "" => ""
  | String c s' => if is_ws c then trim_start s' else s
  end.

Fixpoint trim_end (s : string) : string :=
  match s with
  | "" => ""
  | String c s' =>
      match trim_end s' with
      | "" => if is_ws c then "" else String c ""
      | r => String c r
      end
  end.

(** [s.trim()] *)
Definition trim (s : string) : string := trim_end (trim_start s).

(** [s.includes(sub)] *)
Fixpoint includes (sub s : string) : bool :=
  prefix sub s || match s with "" => false | String _ s' => includes sub s' end.

(** [s.endsWith(suf)] *)
Fixpoint endsWith (suf s : string) : bool :=
  String.eqb s suf || match s with "" => false | String _ s' => endsWith suf s' end.

Fixpoint drop (n : nat) (s : string) : string :=
  match n, s with
  | O, _ => s
  | S _, "" => ""
  | S n', String _ s' => drop n' s'
  end.

(** [s.split(sep)] for a non-empty separator: the string is cut at the
    occurrences of [sep] found from left to right; [skip] counts the code
    units of a separator still to be passed. *)
Fixpoint split_go (sep s : string) (skip : nat) (cur : string) : list string :=
  match s with
  | "" => [cur]
  | String c s' =>
      match skip with
      | S k => split_go sep s' k cur
      | O => if prefix sep s then (cur :: split_go sep s' (pred (length sep)) "")%list
             else split_go sep s' O (cur ++ String c "")
      end
  end.

Definition str_split (sep s : string) : list string := split_go sep s O "".

(** [s.slice(a, b)] for [a <= b] *)
Definition slice (s : string) (a b : nat) : string := substring a (b - a) s.

(** The rest of the line: what the group [( .* )] captures. *)
Fixpoint take_line (s : string) : string :=
  match s with
  | "" => ""
  | String c s' => if is_line_terminator c then "" else String c (take_line s')
  end.

(** [s.match(/KEY( .* )/)] for a literal [KEY] (as [/SUMMARY:( .* )/] and
    [/LOCATION:( .* )/]; spaces added): the group captured by the leftmost match. *)
Fixpoint match_key (key s : string) : option string :=
  if prefix key s then Some (take_line (drop (length key) s))
  else match s with "" => None | String _ s' => match_key key s' end.

(** What follows the last [:] of a line, if any. *)
Fixpoint after_last_colon (line : string) : option string :=
  match line with
  | "" => None
  | String c l' =>
      match after_last_colon l' with
      | Some r => Some r
      | None => if Ascii.eqb c ":" then Some l' else None
      end
  end.

(** [/KEY(?:;.* )?:( .* )/] (spaces added) tried at the start of [s]: after [KEY;] the greedy
    [.*] backtracks to the last [:] of the line; otherwise [KEY] must be
    followed by [:]. *)
Definition dt_at (key s : string) : option string :=
  if prefix key s then
    match drop (length key) s with
    | String c r =>
        if Ascii.eqb c ";" then after_last_colon (take_line r)
        else if Ascii.eqb c ":" then Some (take_line r) else None
    | "" => None
    end
  else None.

(** [s.match(/DTSTART(?:;.* )?:( .* )/)] and the same for [DTEND]: the
    leftmost match. *)
Fixpoint dt_match (key s : string) : option string :=
  match dt_at key s with
  | Some v => Some v
  | None => match s with "" => None | String _ s' => dt_match key s' end
  end.

(** [parseICSTime(dtString)]: the text handed to [new Date(...)].  The
    [try] never catches: the string methods used cannot throw. *)
Definition parseICSTime (dtString : string) : string :=
  if includes "T" dtString && endsWith "Z" dtString then
    let parts := str_split "T" dtString in
    let date := nth 0 parts "" in
    let time := nth 1 parts "" in
    slice date 0 4 ++ "-" ++ slice date 4 6 ++ "-" ++ slice date 6 8 ++ "T" ++
    slice time 0 2 ++ ":" ++ slice time 2 4 ++ ":" ++ slice time 4 6 ++ "Z"
  else if includes "T" dtString then
    let parts := str_split "T" dtString in
    let date := nth 0 parts "" in
    let time := nth 1 parts "" in
    slice date 0 4 ++ "-" ++ slice date 4 6 ++ "-" ++ slice date 6 8 ++ "T" ++
    slice time 0 2 ++ ":" ++ slice time 2 4 ++ ":" ++ slice time 4 6
  else if Nat.eqb (length dtString) 8 then
    slice dtString 0 4 ++ "-" ++ slice dtString 4 6 ++ "-" ++ slice dtString 6 8
  else dtString.

(** An event returned by [parseICS]: [start] and [end] are the texts given
    to [new Date] (a [Date] object is always truthy); [isFixed] is [true]. *)
Record IcsEvent := mkIcsEvent {
  ics_name : string;
  ics_start : string;
  ics_end : string;
  ics_location : option string
}.

(** The body of [eventBlocks.slice(1).forEach(block => ...)]. *)
Definition parse_block (block : string) : option IcsEvent :=
  if includes "END:VEVENT" block then
    let name := option_map trim (match_key "SUMMARY:" block) in
    let start := option_map (fun v => parseICSTime (trim v)) (dt_match "DTSTART" block) in
    let end_ := option_map (fun v => parseICSTime (trim v)) (dt_match "DTEND" block) in
    let location := option_map trim (match_key "LOCATION:" block) in
    match name, start, end_ with
    | Some n, Some s, Some e =>
        if String.eqb n "" then None else Some (mkIcsEvent n s e location)
    | _, _, _ => None
    end
  else None.

(** [parseICS(data)] *)
Definition parseICS (data : string) : list IcsEvent :=
  flat_map (fun block => match parse_block block with Some e => [e] | None => [] end)
    (tl (str_split "BEGIN:VEVENT" data)).

(** An entry of [this.events] with its name: [start.getTime()] and
    [end.getTime()] are [None] for an invalid date (time value NaN). *)
Record CalEvent := mkCalEvent {
  ce_name : string;
  ce_start : option Z;
  ce_end : option Z;
  ce_location : option string;
  ce_isFixed : bool;
  ce_isCommute : bool
}.

(** The object passed to [addEvent]. *)
Record EventInput := mkEventInput {
  ei_name : string;
  ei_start : option Z;
  ei_end : option Z;
  ei_location : option string
}.

(** A string value used as a condition: [undefined], [null] and [""] are
    falsy. *)
Definition truthy (s : option string) : option string :=
  match s with
  | Some x => if String.eqb x "" then None else Some x
  | None => None
  end.

(** When [location && homeAddress && orsApiKey], the two awaited results
    [getCommuteTime(homeAddress, location)] and
    [getCommuteTime(location, homeAddress)]; [commute a b] stands for the
    minutes [getCommuteTime(a, b)] resolves to (it resolves to 0 on any
    failure and never rejects once the key is set). *)
Definition commute_minutes (homeAddress orsApiKey : option string)
    (commute : string -> string -> Z) (location : option string) : option (Z * Z) :=
  match truthy location, truthy homeAddress, truthy orsApiKey with
  | Some loc, Some h, Some _ => Some (commute h loc, commute loc h)
  | _, _, _ => None
  end.

(** [addEvent(event)]: the events pushed onto [this.events]. *)
Definition addEvent (homeAddress orsApiKey : option string) (commute : string -> string -> Z)
    (evs : list CalEvent) (event : EventInput) : list CalEvent :=
  let newEvent := mkCalEvent (ei_name event) (ei_start event) (ei_end event)
                    (ei_location event) true false in
  let evs1 := (evs ++ [newEvent])%list in
  match commute_minutes homeAddress orsApiKey commute (ei_location event) with
  | Some (commuteToDuration, commuteFromDuration) =>
      (evs1
       ++ (if (0 <? commuteToDuration)%Z
           then [mkCalEvent (append "Commute to " (ei_name event))
                   (option_map (fun s => s - commuteToDuration * MINUTE) (ei_start event))
                   (ei_start event) None true true]
           else [])
       ++ (if (0 <? commuteFromDuration)%Z
           then [mkCalEvent (append "Commute from " (ei_name event)) (ei_end event)
                   (option_map (fun e => e + commuteFromDuration * MINUTE) (ei_end event))
                   None true true]
           else []))%list
  | None => evs1
  end.

(** [e.start.getTime() === event.start.getTime()]: NaN equals nothing. *)
Definition same_time (a b : option Z) : bool :=
  match a, b with
  | Some x, Some y => (x =? y)%Z
  | _, _ => false
  end.

(** The [for (const event of events)] loop of [fetchICS]: the events and
    [addedCount] after it. *)
Fixpoint importEvents (homeAddress orsApiKey : option string) (commute : string -> string -> Z)
    (evs : list CalEvent) (events : list EventInput) (addedCount : Z) : list CalEvent * Z :=
  match events with
  | [] => (evs, addedCount)
  | event :: rest =>
      let exists_ := existsb (fun e => String.eqb (ce_name e) (ei_name event) &&
                                       same_time (ce_start e) (ei_start event)) evs in
      if exists_ then importEvents homeAddress orsApiKey commute evs rest addedCount
      else importEvents homeAddress orsApiKey commute
             (addEvent homeAddress orsApiKey commute evs event) rest (addedCount + 1)
  end.

(** The events [fetchICS] imports from [.ics] text; [dateValue s] is the
    time value of [new Date(s)] ([None] for an invalid date). *)
Definition icsInputs (dateValue : string -> option Z) (data : string) : list EventInput :=
  map (fun e => mkEventInput (ics_name e) (dateValue (ics_start e)) (dateValue (ics_end e))
                  (ics_location e))
    (parseICS data).

(** The events seen by the scheduler: an event with an invalid date fails
    both comparisons of the [dayEvents] filter of [getAvailableSlots] and
    never takes part. *)
Definition sched_event (c : CalEvent) : list Event :=
  match ce_start c, ce_end c with
  | Some s, Some e => [mkEvent s e (ce_isFixed c) false (ce_isCommute c) None]
  | _, _ => []
  end.

Definition sched_events (l : list CalEvent) : list Event := flat_map sched_event l.

(** Decimal and hexadecimal digits. *)
Definition digit_value (radix : Z) (c : ascii) : option Z :=
  let n := Z.of_nat (nat_of_ascii c) in
  let d := if ((48 <=? n) && (n <=? 57))%Z then Some (n - 48)
           else if ((97 <=? n) && (n <=? 122))%Z then Some (n - 87)
           else if ((65 <=? n) && (n <=? 90))%Z then Some (n - 55)
           else None in
  match d with
  | Some v => if (v <? radix)%Z then Some v else None
  | None => None
  end.

(** The value of the longest prefix of digits, [None] when there is none. *)
Fixpoint read_digits (radix : Z) (s : string) (acc : option Z) : option Z :=
  match s with
  | "" => acc
  | String c s' =>
      match digit_value radix c with
      | Some d => read_digits radix s'
                    (Some (match acc with Some a => a * radix + d | None => d end))
      | None => acc
      end
  end.

(** [parseInt(s)] without a radix, [None] for NaN.  The value is the
    integer the digits denote; JavaScript rounds it to a double, which is
    the same integer only up to 2^53, so statements about larger numerals
    do not carry over. *)
Definition parseInt (s : string) : option Z :=
  let s1 := trim_start s in
  let '(sign, s2) :=
    match s1 with
    | String c r =>
        if Ascii.eqb c "-" then (-1, r) else if Ascii.eqb c "+" then (1, r) else (1, s1)
    | "" => (1, "")
    end in
  let '(radix, s3) :=
    if prefix "0x" s2 || prefix "0X" s2 then (16, drop 2 s2) else (10, s2) in
  option_map (Z.mul sign) (read_digits radix s3 None).

(** [parseInt(settings.workStart.split(':')[0])] of [saveSettings] (and
    the same for [workEnd]). *)
Definition settingsHour (value : string) : option Z :=
  parseInt (hd "" (str_split ":" value)).

(** [estimateTaskDuration(taskName)] once the reply text
    [result.candidates?.[0]?.content?.parts?.[0]?.text] is known ([None]
    when absent or when the request failed): the duration, or [null]. *)
Definition estimateTaskDuration (text : option string) : option Z :=
  match truthy text with
  | Some t => parseInt (trim t)
  | None => None
  end.

End Text.

(** ** The earlier copy of [getAvailableSlots] (second [Calendar] class)

    It differs from the one above in three places: the scheduler's own task
    events count as busy ([isFixed || isTask]), the pointer moves to
    [event.end] without taking the maximum, and slots of at least
    [minBreakBetweenTasks] minutes are kept. *)

Fixpoint sweep_v1 (timePointer : Z) (dayEvents : list Event) : list Slot * Z :=
  match dayEvents with
  | [] => ([], timePointer)
  | e :: es =>
      let here := if timePointer <? ev_start e
                  then [mkSlot timePointer (ev_start e)] else [] in
      let '(rest, p) := sweep_v1 (ev_end e) es in
      (here ++ rest, p)
  end.

Definition day_slots_v1 (st : Settings) (startDate : Z) (fixedEvents : list Event)
    (currentDate : Z) : list Slot :=
  if isWorkDay st currentDate then
    let dayEnd := dayEnd_of st currentDate in
    let effectiveStart := effectiveStart_of st startDate currentDate in
    if effectiveStart <? dayEnd then
      let dayEvents :=
        sort_cmp eventCmp
          (filter (fun e => (ev_start e <? dayEnd) && (effectiveStart <? ev_end e))
             fixedEvents) in
      let '(gs, timePointer) := sweep_v1 effectiveStart dayEvents in
      gs ++ (if timePointer <? dayEnd then [mkSlot timePointer dayEnd] else [])
    else []
  else [].

Fixpoint days_loop_v1 (st : Settings) (startDate endDate : Z) (fixedEvents : list Event)
    (fuel : nat) (currentDate : Z) : list Slot :=
  match fuel with
  | O => []
  | S f =>
      if currentDate <? endDate then
        day_slots_v1 st startDate fixedEvents currentDate
          ++ days_loop_v1 st startDate endDate fixedEvents f (currentDate + DAY)
      else []
  end.

Definition getAvailableSlots_v1 (st : Settings) (startDate endDate : Z) (evs : list Event)
    : list Slot :=
  filter (fun s => minBreakBetweenTasks st * MINUTE <=? slot_end s - slot_start s)
    (days_loop_v1 st startDate endDate (filter (fun e => isFixed e || isTask e) evs)
       (day_fuel startDate endDate) (midnight startDate)).

(** ** Decimal numerals, to state what [parseInt] reads *)

Module Decimal.
Import Strings.String Strings.Ascii.

(** The character of a decimal digit [0 <= d < 10]. *)
Definition digit_char (d : Z) : ascii := ascii_of_nat (Z.to_nat (48 + d)).

(** The numeral written with the digits [ds], most significant first. *)
Fixpoint digits_string (ds : list Z) : string :=
  match ds with
  | [] => EmptyString
  | d :: ds' => String (digit_char d) (digits_string ds')
  end.

(** Its value. *)
Definition digits_value (ds : list Z) : Z := fold_left (fun a d => a * 10 + d) ds 0.
End Decimal.

(** The test of the import loop of [fetchICS]: a stored event with the same
    name and start. *)
Definition stored (evs : list Text.CalEvent) (ev : Text.EventInput) : bool :=
  existsb (fun e => String.eqb (Text.ce_name e) (Text.ei_name ev) &&
                    Text.same_time (Text.ce_start e) (Text.ei_start ev)) evs.

Module IcsWrite.
Import Strings.String Strings.Ascii.
Local Open Scope string_scope.

Definition CRLF : string := String Text.CR (String Text.LF "").

Record VEvent := mkVEvent {
  v_summary : string;
  v_dtstart : string;
  v_dtend : string;
  v_location : option string
}.

Definition location_line (loc : option string) : string :=
  match loc with Some x => "LOCATION:" ++ x ++ CRLF | None => "" end.

Definition vevent_body (v : VEvent) : string :=
  CRLF ++ "SUMMARY:" ++ v_summary v ++ CRLF ++ "DTSTART:" ++ v_dtstart v ++ CRLF ++
  "DTEND:" ++ v_dtend v ++ CRLF ++ location_line (v_location v) ++ "END:VEVENT" ++ CRLF.

Definition vevent (v : VEvent) : string := "BEGIN:VEVENT" ++ vevent_body v.

Definition vcalendar (vs : list VEvent) : string :=
  "BEGIN:VCALENDAR" ++ CRLF ++ fold_right append "" (map vevent vs) ++
  "END:VCALENDAR" ++ CRLF.

Definition expected (v : VEvent) : Text.IcsEvent :=
  Text.mkIcsEvent (Text.trim (v_summary v)) (Text.parseICSTime (Text.trim (v_dtstart v)))
    (Text.parseICSTime (Text.trim (v_dtend v))) (option_map Text.trim (v_location v)).

Definition one_line (x : string) : Prop :=
  forall c, In c (list_ascii_of_string x) -> Text.is_line_terminator c = false.

Definition well_formed (v : VEvent) : Prop :=
  one_line (v_summary v) /\ one_line (v_dtstart v) /\ one_line (v_dtend v) /\
  Text.includes "BEGIN:VEVENT" (v_summary v) = false /\
  Text.includes "BEGIN:VEVENT" (v_dtstart v) = false /\
  Text.includes "BEGIN:VEVENT" (v_dtend v) = false /\
  Text.includes "DTSTART" (v_summary v) = false /\
  Text.includes "DTEND" (v_summary v) = false /\
  Text.includes "DTEND" (v_dtstart v) = false /\
  Text.includes "LOCATION:" (v_summary v) = false /\
  Text.includes "LOCATION:" (v_dtstart v) = false /\
  Text.includes "LOCATION:" (v_dtend v) = false /\
  match v_location v with
  | Some x => one_line x /\ Text.includes "BEGIN:VEVENT" x = false
  | None => True
  end /\
  Text.trim (v_summary v) <> "".

(** No occurrence of [k] starts inside [a], whatever follows [a]. *)
Fixpoint starts_clear (k a : string) : bool :=
  match a with
  | "" => true
  | String _ a' => negb (prefix k a) && negb (prefix a k) && starts_clear k a'
  end.
End IcsWrite.

(** ** Dates of the second [Calendar] class *)

(** The time arithmetic of ECMAScript's [Date] (time values in
    milliseconds, [None] for NaN). *)
Module JSDate.

Definition DayFromYear (y : Z) : Z :=
  365 * (y - 1970) + (y - 1969) / 4 - (y - 1901) / 100 + (y - 1601) / 400.

(** [InLeapYear(t)]: 1 in a year of 366 days. *)
Definition InLeapYear (y : Z) : Z :=
  if (y mod 4 =? 0) && (negb (y mod 100 =? 0) || (y mod 400 =? 0)) then 1 else 0.

(** The day within the year on which month [mn] (0 = January) starts, the
    bounds of [MonthFromTime]. *)
Definition month_start (mn leap : Z) : Z :=
  nth (Z.to_nat mn) [0; 31; 59; 90; 120; 151; 181; 212; 243; 273; 304; 334] 0
  + (if 2 <=? mn then leap else 0).

(** [MakeDay(year, month, date)] for integral arguments; the years a
    [parseInt] of at most four characters gives are far inside the range
    where a day exists. *)
Definition MakeDay (year month date : Z) : Z :=
  let ym := year + month / 12 in
  let mn := month mod 12 in
  DayFromYear ym + month_start mn (InLeapYear ym) + date - 1.

Definition MakeTime (hour min sec ms : Z) : Z :=
  hour * HOUR + min * MINUTE + sec * 1000 + ms.

Definition MakeDate (day time : Z) : Z := day * DAY + time.

Definition TimeClip (time : Z) : option Z :=
  if Z.abs time <=? 8640000000000000 then Some time else None.

(** A year from 0 to 99 given to [Date.UTC] or [new Date(...)] means
    1900 to 1999. *)
Definition MakeFullYear (y : Z) : Z :=
  if (0 <=? y) && (y <=? 99) then 1900 + y else y.

(** [Date.UTC(year, month, day, hour, minute, second)] *)
Definition Date_UTC (year month day hour minute second : option Z) : option Z :=
  match year, month, day, hour, minute, second with
  | Some y, Some m, Some d, Some h, Some mi, Some s =>
      TimeClip (MakeDate (MakeDay (MakeFullYear y) m d) (MakeTime h mi s 0))
  | _, _, _, _, _, _ => None
  end.

(** [new Date(year, month, day, hour, minute, second)]: the fields are
    local time, and [utc] is the conversion [UTC(t)] of the local time
    zone. *)
Definition new_Date_local (utc : Z -> Z) (year month day hour minute second : option Z)
    : option Z :=
  match year, month, day, hour, minute, second with
  | Some y, Some m, Some d, Some h, Some mi, Some s =>
      TimeClip (utc (MakeDate (MakeDay (MakeFullYear y) m d) (MakeTime h mi s 0)))
  | _, _, _, _, _, _ => None
  end.

End JSDate.

Module ICal.
Import Strings.String Strings.Ascii.
Local Open Scope string_scope.

(** [s.split(/\r?\n/)] *)
Fixpoint split_lines_go (s cur : string) : list string :=
  match s with
  | "" => [cur]
  | String c s' =>
      if Ascii.eqb c Text.LF then (cur :: split_lines_go s' "")%list
      else if Ascii.eqb c Text.CR then
        match s' with
        | String c2 s'' =>
            if Ascii.eqb c2 Text.LF then (cur :: split_lines_go s'' "")%list
            else split_lines_go s' (cur ++ String c "")
        | "" => split_lines_go s' (cur ++ String c "")
        end
      else split_lines_go s' (cur ++ String c "")
  end.

Definition split_lines (s : string) : list string := split_lines_go s "".

(** [/^[ \t]/.test(s)] *)
Definition starts_blank (s : string) : bool :=
  match s with
  | String c _ => Ascii.eqb c " " || Ascii.eqb c "009"%char
  | "" => false
  end.

(** [s.indexOf(c)], [None] for [-1]. *)
Fixpoint index_of (c : ascii) (s : string) : option nat :=
  match s with
  | "" => None
  | String c' s' => if Ascii.eqb c' c then Some O else option_map S (index_of c s')
  end.

(** [parseICalDate(icalDate)]: the time value of the [Date] it returns. *)
Definition parseICalDate (utc : Z -> Z) (icalDate0 : string) : option Z :=
  let icalDate := last (Text.str_split ":" icalDate0) "" in
  let year := Text.parseInt (Text.slice icalDate 0 4) in
  let month := option_map (fun m => m - 1) (Text.parseInt (Text.slice icalDate 4 6)) in
  let day := Text.parseInt (Text.slice icalDate 6 8) in
  if Nat.eqb (length icalDate) 8 then
    JSDate.new_Date_local utc year month day (Some 0) (Some 0) (Some 0)
  else
    let hour := Text.parseInt (Text.slice icalDate 9 11) in
    let minute := Text.parseInt (Text.slice icalDate 11 13) in
    let second := Text.parseInt (Text.slice icalDate 13 15) in
    if Text.endsWith "Z" icalDate then JSDate.Date_UTC year month day hour minute second
    else JSDate.new_Date_local utc year month day hour minute second.

(** The event object built by [parseICalendar]: [ic_start] and [ic_end] are
    [undefined] ([None]) or a [Date] with its time value. *)
Record ICalEvent := mkICalEvent {
  ic_start : option (option Z);
  ic_end : option (option Z);
  ic_summary : option string;
  ic_description : option string;
  ic_location : option string
}.

Definition empty_event : ICalEvent := mkICalEvent None None None None None.

(** The [else if (currentEvent)] branch: a [PROPERTY:value] line. *)
Definition property_step (utc : Z -> Z) (line : string) (ev : ICalEvent) : ICalEvent :=
  match index_of ":" line with
  | Some (S k as colonIndex) =>
      let property := substring 0 colonIndex line in
      let value := Text.drop (S colonIndex) line in
      if prefix "DTSTART" property then
        mkICalEvent (Some (parseICalDate utc value)) (ic_end ev) (ic_summary ev)
          (ic_description ev) (ic_location ev)
      else if prefix "DTEND" property then
        mkICalEvent (ic_start ev) (Some (parseICalDate utc value)) (ic_summary ev)
          (ic_description ev) (ic_location ev)
      else if String.eqb property "SUMMARY" then
        mkICalEvent (ic_start ev) (ic_end ev) (Some value) (ic_description ev) (ic_location ev)
      else if String.eqb property "DESCRIPTION" then
        mkICalEvent (ic_start ev) (ic_end ev) (ic_summary ev) (Some value) (ic_location ev)
      else if String.eqb property "LOCATION" then
        mkICalEvent (ic_start ev) (ic_end ev) (ic_summary ev) (ic_description ev) (Some value)
      else ev
  | _ => ev
  end.

(** [date <= t] and [date >= t] for a [Date] and a valid date: NaN
    compares false. *)
Definition date_le (d : option Z) (t : Z) : bool :=
  match d with Some x => (x <=? t)%Z | None => false end.

Definition date_ge (d : option Z) (t : Z) : bool :=
  match d with Some x => (t <=? x)%Z | None => false end.

(** One pass of the [for] loop body on the (unfolded) [line]: the events
    found so far and [currentEvent]. *)
Definition line_step (utc : Z -> Z) (startDate endDate : Z) (line : string)
    (st : list ICalEvent * option ICalEvent) : list ICalEvent * option ICalEvent :=
  let '(events, currentEvent) := st in
  if String.eqb line "BEGIN:VEVENT" then (events, Some empty_event)
  else
    match currentEvent with
    | Some ev =>
        if String.eqb line "END:VEVENT" then
          match ic_start ev, ic_end ev with
          | Some s, Some e =>
              if date_le s endDate && date_ge e startDate
              then ((events ++ [ev])%list, None) else (events, None)
          | _, _ => (events, None)
          end
        else (events, Some (property_step utc line ev))
    | None => (events, None)
    end.

(** The inner [while] loop: the lines that follow and start with a space
    or a tab are appended, trimmed, to [line]; the lines left. *)
Fixpoint gather (line : string) (rest : list string) : string * list string :=
  match rest with
  | next :: rest' =>
      if starts_blank next then gather (line ++ Text.trim next) rest' else (line, rest)
  | [] => (line, [])
  end.

(** The [for] loop, [fuel] bounding its passes (each pass consumes at least
    one line). *)
Fixpoint for_loop (utc : Z -> Z) (startDate endDate : Z) (fuel : nat) (lines : list string)
    (st : list ICalEvent * option ICalEvent) : list ICalEvent * option ICalEvent :=
  match fuel with
  | O => st
  | S f =>
      match lines with
      | [] => st
      | l :: rest =>
          let '(line, rest') := gather (Text.trim l) rest in
          for_loop utc startDate endDate f rest' (line_step utc startDate endDate line st)
      end
  end.

(** [parseICalendar(icalData, startDate, endDate)] *)
Definition parseICalendar (utc : Z -> Z) (icalData : string) (startDate endDate : Z)
    : list ICalEvent :=
  let lines := split_lines icalData in
  fst (for_loop utc startDate endDate (List.length lines) lines ([], None)).

(** An entry of [this.events] of the second class ([id] not modelled):
    [isTask] and [taskId] are set on the events [autoScheduleTasks] pushes,
    absent (falsy) on the others. *)
Record Event1 := mkEvent1 {
  e1_name : string;
  e1_start : option Z;
  e1_end : option Z;
  e1_isFixed : bool;
  e1_isImported : bool;
  e1_isTask : bool;
  e1_taskId : option Z
}.

(** [addEvent(event)] of the second class: [this.events] after the push. *)
Definition addEvent_v1 (evs : list Event1) (name : string) (start end_ : option Z)
    (isImported : bool) : list Event1 :=
  (evs ++ [mkEvent1 name start end_ true isImported false None])%list.

(** A task of the second class, as [addTask] builds it. *)
Record Task1 := mkTask1 {
  t1_id : Z;
  t1_name : string;
  t1_priority : Z;
  t1_duration : Z;                 (* minutes *)
  t1_deadline : Z;
  t1_isScheduled : bool;
  t1_scheduledStart : option Z;
  t1_scheduledEnd : option Z
}.

Definition reset_task1 (t : Task1) : Task1 :=
  mkTask1 (t1_id t) (t1_name t) (t1_priority t) (t1_duration t) (t1_deadline t)
    false None None.

Definition set_scheduled1 (t : Task1) (a b : Z) : Task1 :=
  mkTask1 (t1_id t) (t1_name t) (t1_priority t) (t1_duration t) (t1_deadline t)
    true (Some a) (Some b).

(** The event pushed for a scheduled task. *)
Definition taskEvent1 (t : Task1) (a b : Z) : Event1 :=
  mkEvent1 (t1_name t) (Some a) (Some b) false false true (Some (t1_id t)).

(** The events [getAvailableSlots] works with: an event whose start or end
    is not a valid date fails [event.start < dayEnd && event.end >
    effectiveStart] and never takes part. *)
Definition sched_event1 (e : Event1) : list Event :=
  match e1_start e, e1_end e with
  | Some s, Some t => [mkEvent s t (e1_isFixed e) (e1_isTask e) false None]
  | _, _ => []
  end.

(** The comparator of [[...this.tasks].sort(...)], on queue entries
    (position in [this.tasks], task). *)
Definition queueCmp1 (a b : nat * Task1) : Z :=
  if negb (t1_priority (snd a) =? t1_priority (snd b))%Z
  then (t1_priority (snd b) - t1_priority (snd a))%Z
  else (t1_deadline (snd a) - t1_deadline (snd b))%Z.

Definition taskQueue1 (ts : list Task1) : list (nat * Task1) :=
  sort_cmp queueCmp1 (combine (seq 0 (List.length ts)) ts).

(** The [for] loop over [availableSlots] for one task: the first slot of
    at least [task.duration] minutes takes it at its start; the slot is
    removed when the task fills it exactly, otherwise its start moves past
    the task and [minBreakBetweenTasks] minutes. *)
Fixpoint scan1 (minBreak : Z) (t : Task1) (slots : list Slot) : option (Z * Z * list Slot) :=
  match slots with
  | [] => None
  | s :: rest =>
      if (t1_duration t * MINUTE <=? slot_end s - slot_start s)%Z then
        let a := slot_start s in
        let b := (a + t1_duration t * MINUTE)%Z in
        Some (a, b,
              if (slot_end s - slot_start s =? t1_duration t * MINUTE)%Z then rest
              else (mkSlot (b + minBreak * MINUTE) (slot_end s) :: rest)%list)
      else
        match scan1 minBreak t rest with
        | None => None
        | Some (a, b, rest') => Some (a, b, (s :: rest')%list)
        end
  end.

(** [taskQueue.forEach(...)]: the tasks, the slots and the events. *)
Fixpoint run_queue1 (minBreak : Z) (queue : list (nat * Task1)) (ts : list Task1)
    (slots : list Slot) (evs : list Event1) : list Task1 * list Event1 :=
  match queue with
  | [] => (ts, evs)
  | (i, t) :: q =>
      match scan1 minBreak t slots with
      | None => run_queue1 minBreak q ts slots evs
      | Some (a, b, slots') =>
          run_queue1 minBreak q (replace_nth i (set_scheduled1 t a b) ts) slots'
            (evs ++ [taskEvent1 t a b])%list
      end
  end.

(** [autoScheduleTasks()] of the second class run at time [now]: the tasks
    and the events after it. *)
Definition autoScheduleTasks1 (now : Z) (st : Settings) (ts : list Task1) (evs : list Event1)
    : list Task1 * list Event1 :=
  let ts0 := map reset_task1 ts in
  let evs0 := filter (fun e => negb (e1_isTask e)) evs in
  let availableSlots :=
    getAvailableSlots_v1 st now (now + 14 * 24 * 60 * 60 * 1000)%Z
      (flat_map sched_event1 evs0) in
  run_queue1 (minBreakBetweenTasks st) (taskQueue1 ts0) ts0 availableSlots evs0.

(** The check of each proxy's response: [!icalData ||
    !icalData.includes('BEGIN:VCALENDAR')] throws. *)
Definition valid_ical (t : string) : bool :=
  negb (String.eqb t "") && Text.includes "BEGIN:VCALENDAR" t.

(** The proxy loop of [importGoogleCalendar]: each attempt either throws
    before [icalData] is assigned ([None]: the fetch rejects or the
    response is not ok) or assigns the text of the response; a text that
    passes the check ends the loop. *)
Fixpoint proxy_loop (attempts : list (option string)) (icalData : option string)
    : option string :=
  match attempts with
  | [] => icalData
  | None :: rest => proxy_loop rest icalData
  | Some t :: rest => if valid_ical t then Some t else proxy_loop rest (Some t)
  end.

(** The body of [events.forEach(event => ...)] in [importGoogleCalendar]:
    [this.addEvent({ name: event.summary || 'Untitled Event', start:
    event.start, end: event.end, isFixed: true, isImported: true })] and
    [importedCount++]. *)
Definition import_step (st : list Event1 * Z) (event : ICalEvent) : list Event1 * Z :=
  let '(evs, importedCount) := st in
  (addEvent_v1 evs
     (match Text.truthy (ic_summary event) with Some n => n | None => "Untitled Event" end)
     (match ic_start event with Some d => d | None => None end)
     (match ic_end event with Some d => d | None => None end) true,
   importedCount + 1).

(** The entry [import_step] pushes for a parsed event. *)
Definition imported_entry (event : ICalEvent) : Event1 :=
  mkEvent1 (match Text.truthy (ic_summary event) with Some n => n | None => "Untitled Event" end)
    (match ic_start event with Some d => d | None => None end)
    (match ic_end event with Some d => d | None => None end) true true false None.

(** [importGoogleCalendar] once [icalUrl] is known: [now] is [new Date()]
    (a valid time value), [daysAhead] a whole number of days, [attempts] the
    outcomes of the proxies, [schedNow] the [new Date()] read by
    [autoScheduleTasks].  [None] when it throws, else [this.tasks] and
    [this.events] after [autoScheduleTasks] and [importedCount].  A
    [futureDate] past the range of [Date] is an Invalid Date: [start <=
    futureDate] fails for every event, none is found, and the import
    throws. *)
Definition importGoogleCalendar (utc : Z -> Z) (now daysAhead schedNow : Z)
    (attempts : list (option string)) (st : Settings) (ts : list Task1) (evs : list Event1)
    : option (list Task1 * list Event1 * Z) :=
  let futureDate := JSDate.TimeClip (now + daysAhead * 24 * 60 * 60 * 1000) in
  match Text.truthy (proxy_loop attempts None) with
  | None => None
  | Some icalData =>
      match futureDate with
      | None => None
      | Some futureDate =>
          match parseICalendar utc icalData now futureDate with
          | [] => None
          | events =>
              let '(evs1, importedCount) := fold_left import_step events (evs, 0) in
              let '(ts', evs') := autoScheduleTasks1 schedNow st ts evs1 in
              Some (ts', evs', importedCount)
          end
      end
  end.

End ICal.

Module ICalWrite.
Import Strings.String Strings.Ascii.
Local Open Scope string_scope.

(** An event written as iCalendar lines: the summary line, continuation
    lines (each written after a space) and the two times. *)
Record Entry := mkEntry {
  en_summary : string;
  en_folds : list string;
  en_dtstart : string;
  en_dtend : string
}.

Definition entry_lines (e : Entry) : list string :=
  ["BEGIN:VEVENT"; "SUMMARY:" ++ en_summary e] ++ map (fun c => " " ++ c) (en_folds e) ++
  ["DTSTART:" ++ en_dtstart e; "DTEND:" ++ en_dtend e; "END:VEVENT"].

Definition crlf_join (ls : list string) : string :=
  fold_right (fun l acc => l ++ IcsWrite.CRLF ++ acc) "" ls.

Definition ical_text (es : list Entry) : string :=
  crlf_join ("BEGIN:VCALENDAR" :: flat_map entry_lines es ++ ["END:VCALENDAR"]).

Definition expected_event (utc : Z -> Z) (e : Entry) : ICal.ICalEvent :=
  ICal.mkICalEvent (Some (ICal.parseICalDate utc (Text.trim_end (en_dtstart e))))
    (Some (ICal.parseICalDate utc (Text.trim_end (en_dtend e))))
    (Some (Text.trim_end (en_summary e) ++ fold_right append "" (map Text.trim (en_folds e))))
    None None.

Definition in_window (startDate endDate : Z) (ev : ICal.ICalEvent) : bool :=
  match ICal.ic_start ev, ICal.ic_end ev with
  | Some s, Some t => ICal.date_le s endDate && ICal.date_ge t startDate
  | _, _ => false
  end.

Definition entry_ok (e : Entry) : Prop :=
  IcsWrite.one_line (en_summary e) /\ Forall IcsWrite.one_line (en_folds e) /\
  IcsWrite.one_line (en_dtstart e) /\ IcsWrite.one_line (en_dtend e).

End ICalWrite.

(** ** Sample data: 1970-01-06 is a Tuesday (day 5). *)

Definition defaultSettings : Settings := mkSettings 9 17 [1; 2; 3; 4; 5] 15.

Definition tuesday : Z := 5 * DAY.

Definition mkT (id prio dur dl : Z) : Task :=
  mkTask id prio dur dl 0 0 false None None.

(** A task with both commute legs and two slots, the first too short. *)
Definition sampleTask : Task := mkTask 1 5 30 0 10 5 false None None.

Definition sampleSlots : list Slot :=
  [mkSlot 0 (20 * MINUTE); mkSlot HOUR (3 * HOUR)].

(** Tuesday events 09:00-12:00, 10:00-11:00 (contained) and 11:30-12:30. *)
Definition overlapEvents : list Event :=
  [mkEvent (tuesday + 9 * HOUR) (tuesday + 12 * HOUR) true false false None;
   mkEvent (tuesday + 10 * HOUR) (tuesday + 11 * HOUR) true false false None;
   mkEvent (tuesday + 11 * HOUR + 30 * MINUTE) (tuesday + 12 * HOUR + 30 * MINUTE)
     true false false None].

(** The fixed event of the scenario: Tuesday 10:00-11:00. *)
Definition tuesdayEvents : list Event :=
  [mkEvent (tuesday + 10 * HOUR) (tuesday + 11 * HOUR) true false false None].

(** Closes a closed side condition: splits conjunctions and [Forall] over a
    concrete list, then evaluates each closed atom. *)
Ltac concrete :=
  cbv beta; try unfold task_nonneg;
  lazymatch goal with
  | |- Forall ?P ?l =>
      let l' := eval vm_compute in l in change (Forall P l'); constructor; concrete
  | |- _ /\ _ => split; concrete
  | |- _ => vm_compute; first [reflexivity | discriminate]
  end.

(** Mondays only; run on Monday 1970-01-05 at 08:00 with three full-day tasks. *)
Definition mondaySettings : Settings := mkSettings 9 17 [1] 15.

Definition mondayNow : Z := 4 * DAY + 8 * HOUR.

Definition mondayCalendar : Calendar :=
  mkCalendar [mkT 1 5 480 0; mkT 2 5 480 0; mkT 3 5 480 0] [] mondaySettings.

(** A 600 minute task: longer than any working day of 09:00-17:00. *)
Definition longTaskCalendar : Calendar :=
  mkCalendar [mkT 1 5 30 0; mkT 2 9 600 0] [] defaultSettings.

(** A task whose deadline, Monday 1970-01-05, has passed when the pass
    runs on Tuesday. *)
Definition lateTask : Task := mkT 1 5 30 (tuesday - DAY).

Definition lateCalendar : Calendar := mkCalendar [lateTask] [] defaultSettings.

(** The second class on Friday 2024-01-05. *)
Module SampleImport.
Import Strings.String Strings.Ascii.
Local Open Scope string_scope.

(** Friday 2024-01-05, 00:00 UTC. *)
Definition friday : Z := 1704412800000.

(** A one-hour task scheduled by an earlier pass at 08:00. *)
Definition reportTask : ICal.Task1 :=
  ICal.mkTask1 7 "Report" 1 60 (friday + 5 * DAY) true
    (Some (friday + 8 * HOUR)) (Some (friday + 9 * HOUR)).

(** A lunch and the task event of the earlier pass. *)
Definition fridayEvents : list ICal.Event1 :=
  [ICal.mkEvent1 "Lunch" (Some (friday + 12 * HOUR)) (Some (friday + 13 * HOUR))
     true false false None;
   ICal.mkEvent1 "Report" (Some (friday + 8 * HOUR)) (Some (friday + 9 * HOUR))
     false false true (Some 7)].

(** A calendar with a meeting on Friday 09:00-10:00, its summary folded. *)
Definition teamCalendar : string :=
  ICalWrite.ical_text
    [ICalWrite.mkEntry "Team " [" sync"] "20240105T090000Z" "20240105T100000Z"].

Definition lunch : ICal.Event1 :=
  ICal.mkEvent1 "Lunch" (Some (friday + 12 * HOUR)) (Some (friday + 13 * HOUR))
    true false false None.

Definition teamSync : ICal.Event1 :=
  ICal.mkEvent1 "Teamsync" (Some (friday + 9 * HOUR)) (Some (friday + 10 * HOUR))
    true true false None.

Definition reportEvent : ICal.Event1 :=
  ICal.mkEvent1 "Report" (Some (friday + 10 * HOUR)) (Some (friday + 11 * HOUR))
    false false true (Some 7).

Definition reportRescheduled : ICal.Task1 :=
  ICal.mkTask1 7 "Report" 1 60 (friday + 5 * DAY) true
    (Some (friday + 10 * HOUR)) (Some (friday + 11 * HOUR)).

End SampleImport.

Example getDay_tuesday : getDay tuesday = 2.
Proof. reflexivity. Qed.

(** The concrete scenario of the specification: a fixed event Tuesday
    10:00-11:00 leaves the gaps 09:00-10:00 and 11:00-17:00, and a 30 minute
    task goes to 09:00-09:30. *)
Example scenario_gaps :
  getAvailableSlots defaultSettings tuesday (tuesday + 1)
    [mkEvent (tuesday + 10 * HOUR) (tuesday + 11 * HOUR) true false false None]
  = [mkSlot (tuesday + 9 * HOUR) (tuesday + 10 * HOUR);
     mkSlot (tuesday + 11 * HOUR) (tuesday + 17 * HOUR)].
Proof. vm_compute. reflexivity. Qed.

(** ** Lemmas on the slot scan *)

Lemma scan_None_iff (mb : Z) (t : Task) (G : list Slot) :
  scan mb t G = None <-> forall s, In s G -> fits (totalDuration t) s = false.
Proof.
  induction G as [|s G IH]; simpl.
  - split; [intros _ s []|reflexivity].
  - destruct (fits (totalDuration t) s) eqn:Hf.
    + destruct (place_in_slot t (slot_start s)) as [[[evs a] b] cur].
      split; [discriminate|]. intros H. rewrite (H s (or_introl eq_refl)) in Hf.
      discriminate.
    + destruct (scan mb t G) as [[[[evs a] b] G']|] eqn:Hs.
      * split; [discriminate|]. intros H.
        discriminate (proj2 IH (fun s' Hs' => H s' (or_intror Hs'))).
      * split; [|reflexivity]. intros _ s' [<-|Hin]; [exact Hf|].
        apply (proj1 IH eq_refl); exact Hin.
Qed.

Lemma scan_Some_inv (mb : Z) (t : Task) (G : list Slot) evs a b G' :
  scan mb t G = Some (evs, a, b, G') ->
  exists i s cur,
    nth_error G i = Some s /\
    fits (totalDuration t) s = true /\
    (forall j s', (j < i)%nat -> nth_error G j = Some s' ->
                  fits (totalDuration t) s' = false) /\
    place_in_slot t (slot_start s) = (evs, a, b, cur) /\
    G' = firstn i G ++ mkSlot (cur + mb * MINUTE) (slot_end s) :: skipn (S i) G.
Proof.
  revert G'. induction G as [|s G IH]; intros G' H; simpl in H; [discriminate|].
  destruct (fits (totalDuration t) s) eqn:Hf.
  - destruct (place_in_slot t (slot_start s)) as [[[evs0 a0] b0] cur] eqn:Hp.
    injection H as <- <- <- <-.
    exists O, s, cur. repeat split; auto.
    intros j s' Hj. lia.
  - destruct (scan mb t G) as [[[[evs0 a0] b0] G0]|] eqn:Hs; [|discriminate].
    injection H as <- <- <- <-.
    destruct (IH G0 eq_refl) as (i & s1 & cur & Hn & Hf1 & Hbefore & Hp & ->).
    exists (S i), s1, cur. repeat split; auto.
    intros [|j] s' Hj Hn'; simpl in Hn'.
    + injection Hn' as <-. exact Hf.
    + apply (Hbefore j); auto. lia.
Qed.

(** The layout produced inside the chosen slot. *)
Lemma place_in_slot_eq (t : Task) (s0 : Z) :
  0 <= commuteToDuration t ->
  let a := s0 + commuteToDuration t * MINUTE in
  let b := a + duration t * MINUTE in
  place_in_slot t s0 =
    ((if 0 <? commuteToDuration t then [commuteEvent s0 a] else [])
       ++ [taskEvent t a b]
       ++ (if 0 <? commuteFromDuration t
           then [commuteEvent b (b + commuteFromDuration t * MINUTE)] else []),
     a, b,
     if 0 <? commuteFromDuration t then b + commuteFromDuration t * MINUTE else b).
Proof.
  intros Hct. cbv zeta. unfold place_in_slot.
  destruct (0 <? commuteToDuration t) eqn:Ht.
  - destruct (0 <? commuteFromDuration t); reflexivity.
  - assert (Hz : commuteToDuration t = 0) by (apply Z.ltb_ge in Ht; lia).
    rewrite Hz, Z.mul_0_l, Z.add_0_r.
    destruct (0 <? commuteFromDuration t); reflexivity.
Qed.

(** The end of the last placed piece, without any sign assumption. *)
Lemma place_in_slot_cursor (t : Task) (s0 : Z) evs a b cur :
  place_in_slot t s0 = (evs, a, b, cur) ->
  b = a + duration t * MINUTE /\
  cur = (if 0 <? commuteFromDuration t then b + commuteFromDuration t * MINUTE else b).
Proof.
  unfold place_in_slot.
  destruct (0 <? commuteToDuration t); destruct (0 <? commuteFromDuration t);
    intros H; injection H as _ <- <- <-; auto.
Qed.

Lemma replaced_length {A : Type} (i : nat) (x : A) (l : list A) (y : A) :
  nth_error l i = Some y ->
  length (firstn i l ++ x :: skipn (S i) l) = length l.
Proof.
  intros H. assert (Hi : (i < length l)%nat) by (apply nth_error_Some; congruence).
  rewrite length_app, length_firstn. cbn [length]. rewrite length_skipn. lia.
Qed.

(** ** Claims about one placement *)

(** C1: a task needs [totalDuration = duration + commuteToDuration +
    commuteFromDuration] minutes and goes into the first slot, in list order,
    whose length in minutes is at least [totalDuration]; no earlier slot is
    long enough.  Inside it the commute-to leg starts at the slot start, the
    task right after it and the commute-from leg right after the task.  When
    no slot is long enough, none is chosen. *)
Theorem first_fit_placement (mb : Z) (t : Task) (G : list Slot) :
  0 <= commuteToDuration t ->
  match scan mb t G with
  | None => forall s, In s G -> fits (totalDuration t) s = false
  | Some (evs, a, b, _) =>
      exists i s,
        nth_error G i = Some s /\
        totalDuration t * MINUTE <= slot_end s - slot_start s /\
        (forall j s', (j < i)%nat -> nth_error G j = Some s' ->
                      slot_end s' - slot_start s' < totalDuration t * MINUTE) /\
        a = slot_start s + commuteToDuration t * MINUTE /\
        b = a + duration t * MINUTE /\
        evs = (if 0 <? commuteToDuration t then [commuteEvent (slot_start s) a] else [])
              ++ [taskEvent t a b]
              ++ (if 0 <? commuteFromDuration t
                  then [commuteEvent b (b + commuteFromDuration t * MINUTE)] else [])
  end.
Proof.
  intros Hct.
  destruct (scan mb t G) as [[[[evs a] b] G']|] eqn:Hs.
  - destruct (scan_Some_inv mb t G evs a b G' Hs)
      as (i & s & cur & Hn & Hf & Hb & Hp & _).
    rewrite (place_in_slot_eq t (slot_start s) Hct) in Hp.
    injection Hp as Hevs Ha Hb' _.
    exists i, s. unfold fits in Hf. apply Z.leb_le in Hf.
    split; [exact Hn|]. split; [exact Hf|]. split.
    + intros j s' Hj Hn'. specialize (Hb j s' Hj Hn'). unfold fits in Hb.
      apply Z.leb_gt in Hb. exact Hb.
    + subst a b evs. repeat split; reflexivity.
  - apply (proj1 (scan_None_iff mb t G)). exact Hs.
Qed.

Lemma first_fit_placement_witness :
  0 <= commuteToDuration sampleTask /\
  exists i s, nth_error sampleSlots i = Some s /\
              totalDuration sampleTask * MINUTE <= slot_end s - slot_start s.
Proof.
  assert (H0 : 0 <= commuteToDuration sampleTask) by (vm_compute; discriminate).
  split; [exact H0|].
  pose proof (first_fit_placement 15 sampleTask sampleSlots H0) as H.
  destruct (scan 15 sampleTask sampleSlots) as [[[[evs a] b] G']|] eqn:Hs.
  - destruct H as (i & s & Hn & Hf & _). exists i, s. split; assumption.
  - vm_compute in Hs. discriminate.
Defined.

(** C6: placing a task changes the slot list in exactly one place, the
    selected slot: the first slot, in list order, long enough for
    [totalDuration], the one the task is placed in.  Its start becomes the
    end of the last placed piece (the commute-from leg, or the task itself
    when there is none) plus [minBreakBetweenTasks] minutes.  Its end is
    kept, the slot stays in the list whatever its remaining length, and all
    other slots are unchanged. *)
Theorem placement_gap_update (mb : Z) (t : Task) (G : list Slot) evs a b G' :
  scan mb t G = Some (evs, a, b, G') ->
  exists i s,
    nth_error G i = Some s /\
    totalDuration t * MINUTE <= slot_end s - slot_start s /\
    (forall j s', (j < i)%nat -> nth_error G j = Some s' ->
                  slot_end s' - slot_start s' < totalDuration t * MINUTE) /\
    a = slot_start s + (if 0 <? commuteToDuration t then commuteToDuration t * MINUTE else 0) /\
    b = a + duration t * MINUTE /\
    G' = firstn i G
         ++ mkSlot ((if 0 <? commuteFromDuration t
                     then b + commuteFromDuration t * MINUTE else b) + mb * MINUTE)
                   (slot_end s)
         :: skipn (S i) G /\
    length G' = length G.
Proof.
  intros Hs.
  destruct (scan_Some_inv mb t G evs a b G' Hs)
    as (i & s & cur & Hn & Hf & Hbefore & Hp & HG').
  destruct (place_in_slot_cursor t (slot_start s) evs a b cur Hp) as [Hb Hcur].
  exists i, s. split; [exact Hn|].
  split; [unfold fits in Hf; apply Z.leb_le in Hf; exact Hf|].
  split.
  { intros j s' Hj Hn'. specialize (Hbefore j s' Hj Hn'). unfold fits in Hbefore.
    apply Z.leb_gt in Hbefore. exact Hbefore. }
  split.
  { unfold place_in_slot in Hp.
    destruct (0 <? commuteToDuration t); destruct (0 <? commuteFromDuration t);
      injection Hp as _ <- _ _; lia. }
  split; [exact Hb|].
  rewrite <- Hcur. split; [exact HG'|].
  rewrite HG'. apply (replaced_length i _ G s Hn).
Qed.

Lemma placement_gap_update_witness :
  exists evs a b G', scan 15 sampleTask sampleSlots = Some (evs, a, b, G') /\
    length G' = length sampleSlots.
Proof.
  destruct (scan 15 sampleTask sampleSlots) as [[[[evs a] b] G']|] eqn:Hs.
  - exists evs, a, b, G'. split; [reflexivity|].
    destruct (placement_gap_update 15 sampleTask sampleSlots evs a b G' Hs)
      as (i & s & _ & _ & _ & _ & _ & _ & Hl). exact Hl.
  - vm_compute in Hs. discriminate.
Defined.

(** ** The length filter of getAvailableSlots *)

(** C5: a slot is returned exactly when it was emitted by the day sweep and
    is at least [minBreakBetweenTasks + 15] minutes long; shorter emitted
    slots are dropped. *)
Theorem available_slots_min_length (st : Settings) (startDate endDate : Z)
    (evs : list Event) (s : Slot) :
  In s (getAvailableSlots st startDate endDate evs) <->
  In s (emitted_slots st startDate endDate evs) /\
  (minBreakBetweenTasks st + 15) * MINUTE <= slot_end s - slot_start s.
Proof.
  unfold getAvailableSlots. rewrite filter_In. unfold long_enough.
  rewrite Z.leb_le. reflexivity.
Qed.

(** ** The task queue *)

Section QueueOrder.

Let R := queue_before.

Lemma R_trans a b c : R a b -> R b c -> R a c.
Proof. unfold R, queue_before. lia. Qed.

Lemma queueCmp_le a b :
  (fst a < fst b)%nat -> queueCmp a b <= 0 -> R a b.
Proof.
  unfold queueCmp, taskCmp, R, queue_before.
  destruct (priority (snd a) =? priority (snd b)) eqn:E; simpl;
    [apply Z.eqb_eq in E | apply Z.eqb_neq in E]; lia.
Qed.

Lemma queueCmp_gt a b : 0 < queueCmp a b -> R b a.
Proof.
  unfold queueCmp, taskCmp, R, queue_before.
  destruct (priority (snd a) =? priority (snd b)) eqn:E; simpl;
    [apply Z.eqb_eq in E | apply Z.eqb_neq in E]; lia.
Qed.

Lemma insert_cmp_perm {A : Type} (cmp : A -> A -> Z) x l :
  Permutation (insert_cmp cmp x l) (x :: l).
Proof.
  induction l as [|y l IH]; simpl; [reflexivity|].
  destruct (cmp x y <=? 0); [reflexivity|].
  rewrite IH. apply perm_swap.
Qed.

Lemma sort_cmp_perm {A : Type} (cmp : A -> A -> Z) l :
  Permutation (sort_cmp cmp l) l.
Proof.
  induction l as [|x l IH]; simpl; [reflexivity|].
  rewrite insert_cmp_perm. auto.
Qed.

Lemma insert_sorted x l :
  StronglySorted R l -> (forall y, In y l -> (fst x < fst y)%nat) ->
  StronglySorted R (insert_cmp queueCmp x l).
Proof.
  induction l as [|y l IH]; intros Hs Hx; simpl.
  - repeat constructor.
  - apply StronglySorted_inv in Hs as [Hs Hy].
    destruct (queueCmp x y <=? 0) eqn:E.
    + apply Z.leb_le in E.
      assert (Rxy : R x y) by (apply queueCmp_le; [apply Hx; left|]; auto).
      constructor; [constructor; assumption|].
      constructor; [exact Rxy|].
      rewrite Forall_forall in Hy |- *. intros z Hz. eauto using R_trans.
    + apply Z.leb_gt in E.
      constructor.
      * apply IH; [exact Hs|]. intros z Hz. apply Hx. right. exact Hz.
      * apply Forall_forall. intros z Hz.
        apply (Permutation_in _ (insert_cmp_perm queueCmp x l)) in Hz.
        destruct Hz as [<-|Hz].
        -- apply queueCmp_gt. exact E.
        -- rewrite Forall_forall in Hy. auto.
Qed.

Lemma sort_sorted l :
  StronglySorted (fun a b => (fst a < fst b)%nat) l ->
  StronglySorted R (sort_cmp queueCmp l).
Proof.
  induction l as [|x l IH]; intros Hs; simpl; [constructor|].
  apply StronglySorted_inv in Hs as [Hs Hx].
  apply insert_sorted; [auto|].
  intros y Hy. apply (Permutation_in _ (sort_cmp_perm queueCmp l)) in Hy.
  rewrite Forall_forall in Hx. auto.
Qed.

Lemma combine_seq_sorted (ts : list Task) (n : nat) :
  StronglySorted (fun a b => (fst a < fst b)%nat) (combine (seq n (length ts)) ts).
Proof.
  revert n. induction ts as [|t ts IH]; intros n; simpl; constructor; [apply IH|].
  apply Forall_forall. intros [i u] Hin. simpl.
  apply in_combine_l, in_seq in Hin. lia.
Qed.

Lemma sorted_middle {A : Type} (P : A -> A -> Prop) l1 x l2 y l3 :
  StronglySorted P (l1 ++ x :: l2 ++ y :: l3) -> P x y.
Proof.
  induction l1 as [|z l1 IH]; simpl; intros Hs.
  - apply StronglySorted_inv in Hs as [_ Hx]. rewrite Forall_forall in Hx.
    apply Hx, in_or_app. right. left. reflexivity.
  - apply StronglySorted_inv in Hs as [Hs _]. auto.
Qed.

Lemma taskQueue_sorted (ts : list Task) : StronglySorted R (taskQueue ts).
Proof. apply sort_sorted, combine_seq_sorted. Qed.

End QueueOrder.

(** C2: the queue is a reordering of [this.tasks] (each entry paired with its
    position) in which an entry comes after another only if it does not have
    a strictly higher priority, nor the same priority and a strictly
    earlier deadline; entries with the same priority and deadline keep the
    order of [this.tasks].  [run_queue] attempts entries in queue order. *)
Theorem task_queue_order (ts : list Task) :
  Permutation (taskQueue ts) (combine (seq 0 (length ts)) ts) /\
  forall l1 l2 l3 x y,
    taskQueue ts = l1 ++ x :: l2 ++ y :: l3 ->
    ~ (priority (snd y) > priority (snd x)
       \/ (priority (snd y) = priority (snd x) /\ deadline (snd y) < deadline (snd x))) /\
    (priority (snd x) = priority (snd y) -> deadline (snd x) = deadline (snd y) ->
     (fst x < fst y)%nat).
Proof.
  split; [apply sort_cmp_perm|].
  intros l1 l2 l3 x y Hq.
  pose proof (taskQueue_sorted ts) as Hs. rewrite Hq in Hs.
  apply sorted_middle in Hs. unfold queue_before in Hs. lia.
Qed.

(** ** Geometry of the day sweep *)

Lemma StronglySorted_app {A : Type} (P : A -> A -> Prop) l1 l2 :
  StronglySorted P l1 -> StronglySorted P l2 ->
  (forall a b, In a l1 -> In b l2 -> P a b) ->
  StronglySorted P (l1 ++ l2).
Proof.
  induction l1 as [|x l1 IH]; simpl; intros H1 H2 H; [exact H2|].
  apply StronglySorted_inv in H1 as [H1 Hx].
  constructor; [apply IH; auto|].
  apply Forall_app. split; [exact Hx|].
  apply Forall_forall. intros b Hb. apply H; auto.
Qed.

Lemma StronglySorted_filter {A : Type} (P : A -> A -> Prop) (f : A -> bool) l :
  StronglySorted P l -> StronglySorted P (filter f l).
Proof.
  induction l as [|x l IH]; simpl; intros Hs; [constructor|].
  apply StronglySorted_inv in Hs as [Hs Hx].
  destruct (f x); [|auto].
  constructor; [auto|]. rewrite Forall_forall in Hx |- *.
  intros y Hy. apply filter_In in Hy. apply Hx, Hy.
Qed.

Lemma sweep_ptr_le (ptr : Z) (dayEvents : list Event) :
  ptr <= snd (sweep ptr dayEvents).
Proof.
  revert ptr. induction dayEvents as [|e es IH]; intros ptr; simpl; [lia|].
  specialize (IH (Z.max ptr (ev_end e))).
  destruct (sweep (Z.max ptr (ev_end e)) es) as [rest p]. simpl in *. lia.
Qed.

(** Shape of the sweep: every emitted slot is non-empty, lies between the
    initial and the final pointer, ends at the start of a swept event, and
    the slots come in order. *)
Lemma sweep_shape (ptr : Z) (dayEvents : list Event) :
  Forall (fun e => ev_start e <= ev_end e) dayEvents ->
  let '(gs, p) := sweep ptr dayEvents in
  Forall (fun g => ptr <= slot_start g < slot_end g /\ slot_end g <= p /\
                   exists e, In e dayEvents /\ slot_end g = ev_start e) gs /\
  StronglySorted slot_precedes gs.
Proof.
  revert ptr. induction dayEvents as [|e es IH]; intros ptr0 Hwf; simpl.
  - repeat constructor.
  - apply Forall_cons_iff in Hwf as [He Hwf].
    pose proof (sweep_ptr_le (Z.max ptr0 (ev_end e)) es) as Hp.
    specialize (IH (Z.max ptr0 (ev_end e)) Hwf).
    destruct (sweep (Z.max ptr0 (ev_end e)) es) as [rest p]. simpl in Hp.
    destruct IH as (Hrest & Hsorted).
    assert (Hrest' : Forall (fun g => ptr0 <= slot_start g < slot_end g /\ slot_end g <= p /\
                 exists e', In e' (e :: es) /\ slot_end g = ev_start e') rest).
    { eapply Forall_impl; [|exact Hrest]. simpl.
      intros g (Hg1 & Hg2 & e' & Hin & Heq). repeat split; try lia.
      exists e'. split; [right|]; assumption. }
    destruct (ptr0 <? ev_start e) eqn:Hlt; simpl.
    + apply Z.ltb_lt in Hlt. split.
      * constructor; [|exact Hrest']. simpl. repeat split; try lia.
        exists e. split; [left|]; reflexivity.
      * constructor; [exact Hsorted|]. eapply Forall_impl; [|exact Hrest].
        unfold slot_precedes. simpl. intros g Hg. lia.
    + split; assumption.
Qed.

(** Every point between the initial and the final pointer is in an emitted
    slot or in one of the swept events. *)
Lemma sweep_covers (ptr : Z) (dayEvents : list Event) :
  let '(gs, p) := sweep ptr dayEvents in
  forall t, ptr <= t < p ->
    (exists g, In g gs /\ in_slot g t) \/ (exists e, In e dayEvents /\ in_event e t).
Proof.
  revert ptr. induction dayEvents as [|e es IH]; intros ptr0; simpl.
  - intros t Ht. lia.
  - specialize (IH (Z.max ptr0 (ev_end e))).
    destruct (sweep (Z.max ptr0 (ev_end e)) es) as [rest p].
    intros t Ht.
    destruct (Z_lt_le_dec t (Z.max ptr0 (ev_end e))) as [Hlo|Hhi].
    + destruct (Z_lt_le_dec t (ev_start e)) as [Hs|Hs].
      * left. exists (mkSlot ptr0 (ev_start e)).
        assert (Hlt : (ptr0 <? ev_start e) = true) by (apply Z.ltb_lt; lia).
        rewrite Hlt. split; [left; reflexivity|]. unfold in_slot. simpl. lia.
      * right. exists e. split; [left; reflexivity|]. unfold in_event. lia.
    + destruct (IH t (conj Hhi (proj2 Ht))) as [(g & Hg & Hin)|(e' & He' & Hin)].
      * left. exists g. split; [apply in_or_app; right; exact Hg|exact Hin].
      * right. exists e'. split; [right; exact He'|exact Hin].
Qed.

(** With the events sorted by start, every emitted slot avoids every swept
    event, and the final pointer is past every event's end. *)
Lemma sweep_disjoint (ptr : Z) (dayEvents : list Event) :
  StronglySorted (fun a b => ev_start a <= ev_start b) dayEvents ->
  let '(gs, p) := sweep ptr dayEvents in
  (forall e, In e dayEvents -> ev_end e <= p) /\
  (forall g, In g gs -> ptr <= slot_start g) /\
  (forall g e t, In g gs -> In e dayEvents -> in_slot g t -> ~ in_event e t).
Proof.
  revert ptr. induction dayEvents as [|e es IH]; intros ptr0 Hs; simpl.
  - split; [intros e []|]. split; intros g; [intros []|intros e t []].
  - apply StronglySorted_inv in Hs as [Hs He]. rewrite Forall_forall in He.
    pose proof (sweep_ptr_le (Z.max ptr0 (ev_end e)) es) as Hp.
    specialize (IH (Z.max ptr0 (ev_end e)) Hs).
    destruct (sweep (Z.max ptr0 (ev_end e)) es) as [rest p]. simpl in Hp.
    destruct IH as (Hend & Hstart & Hdis).
    split; [|split].
    + intros e' [<-|He']; [lia|auto].
    + intros g Hg. apply in_app_or in Hg as [Hg|Hg].
      * destruct (ptr0 <? ev_start e); [destruct Hg as [<-|[]]; simpl; lia|destruct Hg].
      * specialize (Hstart g Hg). lia.
    + unfold in_slot, in_event. intros g e' t Hg He' Ht.
      apply in_app_or in Hg as [Hg|Hg].
      * destruct (ptr0 <? ev_start e); [|destruct Hg].
        destruct Hg as [<-|[]]. simpl in Ht.
        destruct He' as [<-|He']; [lia|]. specialize (He e' He'). lia.
      * destruct He' as [<-|He'].
        -- specialize (Hstart g Hg). lia.
        -- apply (Hdis g e' t Hg He' Ht).
Qed.

Section SortByStart.
Context {A : Type} (cmp : A -> A -> Z) (le : A -> A -> Prop).
Hypothesis le_trans : forall a b c, le a b -> le b c -> le a c.
Hypothesis cmp_le : forall a b, cmp a b <= 0 -> le a b.
Hypothesis cmp_gt : forall a b, 0 < cmp a b -> le b a.

Lemma insert_cmp_sorted x l :
  StronglySorted le l -> StronglySorted le (insert_cmp cmp x l).
Proof.
  induction l as [|y l IH]; intros Hs; simpl; [repeat constructor|].
  apply StronglySorted_inv in Hs as [Hs Hy].
  destruct (cmp x y <=? 0) eqn:E.
  - apply Z.leb_le, cmp_le in E.
    constructor; [constructor; assumption|]. constructor; [exact E|].
    rewrite Forall_forall in Hy |- *. eauto.
  - apply Z.leb_gt, cmp_gt in E.
    constructor; [auto|]. apply Forall_forall. intros z Hz.
    apply (Permutation_in _ (insert_cmp_perm cmp x l)) in Hz.
    destruct Hz as [<-|Hz]; [exact E|]. rewrite Forall_forall in Hy. auto.
Qed.

Lemma sort_cmp_sorted l : StronglySorted le (sort_cmp cmp l).
Proof.
  induction l as [|x l IH]; simpl; [constructor|]. apply insert_cmp_sorted, IH.
Qed.
End SortByStart.

Lemma dayEvents_sorted (l : list Event) :
  StronglySorted (fun a b => ev_start a <= ev_start b) (sort_cmp eventCmp l).
Proof.
  apply sort_cmp_sorted; unfold eventCmp; intros; lia.
Qed.

Lemma effectiveStart_ge (st : Settings) (startDate cur : Z) :
  startDate <= effectiveStart_of st startDate cur /\
  dayStart_of st cur <= effectiveStart_of st startDate cur.
Proof.
  unfold effectiveStart_of. destruct (dayStart_of st cur <? startDate) eqn:E;
    [apply Z.ltb_lt in E | apply Z.ltb_ge in E]; lia.
Qed.

(** The slots of one day: non-empty, between [effectiveStart] and [dayEnd]
    of a working day, clear of every fixed event, and in order. *)
Lemma day_slots_shape (st : Settings) (startDate : Z) (fixedEvents : list Event) (cur : Z) :
  Forall (fun e => ev_start e <= ev_end e) fixedEvents ->
  (forall g, In g (day_slots st startDate fixedEvents cur) ->
     isWorkDay st cur = true /\
     effectiveStart_of st startDate cur <= slot_start g /\
     slot_start g < slot_end g /\ slot_end g <= dayEnd_of st cur /\
     forall e t, In e fixedEvents -> in_slot g t -> ~ in_event e t) /\
  StronglySorted slot_precedes (day_slots st startDate fixedEvents cur).
Proof.
  intros Hwf. unfold day_slots. cbv zeta.
  destruct (isWorkDay st cur) eqn:Hwork; [|split; [intros g []|constructor]].
  set (dayEnd := dayEnd_of st cur). set (eff := effectiveStart_of st startDate cur).
  destruct (eff <? dayEnd) eqn:Hlt; [|split; [intros g []|constructor]].
  apply Z.ltb_lt in Hlt.
  set (keep := fun e => (ev_start e <? dayEnd) && (eff <? ev_end e)).
  set (dayEvents := sort_cmp eventCmp (filter keep fixedEvents)).
  assert (Hin : forall e, In e dayEvents <-> In e fixedEvents /\ keep e = true).
  { intros e. rewrite <- filter_In. split; apply Permutation_in;
      [|symmetry]; apply sort_cmp_perm. }
  assert (Hwf' : Forall (fun e => ev_start e <= ev_end e) dayEvents).
  { rewrite Forall_forall in Hwf |- *. intros e He. apply Hwf, Hin, He. }
  pose proof (sweep_shape eff dayEvents Hwf') as Hsh.
  pose proof (sweep_disjoint eff dayEvents (dayEvents_sorted _)) as Hdis.
  pose proof (sweep_ptr_le eff dayEvents) as Hp.
  destruct (sweep eff dayEvents) as [gs p]. simpl in Hp.
  destruct Hsh as [Hgs Hsorted]. destruct Hdis as (Hend & Hst & Hdis).
  rewrite Forall_forall in Hgs.
  (* the slots lie in [eff, dayEnd) *)
  assert (Hbounds : forall g, In g (gs ++ (if p <? dayEnd then [mkSlot p dayEnd] else [])) ->
            eff <= slot_start g /\ slot_start g < slot_end g /\ slot_end g <= dayEnd).
  { intros g Hg. apply in_app_or in Hg as [Hg|Hg].
    - destruct (Hgs g Hg) as (H1 & H2 & e & He & He').
      apply Hin in He as [_ Hk]. unfold keep in Hk.
      apply andb_true_iff in Hk as [Hk _]. apply Z.ltb_lt in Hk. lia.
    - destruct (p <? dayEnd) eqn:Hpd; [|destruct Hg].
      apply Z.ltb_lt in Hpd. destruct Hg as [<-|[]]. simpl. lia. }
  split.
  - intros g Hg. destruct (Hbounds g Hg) as (H1 & H2 & H3).
    split; [reflexivity|]. repeat split; try assumption.
    intros e t He Ht Hte.
    destruct (keep e) eqn:Hk.
    + assert (He' : In e dayEvents) by (apply Hin; split; assumption).
      apply in_app_or in Hg as [Hg|Hg].
      * exact (Hdis g e t Hg He' Ht Hte).
      * destruct (p <? dayEnd); [|destruct Hg].
        destruct Hg as [<-|[]]. specialize (Hend e He').
        unfold in_slot, in_event in *. simpl in Ht. lia.
    + unfold keep in Hk. apply andb_false_iff in Hk.
      unfold in_slot, in_event in *.
      destruct Hk as [Hk|Hk]; apply Z.ltb_ge in Hk; lia.
  - apply StronglySorted_app; [exact Hsorted| |].
    + destruct (p <? dayEnd); repeat constructor.
    + intros a b Ha Hb. destruct (p <? dayEnd); [|destruct Hb].
      destruct Hb as [<-|[]]. destruct (Hgs a Ha) as (_ & H2 & _).
      unfold slot_precedes. simpl. lia.
Qed.

Section Loop.
Variable st : Settings.
Variables startDate endDate : Z.
Variable fixedEvents : list Event.
Hypothesis Hws : 0 <= workingHours_start st.
Hypothesis Hwe : workingHours_end st <= 24.
Hypothesis Hwf : Forall (fun e => ev_start e <= ev_end e) fixedEvents.

Lemma days_loop_shape (fuel : nat) (cur : Z) :
  (forall g, In g (days_loop st startDate endDate fixedEvents fuel cur) ->
     cur <= slot_start g /\
     (exists k : nat,
        let c := cur + Z.of_nat k * DAY in
        c < endDate /\ isWorkDay st c = true /\
        effectiveStart_of st startDate c <= slot_start g /\
        slot_start g < slot_end g /\ slot_end g <= dayEnd_of st c) /\
     (forall e t, In e fixedEvents -> in_slot g t -> ~ in_event e t)) /\
  StronglySorted slot_precedes (days_loop st startDate endDate fixedEvents fuel cur).
Proof.
  revert cur. induction fuel as [|f IH]; intros cur; simpl; [split; [intros g []|constructor]|].
  destruct (cur <? endDate) eqn:Hc; [|split; [intros g []|constructor]].
  apply Z.ltb_lt in Hc.
  destruct (day_slots_shape st startDate fixedEvents cur Hwf) as [Hday Hsd].
  destruct (IH (cur + DAY)) as [Hrest Hsr].
  assert (Hds : dayStart_of st cur = cur + workingHours_start st * HOUR) by reflexivity.
  assert (Hde : dayEnd_of st cur = cur + workingHours_end st * HOUR) by reflexivity.
  split.
  - intros g Hg. apply in_app_or in Hg as [Hg|Hg].
    + destruct (Hday g Hg) as (Hw & H1 & H2 & H3 & Hdis).
      pose proof (effectiveStart_ge st startDate cur) as [_ He].
      split; [unfold HOUR in *; nia|]. split; [|exact Hdis].
      exists O. simpl. rewrite Z.add_0_r. repeat split; assumption.
    + destruct (Hrest g Hg) as (H1 & (k & Hk) & Hdis).
      split; [unfold DAY in *; lia|]. split; [|exact Hdis].
      exists (S k). rewrite Nat2Z.inj_succ.
      replace (cur + Z.succ (Z.of_nat k) * DAY) with (cur + DAY + Z.of_nat k * DAY) by lia.
      exact Hk.
  - apply StronglySorted_app; [exact Hsd|exact Hsr|].
    intros a b Ha Hb. destruct (Hday a Ha) as (_ & _ & _ & Ha3 & _).
    destruct (Hrest b Hb) as (Hb1 & _).
    unfold slot_precedes. unfold DAY, HOUR in *. lia.
Qed.
End Loop.

(** Every slot pushed by [getAvailableSlots] (before its length filter) lies
    in the working hours of a visited working day and avoids every fixed
    event; the slots come in order. *)
Lemma emitted_slots_shape (st : Settings) (startDate endDate : Z) (evs : list Event) :
  0 <= workingHours_start st -> workingHours_end st <= 24 ->
  Forall (fun e => ev_start e <= ev_end e) evs ->
  (forall g, In g (emitted_slots st startDate endDate evs) ->
     slot_on_day st startDate endDate g /\
     forall e t, In e evs -> isFixed e = true -> in_slot g t -> ~ in_event e t) /\
  StronglySorted slot_precedes (emitted_slots st startDate endDate evs).
Proof.
  intros Hws Hwe Hwf.
  assert (Hwf' : Forall (fun e => ev_start e <= ev_end e) (filter isFixed evs)).
  { rewrite Forall_forall in Hwf |- *. intros e He. apply filter_In in He. apply Hwf, He. }
  destruct (days_loop_shape st startDate endDate (filter isFixed evs) Hws Hwe Hwf'
              (day_fuel startDate endDate) (midnight startDate)) as [Hg Hs].
  split; [|exact Hs].
  intros g Hin. destruct (Hg g Hin) as (_ & Hk & Hdis).
  split; [exact Hk|]. intros e t He Hf. apply Hdis. apply filter_In. auto.
Qed.

(** C4: for any events that are well formed ([start <= end]), overlapping
    or duplicated ones included, and working hours within the day, the
    returned slots are non-empty, in chronological order and pairwise
    non-overlapping: each ends no later than the next one starts. *)
Theorem available_slots_ordered (st : Settings) (startDate endDate : Z) (evs : list Event) :
  0 <= workingHours_start st -> workingHours_end st <= 24 ->
  Forall (fun e => ev_start e <= ev_end e) evs ->
  Forall (fun g => slot_start g < slot_end g) (getAvailableSlots st startDate endDate evs) /\
  StronglySorted slot_precedes (getAvailableSlots st startDate endDate evs).
Proof.
  intros Hws Hwe Hwf.
  destruct (emitted_slots_shape st startDate endDate evs Hws Hwe Hwf) as [Hg Hs].
  split.
  - apply Forall_forall. intros g Hin. unfold getAvailableSlots in Hin.
    apply filter_In in Hin as [Hin _]. destruct (Hg g Hin) as [(k & Hk) _].
    simpl in Hk. tauto.
  - apply StronglySorted_filter, Hs.
Qed.

Example overlap_slots :
  getAvailableSlots defaultSettings tuesday (tuesday + DAY) overlapEvents
  = [mkSlot (tuesday + 12 * HOUR + 30 * MINUTE) (tuesday + 17 * HOUR)].
Proof. vm_compute. reflexivity. Qed.

Lemma available_slots_ordered_witness :
  Forall (fun g => slot_start g < slot_end g)
    (getAvailableSlots defaultSettings tuesday (tuesday + DAY) overlapEvents) /\
  StronglySorted slot_precedes
    (getAvailableSlots defaultSettings tuesday (tuesday + DAY) overlapEvents).
Proof.
  apply available_slots_ordered.
  - vm_compute. discriminate.
  - vm_compute. discriminate.
  - repeat constructor; vm_compute; discriminate.
Defined.

(** ** Coverage of one working day *)

Lemma days_loop_visits (st : Settings) (startDate endDate : Z) (fixedEvents : list Event)
    (k fuel : nat) (cur : Z) :
  (k < fuel)%nat -> cur + Z.of_nat k * DAY < endDate ->
  forall g, In g (day_slots st startDate fixedEvents (cur + Z.of_nat k * DAY)) ->
  In g (days_loop st startDate endDate fixedEvents fuel cur).
Proof.
  revert fuel cur. induction k as [|k IH]; intros [|f] cur Hk Hc g Hg; try lia; simpl.
  - rewrite Z.add_0_r in *. apply Z.ltb_lt in Hc. rewrite Hc.
    apply in_or_app. left. exact Hg.
  - assert (Hlt : (cur <? endDate) = true) by (apply Z.ltb_lt; unfold DAY in *; lia).
    rewrite Hlt. apply in_or_app. right. apply IH; [lia| |].
    + rewrite Nat2Z.inj_succ in Hc. lia.
    + rewrite Nat2Z.inj_succ in Hg.
      replace (cur + DAY + Z.of_nat k * DAY) with (cur + Z.succ (Z.of_nat k) * DAY) by lia.
      exact Hg.
Qed.

Lemma day_fuel_enough (startDate endDate : Z) (k : nat) :
  midnight startDate + Z.of_nat k * DAY < endDate -> (k < day_fuel startDate endDate)%nat.
Proof.
  intros H. unfold day_fuel.
  assert (Hq : Z.of_nat k <= (endDate - midnight startDate) / DAY).
  { apply Z.div_le_lower_bound; unfold DAY in *; lia. }
  apply Nat2Z.inj_lt. rewrite Z2Nat.id; [lia|].
  pose proof (Nat2Z.is_nonneg k). lia.
Qed.

Lemma day_slots_cover (st : Settings) (startDate : Z) (fixedEvents : list Event) (cur t : Z) :
  isWorkDay st cur = true ->
  effectiveStart_of st startDate cur <= t < dayEnd_of st cur ->
  (exists g, In g (day_slots st startDate fixedEvents cur) /\ in_slot g t) \/
  (exists e, In e fixedEvents /\ in_event e t).
Proof.
  intros Hw Ht. unfold day_slots. cbv zeta. rewrite Hw.
  set (dayEnd := dayEnd_of st cur) in *. set (eff := effectiveStart_of st startDate cur) in *.
  assert (Hlt : (eff <? dayEnd) = true) by (apply Z.ltb_lt; lia). rewrite Hlt.
  set (dayEvents := sort_cmp eventCmp _).
  assert (Hin : forall e, In e dayEvents -> In e fixedEvents).
  { intros e He. apply (Permutation_in _ (sort_cmp_perm eventCmp _)) in He.
    apply filter_In in He. apply He. }
  pose proof (sweep_covers eff dayEvents) as Hcov.
  destruct (sweep eff dayEvents) as [gs p].
  destruct (Z_lt_le_dec t p) as [Htp|Htp].
  - destruct (Hcov t (conj (proj1 Ht) Htp)) as [(g & Hg & Hgt)|(e & He & Het)].
    + left. exists g. split; [apply in_or_app; left|]; assumption.
    + right. exists e. split; [apply Hin|]; assumption.
  - left. exists (mkSlot p dayEnd).
    assert (Hp : (p <? dayEnd) = true) by (apply Z.ltb_lt; lia). rewrite Hp.
    split; [apply in_or_app; right; left; reflexivity|]. unfold in_slot. simpl. lia.
Qed.

(** C3 (amended): take the [k]-th calendar day visited by the loop, a
    working day whose working hours start no earlier than the horizon start
    [startDate], and fixed events that are well formed and lie inside its
    working hours.  Within that calendar day, a point is in
    [[dayStart, dayEnd)] exactly when it is in a returned slot, in a fixed
    event, or in an emitted slot dropped for being shorter than
    [minBreakBetweenTasks + 15] minutes. *)
Theorem day_coverage (st : Settings) (startDate endDate : Z) (evs : list Event)
    (k : nat) (t : Z) :
  0 <= workingHours_start st -> workingHours_end st <= 24 ->
  let cur := midnight startDate + Z.of_nat k * DAY in
  cur < endDate -> isWorkDay st cur = true ->
  startDate <= dayStart_of st cur ->
  Forall (fun e => isFixed e = true /\ ev_start e < ev_end e /\
                   dayStart_of st cur <= ev_start e /\ ev_end e <= dayEnd_of st cur) evs ->
  cur <= t < cur + DAY ->
  (dayStart_of st cur <= t < dayEnd_of st cur <->
   (exists g, In g (getAvailableSlots st startDate endDate evs) /\ in_slot g t) \/
   (exists e, In e evs /\ in_event e t) \/
   (exists g, In g (emitted_slots st startDate endDate evs) /\
              slot_end g - slot_start g < (minBreakBetweenTasks st + 15) * MINUTE /\
              in_slot g t)).
Proof.
  intros Hws Hwe cur Hc Hw Hsd Hevs Ht.
  rewrite Forall_forall in Hevs.
  assert (Hwf : Forall (fun e => ev_start e <= ev_end e) evs).
  { apply Forall_forall. intros e He. destruct (Hevs e He) as (_ & H & _). lia. }
  assert (Heff : effectiveStart_of st startDate cur = dayStart_of st cur).
  { unfold effectiveStart_of. destruct (dayStart_of st cur <? startDate) eqn:E; [|reflexivity].
    apply Z.ltb_lt in E. lia. }
  assert (Hds : dayStart_of st cur = cur + workingHours_start st * HOUR) by reflexivity.
  assert (Hde : dayEnd_of st cur = cur + workingHours_end st * HOUR) by reflexivity.
  split.
  - intros Hin.
    rewrite <- Heff in Hin.
    destruct (day_slots_cover st startDate (filter isFixed evs) cur t Hw Hin)
      as [(g & Hg & Hgt)|(e & He & Het)].
    + assert (Hem : In g (emitted_slots st startDate endDate evs)).
      { unfold emitted_slots. apply (days_loop_visits _ _ _ _ k); [|exact Hc|exact Hg].
        apply day_fuel_enough. exact Hc. }
      destruct (long_enough st g) eqn:Hl.
      * left. exists g. split; [|exact Hgt]. apply filter_In. auto.
      * right; right. exists g. unfold long_enough in Hl. apply Z.leb_gt in Hl. auto.
    + right; left. exists e. apply filter_In in He. split; [apply He|exact Het].
  - destruct (emitted_slots_shape st startDate endDate evs Hws Hwe Hwf) as [Hshape _].
    assert (Hday : forall g, In g (emitted_slots st startDate endDate evs) -> in_slot g t ->
                   dayStart_of st cur <= t < dayEnd_of st cur).
    { intros g Hg Hgt. destruct (Hshape g Hg) as [(k' & Hk') _]. simpl in Hk'.
      destruct Hk' as (_ & _ & H1 & H2 & H3).
      pose proof (effectiveStart_ge st startDate (midnight startDate + Z.of_nat k' * DAY))
        as [_ He].
      unfold dayStart_of, dayEnd_of, setHours in *. unfold in_slot in Hgt.
      unfold cur in *.
      assert (Hkk : k' = k) by (unfold DAY, HOUR in *; nia).
      subst k'. lia. }
    intros [(g & Hg & Hgt)|[(e & He & Het)|(g & Hg & _ & Hgt)]].
    + apply filter_In in Hg as [Hg _]. exact (Hday g Hg Hgt).
    + destruct (Hevs e He) as (_ & _ & H1 & H2). unfold in_event in Het. lia.
    + exact (Hday g Hg Hgt).
Qed.

Lemma day_coverage_witness :
  (exists g, In g (getAvailableSlots defaultSettings tuesday (tuesday + DAY) tuesdayEvents)
             /\ in_slot g (tuesday + 9 * HOUR + 30 * MINUTE)) \/
  (exists e, In e tuesdayEvents /\ in_event e (tuesday + 9 * HOUR + 30 * MINUTE)) \/
  (exists g, In g (emitted_slots defaultSettings tuesday (tuesday + DAY) tuesdayEvents) /\
             slot_end g - slot_start g < (minBreakBetweenTasks defaultSettings + 15) * MINUTE /\
             in_slot g (tuesday + 9 * HOUR + 30 * MINUTE)).
Proof.
  apply (day_coverage defaultSettings tuesday (tuesday + DAY) tuesdayEvents O
           (tuesday + 9 * HOUR + 30 * MINUTE)); concrete.
Defined.

(** C3 as stated, without a bound on where the horizon starts, fails: with
    the horizon starting Tuesday 12:00 and no fixed event, Tuesday 09:00 is
    inside the working hours but in no slot, emitted or returned, and in no
    fixed event. *)
Lemma day_coverage_counterexample :
  ~ (forall (st : Settings) (startDate endDate : Z) (evs : list Event) (k : nat) (t : Z),
       0 <= workingHours_start st -> workingHours_end st <= 24 ->
       let cur := midnight startDate + Z.of_nat k * DAY in
       cur < endDate -> isWorkDay st cur = true ->
       Forall (fun e => isFixed e = true /\ ev_start e < ev_end e /\
                        dayStart_of st cur <= ev_start e /\ ev_end e <= dayEnd_of st cur) evs ->
       cur <= t < cur + DAY ->
       (dayStart_of st cur <= t < dayEnd_of st cur <->
        (exists g, In g (getAvailableSlots st startDate endDate evs) /\ in_slot g t) \/
        (exists e, In e evs /\ in_event e t) \/
        (exists g, In g (emitted_slots st startDate endDate evs) /\
                   slot_end g - slot_start g < (minBreakBetweenTasks st + 15) * MINUTE /\
                   in_slot g t))).
Proof.
  intros H.
  specialize (H defaultSettings (tuesday + 12 * HOUR) (tuesday + DAY) [] O (tuesday + 9 * HOUR)).
  cbv zeta in H.
  assert (Hm : midnight (tuesday + 12 * HOUR) + Z.of_nat 0 * DAY = tuesday) by concrete.
  rewrite Hm in H.
  assert (Ha : getAvailableSlots defaultSettings (tuesday + 12 * HOUR) (tuesday + DAY) []
               = [mkSlot (tuesday + 12 * HOUR) (tuesday + 17 * HOUR)]) by concrete.
  assert (He : emitted_slots defaultSettings (tuesday + 12 * HOUR) (tuesday + DAY) []
               = [mkSlot (tuesday + 12 * HOUR) (tuesday + 17 * HOUR)]) by concrete.
  rewrite Ha, He in H.
  assert (Hin : dayStart_of defaultSettings tuesday <= tuesday + 9 * HOUR
                < dayEnd_of defaultSettings tuesday) by concrete.
  destruct (proj1 (H ltac:(concrete) ltac:(concrete) ltac:(concrete) ltac:(concrete)
                     ltac:(concrete) ltac:(concrete)) Hin)
    as [(g & Hg & Hgt)|[(e & [] & _)|(g & Hg & _ & Hgt)]];
    destruct Hg as [<-|[]]; unfold in_slot in Hgt; simpl in Hgt;
    unfold tuesday, HOUR, DAY in Hgt; lia.
Qed.

(** ** The placement pass *)

Lemma nth_error_replaced {A : Type} (i j : nat) (x : A) (l : list A) :
  (i < length l)%nat ->
  nth_error (firstn i l ++ x :: skipn (S i) l) j =
  if Nat.eqb j i then Some x else nth_error l j.
Proof.
  revert i j. induction l as [|y l IH]; intros i j Hi; simpl in Hi; [lia|].
  destruct i as [|i]; destruct j as [|j]; simpl; try reflexivity.
  apply IH. lia.
Qed.

Lemma StronglySorted_nth {A : Type} (P : A -> A -> Prop) (l : list A) (i j : nat) a b :
  StronglySorted P l -> (i < j)%nat -> nth_error l i = Some a -> nth_error l j = Some b ->
  P a b.
Proof.
  revert i j. induction l as [|x l IH]; intros i j Hs Hij Ha Hb;
    [destruct i; discriminate|].
  apply StronglySorted_inv in Hs as [Hs Hx].
  destruct i as [|i]; destruct j as [|j]; try lia; simpl in Ha, Hb.
  - injection Ha as <-. rewrite Forall_forall in Hx. apply Hx.
    apply nth_error_In with j. exact Hb.
  - apply (IH i j); auto. lia.
Qed.

Lemma ForallOrdPairs_app {A : Type} (R : A -> A -> Prop) (l1 l2 : list A) :
  ForallOrdPairs R l1 -> ForallOrdPairs R l2 ->
  (forall a b, In a l1 -> In b l2 -> R a b) ->
  ForallOrdPairs R (l1 ++ l2).
Proof.
  induction l1 as [|x l1 IH]; simpl; intros H1 H2 H; [exact H2|].
  inversion H1 as [|? ? Hx Hl1]; subst.
  constructor; [|apply IH; auto].
  apply Forall_app. split; [exact Hx|]. apply Forall_forall. intros b Hb. apply H; auto.
Qed.

(** The pieces placed for one task follow one another from the slot start
    to [slot start + totalDuration], and none is fixed. *)
Lemma place_in_slot_facts (t : Task) (s0 : Z) evs a b cur :
  task_nonneg t ->
  place_in_slot t s0 = (evs, a, b, cur) ->
  cur = s0 + totalDuration t * MINUTE /\
  Forall (fun q => s0 <= ev_start q /\ ev_start q <= ev_end q /\ ev_end q <= cur /\
                   isFixed q = false) evs /\
  ForallOrdPairs (fun x y => ev_end x <= ev_start y) evs.
Proof.
  intros (Hd & Hct & Hcf) Hp.
  rewrite (place_in_slot_eq t s0 Hct) in Hp. injection Hp as <- <- <- <-.
  unfold totalDuration, MINUTE in *.
  destruct (0 <? commuteToDuration t) eqn:E1; destruct (0 <? commuteFromDuration t) eqn:E2;
    try apply Z.ltb_lt in E1; try apply Z.ltb_ge in E1;
    try apply Z.ltb_lt in E2; try apply Z.ltb_ge in E2;
    (split; [lia|]); simpl;
    (split; [repeat constructor; simpl; lia|]);
    repeat constructor; simpl; lia.
Qed.

Lemma ForallOrdPairs_impl {A : Type} (R S : A -> A -> Prop) (l : list A) :
  (forall a b, R a b -> S a b) -> ForallOrdPairs R l -> ForallOrdPairs S l.
Proof.
  intros HRS H. induction H as [|a l Ha Hl IH]; constructor; [|exact IH].
  eapply Forall_impl; [|exact Ha]. auto.
Qed.

Lemma scan_step_inv (mb : Z) (G0 G : list Slot) (P : list Event) (u : Task)
    evs a b G' :
  0 <= mb -> StronglySorted slot_precedes G0 -> task_nonneg u ->
  pass_inv G0 G P -> scan mb u G = Some (evs, a, b, G') ->
  pass_inv G0 G' (P ++ evs).
Proof.
  intros Hmb Hsorted Hu (Hlen & Hshr & Hin & Hapart & Hfix) Hs.
  destruct (scan_Some_inv mb u G evs a b G' Hs) as (i & s & cur & Hn & Hf & _ & Hp & HG').
  destruct (place_in_slot_facts u (slot_start s) evs a b cur Hu Hp) as (Hcur & Hq & Hord).
  unfold fits in Hf. apply Z.leb_le in Hf.
  assert (Hi : (i < length G)%nat) by (apply nth_error_Some; congruence).
  destruct (nth_error G0 i) as [g0i|] eqn:Hg0i;
    [|apply nth_error_None in Hg0i; lia].
  destruct (Hshr i g0i s Hg0i Hn) as [Hs0 Hs1].
  rewrite Forall_forall in Hq.
  assert (HnG' : forall j, nth_error G' j =
            if Nat.eqb j i then Some (mkSlot (cur + mb * MINUTE) (slot_end s))
            else nth_error G j).
  { intros j. rewrite HG'. apply nth_error_replaced. exact Hi. }
  assert (Hmin : 0 <= mb * MINUTE) by (unfold MINUTE; lia).
  assert (Hcs : slot_start s <= cur <= slot_end s).
  { destruct Hu as (H1 & H2 & H3). rewrite Hcur.
    unfold totalDuration, MINUTE in *. lia. }
  split; [|split; [|split; [|split]]].
  - rewrite HG'. rewrite (replaced_length i _ G s Hn). exact Hlen.
  - intros j g0 g Hj0 Hj. rewrite HnG' in Hj.
    destruct (Nat.eqb_spec j i) as [->|Hne].
    + injection Hj as <-. rewrite Hg0i in Hj0. injection Hj0 as <-. simpl. lia.
    + exact (Hshr j g0 g Hj0 Hj).
  - intros p Hp'. apply in_app_or in Hp' as [Hp'|Hp'].
    + destruct (Hin p Hp') as (j & g0 & g & Hj0 & Hj & H1 & H2 & H3 & H4).
      destruct (Nat.eqb_spec j i) as [->|Hne].
      * rewrite Hn in Hj. injection Hj as <-.
        exists i, g0, (mkSlot (cur + mb * MINUTE) (slot_end s)).
        rewrite HnG', Nat.eqb_refl. simpl. repeat split; auto; lia.
      * exists j, g0, g. rewrite HnG'. apply Nat.eqb_neq in Hne. rewrite Hne.
        repeat split; auto.
    + destruct (Hq p Hp') as (H1 & H2 & H3 & _).
      exists i, g0i, (mkSlot (cur + mb * MINUTE) (slot_end s)).
      rewrite HnG', Nat.eqb_refl. simpl. repeat split; auto; lia.
  - apply ForallOrdPairs_app; [exact Hapart| |].
    + eapply ForallOrdPairs_impl; [|exact Hord]. intros x y H. left. exact H.
    + intros p q Hp' Hq'.
      destruct (Hin p Hp') as (j & g0 & g & Hj0 & Hj & H1 & H2 & H3 & H4).
      destruct (Hq q Hq') as (Q1 & Q2 & Q3 & _).
      destruct (Nat.lt_total j i) as [Hlt|[->|Hgt]].
      * pose proof (StronglySorted_nth _ G0 j i g0 g0i Hsorted Hlt Hj0 Hg0i) as Hpre.
        unfold slot_precedes in Hpre. left. lia.
      * rewrite Hn in Hj. injection Hj as <-. left. lia.
      * pose proof (StronglySorted_nth _ G0 i j g0i g0 Hsorted Hgt Hg0i Hj0) as Hpre.
        unfold slot_precedes in Hpre. right. lia.
  - apply Forall_app. split; [exact Hfix|]. apply Forall_forall. intros q Hq'.
    apply (Hq q Hq').
Qed.

Lemma pass_inv_start (G0 : list Slot) : pass_inv G0 G0 [].
Proof.
  split; [reflexivity|]. split; [|split; [intros p []|split; constructor]].
  intros j g0 g H0 H. rewrite H0 in H. injection H as <-. lia.
Qed.

(** The invariant holds at the end of the pass; the event list only grows
    by the placed items. *)
Lemma run_queue_inv (mb : Z) (G0 : list Slot) (q : list (nat * Task)) :
  0 <= mb -> StronglySorted slot_precedes G0 ->
  Forall (fun e => task_nonneg (snd e)) q ->
  forall ts G E P, pass_inv G0 G P ->
  let '(_, G', evs') := run_queue mb q ts G (E ++ P) in
  exists P', evs' = E ++ P' /\ pass_inv G0 G' P'.
Proof.
  intros Hmb Hsorted Hq. induction Hq as [|[i u] q Hu Hq IH]; intros ts G E P Hinv; simpl.
  - exists P. split; [reflexivity|exact Hinv].
  - destruct (scan mb u G) as [[[[evs a] b] G']|] eqn:Hs.
    + rewrite <- app_assoc. apply IH.
      exact (scan_step_inv mb G0 G P u evs a b G' Hmb Hsorted Hu Hinv Hs).
    + apply IH. exact Hinv.
Qed.

Lemma filter_idem {A : Type} (f : A -> bool) (l : list A) :
  filter f (filter f l) = filter f l.
Proof.
  induction l as [|x l IH]; simpl; [reflexivity|].
  destruct (f x) eqn:E; simpl; [rewrite E, IH|]; auto.
Qed.

Lemma filter_all {A : Type} (f : A -> bool) (l : list A) :
  Forall (fun x => f x = true) l -> filter f l = l.
Proof.
  induction 1 as [|x l Hx Hl IH]; simpl; [reflexivity|]. rewrite Hx, IH. reflexivity.
Qed.

Lemma getAvailableSlots_fixed (st : Settings) (startDate endDate : Z) (evs : list Event) :
  getAvailableSlots st startDate endDate (filter isFixed evs) =
  getAvailableSlots st startDate endDate evs.
Proof. unfold getAvailableSlots, emitted_slots. rewrite filter_idem. reflexivity. Qed.

Lemma taskQueue_entry (ts : list Task) (j : nat) (u : Task) :
  In (j, u) (taskQueue ts) -> nth_error ts j = Some u.
Proof.
  intros H. apply (Permutation_in _ (sort_cmp_perm queueCmp _)) in H.
  assert (Hgen : forall n, In (j, u) (combine (seq n (length ts)) ts) ->
                  (n <= j)%nat /\ nth_error ts (j - n) = Some u).
  { clear H. induction ts as [|t ts IH]; intros n Hin; simpl in Hin; [destruct Hin|].
    destruct Hin as [Heq|Hin].
    - injection Heq as <- <-. rewrite Nat.sub_diag. split; [lia|reflexivity].
    - destruct (IH (S n) Hin) as [Hle Hn]. split; [lia|].
      replace (j - n)%nat with (S (j - S n)) by lia. exact Hn. }
  destruct (Hgen O H) as [_ Hn]. rewrite Nat.sub_0_r in Hn. exact Hn.
Qed.

Lemma taskQueue_nonneg (ts : list Task) :
  Forall task_nonneg ts -> Forall (fun e => task_nonneg (snd e)) (taskQueue ts).
Proof.
  intros H. apply Forall_forall. intros [j u] Hin. simpl.
  apply taskQueue_entry, nth_error_In in Hin. rewrite Forall_forall in H. auto.
Qed.

(** The invariant at the end of [autoScheduleTasks]. *)
Lemma schedule_result_inv (now : Z) (c : Calendar) :
  0 <= workingHours_start (settings c) -> workingHours_end (settings c) <= 24 ->
  0 <= minBreakBetweenTasks (settings c) ->
  Forall (fun e => ev_start e <= ev_end e) (events c) ->
  Forall task_nonneg (tasks c) ->
  let '(_, G', evs') := schedule_result now c in
  exists P, evs' = filter isFixed (events c) ++ P /\
    pass_inv (getAvailableSlots (settings c) now (horizonEnd now) (events c)) G' P.
Proof.
  intros Hws Hwe Hmb Hwf Htasks. unfold schedule_result.
  rewrite getAvailableSlots_fixed.
  destruct (emitted_slots_shape (settings c) now (horizonEnd now) (events c) Hws Hwe Hwf)
    as [_ Hsorted].
  assert (Hnn : Forall task_nonneg (map reset_task (tasks c))).
  { rewrite Forall_map. eapply Forall_impl; [|exact Htasks]. auto. }
  pose proof (run_queue_inv (minBreakBetweenTasks (settings c))
                (getAvailableSlots (settings c) now (horizonEnd now) (events c))
                (taskQueue (map reset_task (tasks c))) Hmb
                (StronglySorted_filter _ _ _ Hsorted) (taskQueue_nonneg _ Hnn)
                (map reset_task (tasks c))
                (getAvailableSlots (settings c) now (horizonEnd now) (events c))
                (filter isFixed (events c)) [] (pass_inv_start _)) as H.
  rewrite app_nil_r in H. exact H.
Qed.

(** The items placed by a run are exactly the non-fixed events after it. *)
Lemma placed_items (evs P : list Event) :
  Forall (fun p => isFixed p = false) P ->
  filter (fun e => negb (isFixed e)) (filter isFixed evs ++ P) = P.
Proof.
  intros HP. rewrite filter_app.
  replace (filter (fun e => negb (isFixed e)) (filter isFixed evs)) with (@nil Event).
  - apply filter_all. eapply Forall_impl; [|exact HP]. intros p Hp. rewrite Hp. reflexivity.
  - induction evs as [|e evs IH]; simpl; [reflexivity|].
    destruct (isFixed e) eqn:E; simpl; [rewrite E|]; exact IH.
Qed.

Lemma apart_no_overlap (x y : Event) :
  ev_end x <= ev_start y \/ ev_end y <= ev_start x -> ~ ev_overlap x y.
Proof. intros H (t & Hx & Hy). unfold in_event in *. lia. Qed.

(** C10 (amended): after [autoScheduleTasks], the placed items (the tasks
    and commute legs, i.e. the non-fixed events) are pairwise
    non-overlapping, none overlaps a fixed event, and each lies inside one
    returned slot, hence inside the working hours of a working day whose
    calendar day starts before [now + 14 days], and not before [now].  The
    item may end after [now + 14 days]. *)
Theorem placed_items_valid (now : Z) (c : Calendar) :
  0 <= workingHours_start (settings c) -> workingHours_end (settings c) <= 24 ->
  0 <= minBreakBetweenTasks (settings c) ->
  Forall (fun e => ev_start e <= ev_end e) (events c) ->
  Forall task_nonneg (tasks c) ->
  let placed := filter (fun e => negb (isFixed e)) (events (autoScheduleTasks now c)) in
  ForallOrdPairs (fun x y => ~ ev_overlap x y) placed /\
  (forall p e, In p placed -> In e (events c) -> isFixed e = true -> ~ ev_overlap p e) /\
  (forall p, In p placed ->
     exists g, In g (getAvailableSlots (settings c) now (horizonEnd now) (events c)) /\
       slot_start g <= ev_start p /\ ev_end p <= slot_end g /\
       slot_on_day (settings c) now (horizonEnd now) g).
Proof.
  intros Hws Hwe Hmb Hwf Htasks placed.
  pose proof (schedule_result_inv now c Hws Hwe Hmb Hwf Htasks) as Hinv.
  destruct (emitted_slots_shape (settings c) now (horizonEnd now) (events c) Hws Hwe Hwf)
    as [Hshape _].
  unfold placed, autoScheduleTasks. clear placed.
  destruct (schedule_result now c) as [[ts' G'] evs'].
  destruct Hinv as (P & -> & _ & _ & Hin & Hapart & Hfix). simpl.
  rewrite (placed_items _ _ Hfix).
  assert (Hslot : forall p, In p P ->
            exists g, In g (getAvailableSlots (settings c) now (horizonEnd now) (events c)) /\
              slot_start g <= ev_start p /\ ev_end p <= slot_end g).
  { intros p Hp. destruct (Hin p Hp) as (j & g0 & g & Hj0 & _ & H1 & H2 & _ & H4).
    exists g0. split; [apply nth_error_In with j; exact Hj0|]. lia. }
  split; [|split].
  - eapply ForallOrdPairs_impl; [|exact Hapart]. exact apart_no_overlap.
  - intros p e Hp He Hf (t & Hpt & Het).
    destruct (Hslot p Hp) as (g & Hg & H1 & H2).
    apply filter_In in Hg as [Hg _].
    destruct (Hshape g Hg) as [_ Hdis].
    apply (Hdis e t He Hf); [|exact Het]. unfold in_slot, in_event in *. lia.
  - intros p Hp. destruct (Hslot p Hp) as (g & Hg & H1 & H2).
    exists g. split; [exact Hg|]. split; [exact H1|]. split; [exact H2|].
    apply filter_In in Hg as [Hg _]. apply (Hshape g Hg).
Qed.

Lemma placed_items_valid_witness :
  let placed := filter (fun e => negb (isFixed e))
                  (events (autoScheduleTasks mondayNow mondayCalendar)) in
  ForallOrdPairs (fun x y => ~ ev_overlap x y) placed.
Proof.
  apply (placed_items_valid mondayNow mondayCalendar); concrete.
Defined.

(** C10 as stated fails on its horizon part: the third task is placed on
    Monday 1970-01-19 09:00-17:00, after the horizon end, Monday 08:00. *)
Lemma placed_items_valid_counterexample :
  ~ (forall p, In p (filter (fun e => negb (isFixed e))
                      (events (autoScheduleTasks mondayNow mondayCalendar))) ->
               mondayNow <= ev_start p /\ ev_end p <= horizonEnd mondayNow).
Proof.
  intros H.
  assert (Hin : In (mkEvent (18 * DAY + 9 * HOUR) (18 * DAY + 17 * HOUR) false true false (Some 3))
                  (filter (fun e => negb (isFixed e))
                     (events (autoScheduleTasks mondayNow mondayCalendar)))).
  { vm_compute. right. right. left. reflexivity. }
  destruct (H _ Hin) as [_ Hend]. revert Hend. vm_compute. intros Hc. apply Hc. reflexivity.
Qed.

(** ** Tasks that fit nowhere *)

Lemma replace_nth_other {A : Type} (i j : nat) (y : A) (l : list A) :
  j <> i -> nth_error (replace_nth j y l) i = nth_error l i.
Proof.
  revert i j. induction l as [|x l IH]; intros i j Hne; [destruct j; reflexivity|].
  destruct j as [|j]; destruct i as [|i]; simpl; try reflexivity; [lia|].
  apply IH. lia.
Qed.

Lemma scan_shrink (mb : Z) (G0 G : list Slot) (u : Task) evs a b G' :
  0 <= mb -> task_nonneg u -> slots_shrunk G0 G ->
  scan mb u G = Some (evs, a, b, G') -> slots_shrunk G0 G'.
Proof.
  intros Hmb Hu (Hlen & Hshr) Hs.
  destruct (scan_Some_inv mb u G evs a b G' Hs) as (i & s & cur & Hn & Hf & _ & Hp & HG').
  destruct (place_in_slot_facts u (slot_start s) evs a b cur Hu Hp) as (Hcur & _ & _).
  assert (Hi : (i < length G)%nat) by (apply nth_error_Some; congruence).
  assert (Htot : 0 <= totalDuration u * MINUTE)
    by (destruct Hu as (H1 & H2 & H3); unfold totalDuration, MINUTE; lia).
  assert (Hmin : 0 <= mb * MINUTE) by (unfold MINUTE; lia).
  split.
  - rewrite HG'. rewrite (replaced_length i _ G s Hn). exact Hlen.
  - intros j g0 g Hj0 Hj. rewrite HG', nth_error_replaced in Hj by exact Hi.
    destruct (Nat.eqb_spec j i) as [->|Hne].
    + injection Hj as <-. destruct (Hshr i g0 s Hj0 Hn). simpl. lia.
    + exact (Hshr j g0 g Hj0 Hj).
Qed.

(** A task longer than every original slot finds no slot in slots that
    only shrank from them. *)
Lemma scan_none_shrunk (mb : Z) (G0 G : list Slot) (u : Task) :
  (forall g, In g G0 -> slot_end g - slot_start g < totalDuration u * MINUTE) ->
  slots_shrunk G0 G -> scan mb u G = None.
Proof.
  intros Hshort (Hlen & Hshr). apply scan_None_iff. intros s Hs.
  apply In_nth_error in Hs as (k & Hk).
  assert (Hk0 : (k < length G0)%nat) by (rewrite <- Hlen; apply nth_error_Some; congruence).
  destruct (nth_error G0 k) as [g0|] eqn:Hg0; [|apply nth_error_None in Hg0; lia].
  destruct (Hshr k g0 s Hg0 Hk).
  pose proof (Hshort g0 (nth_error_In _ _ Hg0)).
  unfold fits. apply Z.leb_gt. lia.
Qed.

(** Position [i] of the task list is never written when all of its queue
    entries are longer than every original slot. *)
Lemma run_queue_keeps (mb : Z) (G0 : list Slot) (i : nat) (x : Task) (T : Z) :
  0 <= mb ->
  (forall g, In g G0 -> slot_end g - slot_start g < T * MINUTE) ->
  forall q, Forall (fun e => task_nonneg (snd e)) q ->
  (forall u, In (i, u) q -> totalDuration u = T) ->
  forall ts G E, slots_shrunk G0 G -> nth_error ts i = Some x ->
  nth_error (fst (fst (run_queue mb q ts G E))) i = Some x.
Proof.
  intros Hmb Hshort q Hq. induction Hq as [|[j u] q Hu Hq IH]; intros Hi ts G E Hsh Hx;
    simpl; [exact Hx|].
  destruct (scan mb u G) as [[[[evs a] b] G']|] eqn:Hs.
  - destruct (Nat.eq_dec j i) as [->|Hne].
    + exfalso.
      assert (Hn : scan mb u G = None).
      { apply (scan_none_shrunk mb G0 G u); [|exact Hsh].
        rewrite (Hi u (or_introl eq_refl)). exact Hshort. }
      congruence.
    + apply IH; [intros v Hv; apply Hi; right; exact Hv| |].
      * exact (scan_shrink mb G0 G u evs a b G' Hmb Hu Hsh Hs).
      * rewrite replace_nth_other by exact Hne. exact Hx.
  - apply IH; auto. intros v Hv. apply Hi. right. exact Hv.
Qed.

(** C7: a task whose [totalDuration] exceeds the length of every slot of
    the horizon is left as reset at the start of the run (not scheduled,
    no start, no end), is listed among the unscheduled tasks, and its queue
    entry leaves the task list, the slots and the events untouched; no
    error is raised (the pass is a total function). *)
Theorem unplaceable_task_unscheduled (now : Z) (c : Calendar) (i : nat) (t : Task) :
  0 <= minBreakBetweenTasks (settings c) ->
  Forall task_nonneg (tasks c) ->
  nth_error (tasks c) i = Some t ->
  (forall g, In g (getAvailableSlots (settings c) now (horizonEnd now) (events c)) ->
     slot_end g - slot_start g < totalDuration t * MINUTE) ->
  nth_error (tasks (autoScheduleTasks now c)) i = Some (reset_task t) /\
  isScheduled (reset_task t) = false /\ scheduledStart (reset_task t) = None /\
  scheduledEnd (reset_task t) = None /\
  In (reset_task t) (unscheduled (autoScheduleTasks now c)) /\
  (forall q ts G E,
     (forall g, In g G -> slot_end g - slot_start g < totalDuration t * MINUTE) ->
     run_queue (minBreakBetweenTasks (settings c)) ((i, reset_task t) :: q) ts G E =
     run_queue (minBreakBetweenTasks (settings c)) q ts G E).
Proof.
  intros Hmb Htasks Ht Hshort.
  assert (Hkept : nth_error (tasks (autoScheduleTasks now c)) i = Some (reset_task t)).
  { unfold autoScheduleTasks, schedule_result. cbv zeta. rewrite getAvailableSlots_fixed.
    set (G0 := getAvailableSlots (settings c) now (horizonEnd now) (events c)) in *.
    assert (Hnn : Forall task_nonneg (map reset_task (tasks c))).
    { rewrite Forall_map. eapply Forall_impl; [|exact Htasks]. auto. }
    assert (Hent : forall u, In (i, u) (taskQueue (map reset_task (tasks c))) ->
                     totalDuration u = totalDuration t).
    { intros u Hu. apply taskQueue_entry in Hu. rewrite nth_error_map, Ht in Hu.
      injection Hu as <-. reflexivity. }
    assert (Hsh0 : slots_shrunk G0 G0).
    { split; [reflexivity|]. intros j g0 g H0 H1. rewrite H0 in H1.
      injection H1 as <-. lia. }
    pose proof (run_queue_keeps (minBreakBetweenTasks (settings c)) G0 i (reset_task t)
                  (totalDuration t) Hmb Hshort
                  (taskQueue (map reset_task (tasks c))) (taskQueue_nonneg _ Hnn) Hent
                  (map reset_task (tasks c)) G0 (filter isFixed (events c)) Hsh0) as H.
    rewrite nth_error_map, Ht in H. specialize (H eq_refl). revert H.
    destruct (run_queue _ _ _ _ _) as [[ts' G'] evs']. simpl. auto. }
  split; [exact Hkept|]. split; [reflexivity|]. split; [reflexivity|].
  split; [reflexivity|]. split.
  - unfold unscheduled. apply filter_In. split; [|reflexivity].
    apply nth_error_In with i. exact Hkept.
  - intros q ts G E HG. simpl.
    assert (Hn : scan (minBreakBetweenTasks (settings c)) (reset_task t) G = None).
    { apply scan_None_iff. intros s Hs. unfold fits. apply Z.leb_gt.
      exact (HG s Hs). }
    rewrite Hn. reflexivity.
Qed.

Lemma unplaceable_task_unscheduled_witness :
  nth_error (tasks (autoScheduleTasks tuesday longTaskCalendar)) 1 =
    Some (reset_task (mkT 2 9 600 0)).
Proof.
  refine (proj1 (unplaceable_task_unscheduled tuesday longTaskCalendar 1 (mkT 2 9 600 0)
                   _ _ _ _)); [concrete | concrete | reflexivity |].
  assert (HF : Forall (fun g => slot_end g - slot_start g < totalDuration (mkT 2 9 600 0) * MINUTE)
                 (getAvailableSlots (settings longTaskCalendar) tuesday (horizonEnd tuesday)
                    (events longTaskCalendar))) by concrete.
  rewrite Forall_forall in HF. exact HF.
Defined.

(** ** Running the pass again *)

Lemma map_replace_nth {A B : Type} (f : A -> B) (j : nat) (y : A) (l : list A) :
  map f (replace_nth j y l) = replace_nth j (f y) (map f l).
Proof.
  revert j. induction l as [|x l IH]; intros j; [destruct j; reflexivity|].
  destruct j; simpl; [reflexivity|]. rewrite IH. reflexivity.
Qed.

Lemma replace_nth_same {A : Type} (j : nat) (y : A) (l : list A) :
  nth_error l j = Some y -> replace_nth j y l = l.
Proof.
  revert j. induction l as [|x l IH]; intros j H; [destruct j; discriminate|].
  destruct j; simpl in *; [injection H as ->; reflexivity|]. rewrite IH; auto.
Qed.

Lemma place_in_slot_not_fixed (t : Task) (s0 : Z) evs a b cur :
  place_in_slot t s0 = (evs, a, b, cur) -> Forall (fun e => isFixed e = false) evs.
Proof.
  unfold place_in_slot.
  destruct (0 <? commuteToDuration t); destruct (0 <? commuteFromDuration t);
    intros H; injection H as <- _ _ _; repeat constructor.
Qed.

(** The pass only appends non-fixed events. *)
Lemma run_queue_events (mb : Z) (q : list (nat * Task)) :
  forall ts G E, exists P, snd (run_queue mb q ts G E) = E ++ P /\
    Forall (fun e => isFixed e = false) P.
Proof.
  induction q as [|[j u] q IH]; intros ts G E; simpl.
  - exists []. rewrite app_nil_r. split; [reflexivity|constructor].
  - destruct (scan mb u G) as [[[[evs a] b] G']|] eqn:Hs; [|apply IH].
    destruct (IH (replace_nth j (set_scheduled u a b) ts) G' (E ++ evs)) as (P & HP & Hf).
    destruct (scan_Some_inv mb u G evs a b G' Hs) as (i & s & cur & _ & _ & _ & Hp & _).
    exists (evs ++ P). rewrite HP, app_assoc. split; [reflexivity|].
    apply Forall_app. split; [exact (place_in_slot_not_fixed _ _ _ _ _ _ Hp)|exact Hf].
Qed.

(** Up to the scheduling fields, the pass leaves the task list as it was. *)
Lemma run_queue_reset (mb : Z) (q : list (nat * Task)) :
  forall ts G E,
  (forall j u, In (j, u) q -> nth_error (map reset_task ts) j = Some (reset_task u)) ->
  map reset_task (fst (fst (run_queue mb q ts G E))) = map reset_task ts.
Proof.
  induction q as [|[j u] q IH]; intros ts G E Hq; simpl; [reflexivity|].
  assert (Hq' : forall j' u', In (j', u') q ->
                  nth_error (map reset_task ts) j' = Some (reset_task u'))
    by (intros; apply Hq; right; assumption).
  destruct (scan mb u G) as [[[[evs a] b] G']|]; [|apply IH; exact Hq'].
  assert (Heq : map reset_task (replace_nth j (set_scheduled u a b) ts) = map reset_task ts).
  { rewrite map_replace_nth. apply replace_nth_same. exact (Hq j u (or_introl eq_refl)). }
  rewrite IH; [exact Heq|]. rewrite Heq. exact Hq'.
Qed.

(** [schedule_result] reads the tasks only up to their scheduling fields
    and the events only through their fixed ones. *)
Lemma schedule_result_congr (now : Z) (c1 c2 : Calendar) :
  settings c1 = settings c2 ->
  map reset_task (tasks c1) = map reset_task (tasks c2) ->
  filter isFixed (events c1) = filter isFixed (events c2) ->
  schedule_result now c1 = schedule_result now c2.
Proof.
  intros Hs Ht He. unfold schedule_result. rewrite Hs, Ht, He. reflexivity.
Qed.

Lemma autoScheduleTasks_congr (now : Z) (c1 c2 : Calendar) :
  settings c1 = settings c2 -> schedule_result now c1 = schedule_result now c2 ->
  autoScheduleTasks now c1 = autoScheduleTasks now c2.
Proof. intros Hs Hr. unfold autoScheduleTasks. rewrite Hs, Hr. reflexivity. Qed.

Lemma autoScheduleTasks_keeps (now : Z) (c : Calendar) :
  settings (autoScheduleTasks now c) = settings c /\
  map reset_task (tasks (autoScheduleTasks now c)) = map reset_task (tasks c) /\
  filter isFixed (events (autoScheduleTasks now c)) = filter isFixed (events c).
Proof.
  unfold autoScheduleTasks, schedule_result. cbv zeta.
  set (mb := minBreakBetweenTasks (settings c)).
  set (ts := map reset_task (tasks c)).
  set (G := getAvailableSlots (settings c) now (horizonEnd now) (filter isFixed (events c))).
  set (E := filter isFixed (events c)).
  assert (Hq : forall j u, In (j, u) (taskQueue ts) ->
                 nth_error (map reset_task ts) j = Some (reset_task u)).
  { intros j u Hin. apply taskQueue_entry in Hin.
    rewrite nth_error_map, Hin. reflexivity. }
  pose proof (run_queue_reset mb (taskQueue ts) ts G E Hq) as Hts.
  destruct (run_queue_events mb (taskQueue ts) ts G E) as (P & HP & Hf).
  revert Hts HP. destruct (run_queue mb (taskQueue ts) ts G E) as [[ts' G'] evs'].
  simpl. intros Hts ->. split; [reflexivity|]. split.
  - rewrite Hts. unfold ts. rewrite map_map. reflexivity.
  - unfold E. rewrite filter_app, filter_idem.
    replace (filter isFixed P) with (@nil Event); [apply app_nil_r|].
    induction Hf as [|p P Hp HP IH]; simpl; [reflexivity|]. rewrite Hp. exact IH.
Qed.

(** C8: [autoScheduleTasks] is a function of its inputs, and running it
    again on its own output computes the same slot list, the same result
    of the pass (task list with [scheduledStart] and [scheduledEnd],
    slots, events) and the same calendar, hence the same unscheduled
    tasks. *)
Theorem schedule_idempotent (now : Z) (c : Calendar) :
  let c1 := autoScheduleTasks now c in
  getAvailableSlots (settings c1) now (horizonEnd now) (events c1) =
    getAvailableSlots (settings c) now (horizonEnd now) (events c) /\
  schedule_result now c1 = schedule_result now c /\
  autoScheduleTasks now c1 = c1 /\
  unscheduled (autoScheduleTasks now c1) = unscheduled c1.
Proof.
  intros c1.
  destruct (autoScheduleTasks_keeps now c) as (Hs & Ht & He). fold c1 in Hs, Ht, He.
  assert (Hr : schedule_result now c1 = schedule_result now c)
    by (apply schedule_result_congr; assumption).
  assert (Ha : autoScheduleTasks now c1 = c1)
    by (apply autoScheduleTasks_congr; assumption).
  split; [|split; [exact Hr|split; [exact Ha|rewrite Ha; reflexivity]]].
  rewrite <- (getAvailableSlots_fixed _ _ _ (events c1)),
          <- (getAvailableSlots_fixed _ _ _ (events c)), Hs, He.
  reflexivity.
Qed.

(** ** Deadlines *)

(** C9: the slot scan does not read the deadline, so a task is placed at
    the same time whatever its deadline; a task whose deadline, Monday
    1970-01-05 00:00, is before the run on Tuesday is scheduled on Tuesday
    09:00-09:30. *)
Theorem deadline_not_checked :
  (forall mb t d G, scan mb (with_deadline t d) G = scan mb t G) /\
  tasks (autoScheduleTasks tuesday lateCalendar) =
    [set_scheduled lateTask (tuesday + 9 * HOUR) (tuesday + 9 * HOUR + 30 * MINUTE)] /\
  deadline lateTask < tuesday + 9 * HOUR.
Proof.
  split; [|split; [vm_compute; reflexivity|vm_compute; reflexivity]].
  intros mb t d G. induction G as [|s G IH]; [reflexivity|].
  simpl scan. rewrite IH. reflexivity.
Qed.

(** ** [addEvent] and the gaps *)

Lemma sched_events_app (l1 l2 : list Text.CalEvent) :
  Text.sched_events (l1 ++ l2) = Text.sched_events l1 ++ Text.sched_events l2.
Proof. unfold Text.sched_events. apply flat_map_app. Qed.

(** No gap overlaps a fixed event of a list with well-formed intervals. *)
Lemma gap_avoids_fixed (st : Settings) (now endDate : Z) (l : list Event) (g : Slot) (t : Z) :
  0 <= workingHours_start st -> workingHours_end st <= 24 ->
  Forall (fun x => ev_start x <= ev_end x) l ->
  In g (getAvailableSlots st now endDate l) -> in_slot g t ->
  forall x, In x l -> isFixed x = true -> ~ in_event x t.
Proof.
  intros Hws Hwe Hl Hg Ht x Hx Hf. unfold getAvailableSlots in Hg.
  apply filter_In in Hg as [Hg _].
  exact (proj2 (proj1 (emitted_slots_shape st now endDate l Hws Hwe Hl) g Hg) x t Hx Hf Ht).
Qed.

(** [addEvent] blocks its interval in the slots of [getAvailableSlots],
    together with the travel before it and after it when the location,
    the home address and the API key are set: no slot meets
    [[start - commuteTo, end + commuteFrom)] (a non-positive travel time
    adds no commute event). *)
Theorem addEvent_blocks_travel (st : Settings) (now endDate : Z)
    (homeAddress orsApiKey : option String.string)
    (commute : String.string -> String.string -> Z)
    (evs : list Text.CalEvent) (ev : Text.EventInput) (s e : Z) (g : Slot) (t : Z) :
  0 <= workingHours_start st -> workingHours_end st <= 24 ->
  Forall (fun x => ev_start x <= ev_end x) (Text.sched_events evs) ->
  Text.ei_start ev = Some s -> Text.ei_end ev = Some e -> s <= e ->
  In g (getAvailableSlots st now endDate
          (Text.sched_events (Text.addEvent homeAddress orsApiKey commute evs ev))) ->
  in_slot g t ->
  let '(before, after) :=
    match Text.commute_minutes homeAddress orsApiKey commute (Text.ei_location ev) with
    | Some p => p
    | None => (0, 0)
    end in
  ~ (s - Z.max 0 before * MINUTE <= t < e + Z.max 0 after * MINUTE).
Proof.
  intros Hws Hwe Hwf Hs He Hse Hg Ht.
  unfold Text.addEvent in Hg.
  destruct (Text.commute_minutes homeAddress orsApiKey commute (Text.ei_location ev))
    as [[to from]|].
  - rewrite !sched_events_app in Hg.
    unfold MINUTE in *.
    destruct (0 <? to) eqn:Hto; destruct (0 <? from) eqn:Hfrom;
      try apply Z.ltb_lt in Hto; try apply Z.ltb_ge in Hto;
      try apply Z.ltb_lt in Hfrom; try apply Z.ltb_ge in Hfrom;
      cbn [Text.sched_events flat_map Text.sched_event Text.ce_start Text.ce_end
           Text.ce_isFixed Text.ce_isCommute option_map] in Hg;
      rewrite ?Hs, ?He in Hg; cbn [option_map app] in Hg; rewrite ?app_nil_r in Hg;
      pose proof (fun HF => gap_avoids_fixed st now endDate _ g t Hws Hwe HF Hg Ht) as Key;
      specialize (Key ltac:(rewrite ?Forall_app; repeat split; try exact Hwf;
                           repeat constructor; simpl; lia));
      intros [H1 H2];
      (destruct (Z_lt_le_dec t s) as [Hlt|Hge];
       [|destruct (Z_lt_le_dec t e) as [Hlt'|Hge']]);
      try (apply (Key (mkEvent s e true false false None));
           [rewrite ?in_app_iff; simpl; tauto | reflexivity | unfold in_event; simpl; lia]);
      try (apply (Key (mkEvent (s - to * 60000) s true false true None));
           [rewrite ?in_app_iff; simpl; tauto | reflexivity | unfold in_event; simpl; lia]);
      try (apply (Key (mkEvent e (e + from * 60000) true false true None));
           [rewrite ?in_app_iff; simpl; tauto | reflexivity | unfold in_event; simpl; lia]);
      lia.
  - rewrite sched_events_app in Hg.
    cbn [Text.sched_events flat_map Text.sched_event Text.ce_start Text.ce_end
         Text.ce_isFixed Text.ce_isCommute] in Hg.
    rewrite Hs, He in Hg. rewrite app_nil_r in Hg.
    pose proof (fun HF => gap_avoids_fixed st now endDate _ g t Hws Hwe HF Hg Ht) as Key.
    specialize (Key ltac:(rewrite Forall_app; split; [exact Hwf|repeat constructor; simpl; lia])).
    intros [H1 H2].
    apply (Key (mkEvent s e true false false None));
      [rewrite in_app_iff; simpl; tauto | reflexivity | unfold in_event; simpl; lia].
Qed.

(** ** The import loop of [fetchICS] *)

(** [addEvent] keeps the events it is given and pushes the new event first. *)
Lemma addEvent_shape (homeAddress orsApiKey : option String.string)
    (commute : String.string -> String.string -> Z) (evs : list Text.CalEvent)
    (ev : Text.EventInput) :
  exists extra, Text.addEvent homeAddress orsApiKey commute evs ev =
    evs ++ Text.mkCalEvent (Text.ei_name ev) (Text.ei_start ev) (Text.ei_end ev)
             (Text.ei_location ev) true false :: extra.
Proof.
  unfold Text.addEvent.
  destruct (Text.commute_minutes homeAddress orsApiKey commute (Text.ei_location ev))
    as [[to from]|].
  - eexists. rewrite <- !app_assoc. reflexivity.
  - exists []. reflexivity.
Qed.

Lemma importEvents_grows (homeAddress orsApiKey : option String.string)
    (commute : String.string -> String.string -> Z) (l : list Text.EventInput) :
  forall evs n, exists extra,
    fst (Text.importEvents homeAddress orsApiKey commute evs l n) = evs ++ extra.
Proof.
  induction l as [|ev l IH]; intros evs n; simpl.
  - exists []. rewrite app_nil_r. reflexivity.
  - destruct (existsb _ evs); [apply IH|].
    destruct (IH (Text.addEvent homeAddress orsApiKey commute evs ev) (n + 1)) as [x Hx].
    destruct (addEvent_shape homeAddress orsApiKey commute evs ev) as [y Hy].
    rewrite Hx, Hy. eexists. rewrite <- app_assoc. reflexivity.
Qed.

Lemma stored_app (evs extra : list Text.CalEvent) (ev : Text.EventInput) :
  stored evs ev = true -> stored (evs ++ extra) ev = true.
Proof. unfold stored. rewrite existsb_app. intros ->. reflexivity. Qed.

Lemma importEvents_stored (homeAddress orsApiKey : option String.string)
    (commute : String.string -> String.string -> Z) (l : list Text.EventInput) :
  forall evs n ev, In ev l -> Text.ei_start ev <> None ->
  stored (fst (Text.importEvents homeAddress orsApiKey commute evs l n)) ev = true.
Proof.
  induction l as [|x l IH]; intros evs n ev Hin Hv; [destruct Hin|].
  simpl. fold (stored evs x).
  destruct Hin as [->|Hin].
  - destruct (stored evs ev) eqn:Hst.
    + destruct (importEvents_grows homeAddress orsApiKey commute l evs n) as [z ->].
      apply stored_app, Hst.
    + destruct (importEvents_grows homeAddress orsApiKey commute l
                  (Text.addEvent homeAddress orsApiKey commute evs ev) (n + 1)) as [z ->].
      destruct (addEvent_shape homeAddress orsApiKey commute evs ev) as [y ->].
      apply stored_app. unfold stored. rewrite existsb_app. simpl.
      rewrite String.eqb_refl. destruct (Text.ei_start ev) as [v|]; [|congruence].
      simpl. rewrite Z.eqb_refl. apply orb_true_r.
  - destruct (stored evs x); apply IH; assumption.
Qed.

Lemma importEvents_all_stored (homeAddress orsApiKey : option String.string)
    (commute : String.string -> String.string -> Z) (l : list Text.EventInput) :
  forall evs n, (forall ev, In ev l -> stored evs ev = true) ->
  Text.importEvents homeAddress orsApiKey commute evs l n = (evs, n).
Proof.
  induction l as [|x l IH]; intros evs n H; simpl; [reflexivity|].
  fold (stored evs x). rewrite (H x (or_introl eq_refl)).
  apply IH. intros ev Hin. apply H. right. exact Hin.
Qed.

(** Importing the same events again adds nothing and leaves the events as
    they are, when every imported start is a valid date. *)
Theorem import_again_adds_nothing (homeAddress orsApiKey : option String.string)
    (commute : String.string -> String.string -> Z)
    (evs : list Text.CalEvent) (l : list Text.EventInput) :
  Forall (fun ev => Text.ei_start ev <> None) l ->
  let evs1 := fst (Text.importEvents homeAddress orsApiKey commute evs l 0) in
  Text.importEvents homeAddress orsApiKey commute evs1 l 0 = (evs1, 0).
Proof.
  intros Hv evs1. apply importEvents_all_stored. intros ev Hin.
  apply importEvents_stored; [exact Hin|]. rewrite Forall_forall in Hv. auto.
Qed.

Lemma stored_none (evs : list Text.CalEvent) (ev : Text.EventInput) :
  Text.ei_start ev = None -> stored evs ev = false.
Proof.
  intros Hev. unfold stored. rewrite Hev. induction evs as [|x evs IHe]; simpl; [reflexivity|].
  rewrite IHe. destruct (Text.ce_start x); simpl; rewrite andb_false_r; reflexivity.
Qed.

(** An event whose start is an invalid date never counts as already
    stored ([NaN === NaN] is false): in any import, each such event is
    added to the events, after those already there, and counted. *)
Theorem import_invalid_start_always_added (homeAddress orsApiKey : option String.string)
    (commute : String.string -> String.string -> Z)
    (evs : list Text.CalEvent) (l : list Text.EventInput) (n : Z) :
  exists extra,
    fst (Text.importEvents homeAddress orsApiKey commute evs l n) = evs ++ extra /\
    (forall ev, In ev l -> Text.ei_start ev = None ->
       In (Text.mkCalEvent (Text.ei_name ev) None (Text.ei_end ev) (Text.ei_location ev)
             true false) extra) /\
    n + Z.of_nat (length (filter (fun ev => match Text.ei_start ev with
                                            | None => true | Some _ => false end) l))
    <= snd (Text.importEvents homeAddress orsApiKey commute evs l n).
Proof.
  revert evs n. induction l as [|x l IH]; intros evs n; cbn [Text.importEvents].
  - exists []. rewrite app_nil_r. split; [reflexivity|]. split; [intros _ []|simpl; lia].
  - fold (stored evs x). destruct (stored evs x) eqn:Hst.
    + destruct (IH evs n) as (extra & H1 & H2 & H3).
      destruct (Text.ei_start x) as [v|] eqn:Hx.
      2:{ rewrite (stored_none evs x Hx) in Hst. discriminate. }
      exists extra. split; [exact H1|]. split; [|cbn [filter]; rewrite Hx; exact H3].
      intros ev [<-|Hin] Hn; [congruence|]. exact (H2 ev Hin Hn).
    + destruct (IH (Text.addEvent homeAddress orsApiKey commute evs x) (n + 1))
        as (extra & H1 & H2 & H3).
      destruct (addEvent_shape homeAddress orsApiKey commute evs x) as [y Hy].
      eexists. split; [rewrite H1, Hy, <- app_assoc; reflexivity|]. split.
      * intros ev [<-|Hin] Hn.
        -- rewrite Hn. left. reflexivity.
        -- right. apply in_or_app. right. exact (H2 ev Hin Hn).
      * cbn [filter]. destruct (Text.ei_start x); cbn [length]; lia.
Qed.

(** ** The two copies of [getAvailableSlots] *)

Lemma ForallOrdPairs_filter {A : Type} (R : A -> A -> Prop) (f : A -> bool) (l : list A) :
  ForallOrdPairs R l -> ForallOrdPairs R (filter f l).
Proof.
  induction 1 as [|a l Ha Hl IH]; simpl; [constructor|].
  destruct (f a); [|exact IH]. constructor; [|exact IH].
  rewrite Forall_forall in Ha |- *. intros x Hx. apply filter_In in Hx as [Hx _]. auto.
Qed.

Lemma ForallOrdPairs_perm {A : Type} (R : A -> A -> Prop) (l l' : list A) :
  (forall a b, R a b -> R b a) -> Permutation l l' ->
  ForallOrdPairs R l -> ForallOrdPairs R l'.
Proof.
  intros Hsym Hp. induction Hp as [|x l l' Hp IH|x y l|l l' l'' H1 IH1 H2 IH2]; intros H.
  - exact H.
  - inversion H as [|? ? Hx Hl]; subst. constructor; [|auto].
    rewrite Forall_forall in Hx |- *. intros z Hz. apply Hx.
    apply (Permutation_in _ (Permutation_sym Hp)), Hz.
  - inversion H as [|? ? Hy Hl]; subst. inversion Hl as [|? ? Hx Hl']; subst.
    inversion Hy as [|? ? Hyx Hyl]; subst.
    constructor; [constructor; [apply Hsym, Hyx|exact Hx]|].
    constructor; [exact Hyl|exact Hl'].
  - auto.
Qed.

Lemma sweep_v1_eq (ptr : Z) (es : list Event) :
  StronglySorted (fun a b => ev_start a <= ev_start b) es ->
  Forall (fun x => ev_start x < ev_end x) es ->
  ForallOrdPairs (fun a b => ev_end a <= ev_start b \/ ev_end b <= ev_start a) es ->
  Forall (fun x => ptr <= ev_end x) es ->
  sweep_v1 ptr es = sweep ptr es.
Proof.
  revert ptr. induction es as [|e es IH]; intros ptr Hs Hpos Hap Hptr; [reflexivity|].
  apply StronglySorted_inv in Hs as [Hs Hse].
  inversion Hpos as [|? ? He Hpos']; subst.
  inversion Hap as [|? ? Hae Hap']; subst.
  inversion Hptr as [|? ? Hpe _]; subst.
  simpl. replace (Z.max ptr (ev_end e)) with (ev_end e) by lia.
  rewrite IH; [reflexivity|assumption|assumption|assumption|].
  rewrite Forall_forall in Hse, Hae, Hpos' |- *. intros x Hx.
  specialize (Hse x Hx). specialize (Hae x Hx). specialize (Hpos' x Hx).
  lia.
Qed.

Lemma day_slots_v1_eq (st : Settings) (startDate : Z) (fixedEvents : list Event) (cur : Z) :
  Forall (fun x => ev_start x < ev_end x) fixedEvents ->
  ForallOrdPairs (fun a b => ev_end a <= ev_start b \/ ev_end b <= ev_start a) fixedEvents ->
  day_slots_v1 st startDate fixedEvents cur = day_slots st startDate fixedEvents cur.
Proof.
  intros Hpos Hap. unfold day_slots_v1, day_slots.
  destruct (isWorkDay st cur); [|reflexivity].
  destruct (effectiveStart_of st startDate cur <? dayEnd_of st cur); [|reflexivity].
  set (F := filter _ fixedEvents).
  rewrite sweep_v1_eq; [reflexivity|apply dayEvents_sorted| | |].
  - rewrite Forall_forall in Hpos |- *. intros x Hx.
    apply (Permutation_in _ (sort_cmp_perm eventCmp F)) in Hx.
    apply filter_In in Hx as [Hx _]. auto.
  - apply (ForallOrdPairs_perm _ F); [intros; lia| |].
    + apply Permutation_sym, sort_cmp_perm.
    + apply ForallOrdPairs_filter, Hap.
  - apply Forall_forall. intros x Hx.
    apply (Permutation_in _ (sort_cmp_perm eventCmp F)) in Hx.
    apply filter_In in Hx as [_ Hx]. apply andb_true_iff in Hx as [_ Hx].
    apply Z.ltb_lt in Hx. lia.
Qed.

Lemma days_loop_v1_eq (st : Settings) (startDate endDate : Z) (fixedEvents : list Event)
    (fuel : nat) (cur : Z) :
  Forall (fun x => ev_start x < ev_end x) fixedEvents ->
  ForallOrdPairs (fun a b => ev_end a <= ev_start b \/ ev_end b <= ev_start a) fixedEvents ->
  days_loop_v1 st startDate endDate fixedEvents fuel cur
  = days_loop st startDate endDate fixedEvents fuel cur.
Proof.
  intros Hpos Hap. revert cur. induction fuel as [|f IH]; intros cur; [reflexivity|].
  simpl. rewrite day_slots_v1_eq, IH by assumption. reflexivity.
Qed.

(** With no task among the events and fixed events that do not overlap,
    [getAvailableSlots] of the first [Calendar] class returns exactly the
    slots of the second copy that are at least [minBreakBetweenTasks + 15]
    minutes long.  Both [autoScheduleTasks] remove the task events before
    calling it. *)
Theorem getAvailableSlots_copies_agree (st : Settings) (startDate endDate : Z)
    (evs : list Event) :
  Forall (fun x => isTask x = false) evs ->
  Forall (fun x => ev_start x < ev_end x) (filter isFixed evs) ->
  ForallOrdPairs (fun a b => ev_end a <= ev_start b \/ ev_end b <= ev_start a)
    (filter isFixed evs) ->
  getAvailableSlots st startDate endDate evs
  = filter (long_enough st) (getAvailableSlots_v1 st startDate endDate evs).
Proof.
  intros Hnt Hpos Hap. unfold getAvailableSlots_v1, getAvailableSlots, emitted_slots.
  replace (filter (fun e => isFixed e || isTask e) evs) with (filter isFixed evs).
  2:{ apply filter_ext_in. intros x Hx. rewrite Forall_forall in Hnt.
      rewrite (Hnt x Hx), orb_false_r. reflexivity. }
  rewrite days_loop_v1_eq by assumption.
  set (L := days_loop _ _ _ _ _ _). clearbody L.
  induction L as [|g L IH]; simpl; [reflexivity|].
  destruct (long_enough st g) eqn:E.
  - assert (E' : (minBreakBetweenTasks st * MINUTE <=? slot_end g - slot_start g) = true).
    { unfold long_enough in E. apply Z.leb_le in E. apply Z.leb_le. unfold MINUTE in *. lia. }
    rewrite E'. simpl. rewrite E, IH. reflexivity.
  - destruct (_ <=? _); simpl; [rewrite E|]; exact IH.
Qed.

(** ** Writing and reading iCalendar text *)

Module IcsFacts.
Import Strings.String Strings.Ascii.
Local Open Scope string_scope.

Lemma sapp_assoc (a b c : string) : (a ++ b) ++ c = a ++ (b ++ c).
Proof. induction a as [|x a IH]; simpl; [reflexivity|]. rewrite IH. reflexivity. Qed.

Lemma sapp_nil_r (a : string) : a ++ "" = a.
Proof. induction a as [|x a IH]; simpl; [reflexivity|]. rewrite IH. reflexivity. Qed.

Lemma prefix_app_sep (k a b : string) (c : ascii) :
  prefix k a = false -> ~ In c (list_ascii_of_string k) ->
  prefix k (a ++ String c b) = false.
Proof.
  revert k. induction a as [|y a IH]; intros k Hp Hc.
  - destruct k as [|x k]; [discriminate|]. cbn [prefix append].
    destruct (ascii_dec x c) as [->|]; [|reflexivity]. simpl in Hc. tauto.
  - destruct k as [|x k]; [discriminate|]. cbn [prefix append] in Hp |- *.
    destruct (ascii_dec x y); [|reflexivity]. apply IH; [exact Hp|].
    intros H. apply Hc. right. exact H.
Qed.

Lemma includes_cons (k : string) (y : ascii) (s : string) :
  Text.includes k (String y s) = prefix k (String y s) || Text.includes k s.
Proof. reflexivity. Qed.

Lemma includes_app_r (k a b : string) :
  Text.includes k b = true -> Text.includes k (a ++ b) = true.
Proof.
  induction a as [|y a IH]; intros H; [exact H|].
  simpl append. rewrite includes_cons, IH by exact H. apply orb_true_r.
Qed.

Section Field.
Variables (k n b : string) (c : ascii).
Hypothesis Hn : Text.includes k n = false.
Hypothesis Hc : ~ In c (list_ascii_of_string k).

Lemma match_key_field : Text.match_key k (n ++ String c b) = Text.match_key k (String c b).
Proof.
  clear -Hn Hc. induction n as [|y n' IH]; [reflexivity|].
  rewrite includes_cons in Hn. apply orb_false_iff in Hn as [H1 H2].
  simpl append. cbn [Text.match_key]. pose proof (prefix_app_sep k (String y n') b c H1 Hc) as P. simpl append in P. rewrite P.
  apply IH, H2.
Qed.

Lemma dt_match_field : Text.dt_match k (n ++ String c b) = Text.dt_match k (String c b).
Proof.
  clear -Hn Hc. induction n as [|y n' IH]; [reflexivity|].
  rewrite includes_cons in Hn. apply orb_false_iff in Hn as [H1 H2].
  simpl append. cbn [Text.dt_match]. unfold Text.dt_at at 1.
  pose proof (prefix_app_sep k (String y n') b c H1 Hc) as P. simpl append in P. rewrite P.
  apply IH, H2.
Qed.

Lemma split_go_field (cur : string) :
  Text.split_go k (n ++ String c b) 0 cur = Text.split_go k (String c b) 0 (cur ++ n).
Proof.
  clear -Hn Hc. revert cur. induction n as [|y n' IH]; intros cur.
  - rewrite sapp_nil_r. reflexivity.
  - rewrite includes_cons in Hn. apply orb_false_iff in Hn as [H1 H2].
    simpl append. cbn [Text.split_go].
    pose proof (prefix_app_sep k (String y n') b c H1 Hc) as P. simpl append in P. rewrite P.
    rewrite IH by exact H2. rewrite sapp_assoc. reflexivity.
Qed.
End Field.

Lemma take_line_field (n b : string) (c : ascii) :
  IcsWrite.one_line n -> Text.is_line_terminator c = true ->
  Text.take_line (n ++ String c b) = n.
Proof.
  intros Hn Hc. induction n as [|y n' IH]; simpl; [rewrite Hc; reflexivity|].
  rewrite (Hn y (or_introl eq_refl)). f_equal. apply IH.
  intros x Hx. apply Hn. right. exact Hx.
Qed.


Lemma prefix_nil (s : string) : prefix "" s = true.
Proof. destruct s; reflexivity. Qed.

Lemma summary_of_body (v : IcsWrite.VEvent) (T : string) :
  IcsWrite.well_formed v ->
  Text.match_key "SUMMARY:" (IcsWrite.vevent_body v ++ T) = Some (IcsWrite.v_summary v).
Proof.
  intros Hw. destruct v as [n s e loc]. unfold IcsWrite.well_formed in Hw. simpl in Hw |- *.
  destruct Hw as (Hn & Hs & He & _).
  unfold IcsWrite.vevent_body, IcsWrite.CRLF. cbn [IcsWrite.v_summary IcsWrite.v_dtstart IcsWrite.v_dtend IcsWrite.v_location].
  rewrite !sapp_assoc. simpl. rewrite prefix_nil. rewrite take_line_field; auto.
Qed.


Ltac not_in_key := simpl; intuition discriminate.

Lemma dtstart_of_body (v : IcsWrite.VEvent) (T : string) :
  IcsWrite.well_formed v ->
  Text.dt_match "DTSTART" (IcsWrite.vevent_body v ++ T) = Some (IcsWrite.v_dtstart v).
Proof.
  intros Hw. destruct v as [n s e loc]. unfold IcsWrite.well_formed in Hw. simpl in Hw |- *.
  destruct Hw as (Hn & Hs & He & Bn & Bs & Be & Sn & En & Es & Ln & Ls & Le & Hloc & Hne).
  unfold IcsWrite.vevent_body, IcsWrite.CRLF.
  cbn [IcsWrite.v_summary IcsWrite.v_dtstart IcsWrite.v_dtend IcsWrite.v_location].
  rewrite !sapp_assoc. simpl.
  rewrite dt_match_field; [|exact Sn|not_in_key]. simpl.
  rewrite sapp_assoc. simpl. rewrite take_line_field; auto.
Qed.


Lemma dtend_of_body (v : IcsWrite.VEvent) (T : string) :
  IcsWrite.well_formed v ->
  Text.dt_match "DTEND" (IcsWrite.vevent_body v ++ T) = Some (IcsWrite.v_dtend v).
Proof.
  intros Hw. destruct v as [n s e loc]. unfold IcsWrite.well_formed in Hw. simpl in Hw |- *.
  destruct Hw as (Hn & Hs & He & Bn & Bs & Be & Sn & En & Es & Ln & Ls & Le & Hloc & Hne).
  unfold IcsWrite.vevent_body, IcsWrite.CRLF.
  cbn [IcsWrite.v_summary IcsWrite.v_dtstart IcsWrite.v_dtend IcsWrite.v_location].
  rewrite !sapp_assoc. simpl.
  rewrite dt_match_field; [|exact En|not_in_key]. simpl.
  rewrite sapp_assoc. simpl.
  rewrite dt_match_field; [|exact Es|not_in_key]. simpl.
  rewrite sapp_assoc. simpl. rewrite take_line_field; auto.
Qed.

Lemma location_of_body (v : IcsWrite.VEvent) (T : string) :
  IcsWrite.well_formed v -> Text.match_key "LOCATION:" T = None ->
  Text.match_key "LOCATION:" (IcsWrite.vevent_body v ++ T) = IcsWrite.v_location v.
Proof.
  intros Hw HT. destruct v as [n s e loc]. unfold IcsWrite.well_formed in Hw. simpl in Hw |- *.
  destruct Hw as (Hn & Hs & He & Bn & Bs & Be & Sn & En & Es & Ln & Ls & Le & Hloc & Hne).
  unfold IcsWrite.vevent_body, IcsWrite.CRLF.
  cbn [IcsWrite.v_summary IcsWrite.v_dtstart IcsWrite.v_dtend IcsWrite.v_location].
  rewrite !sapp_assoc. simpl.
  rewrite match_key_field; [|exact Ln|not_in_key]. simpl.
  rewrite sapp_assoc. simpl.
  rewrite match_key_field; [|exact Ls|not_in_key]. simpl.
  rewrite sapp_assoc. simpl.
  rewrite match_key_field; [|exact Le|not_in_key]. simpl.
  destruct loc as [x|]; simpl.
  - rewrite prefix_nil. rewrite !sapp_assoc. simpl. rewrite take_line_field; auto.
    apply Hloc.
  - exact HT.
Qed.

Lemma end_in_body (v : IcsWrite.VEvent) (T : string) :
  Text.includes "END:VEVENT" (IcsWrite.vevent_body v ++ T) = true.
Proof.
  assert (E : IcsWrite.vevent_body v =
    (IcsWrite.CRLF ++ "SUMMARY:" ++ IcsWrite.v_summary v ++ IcsWrite.CRLF ++ "DTSTART:" ++
     IcsWrite.v_dtstart v ++ IcsWrite.CRLF ++ "DTEND:" ++ IcsWrite.v_dtend v ++
     IcsWrite.CRLF ++ IcsWrite.location_line (IcsWrite.v_location v)) ++
    ("END:VEVENT" ++ IcsWrite.CRLF)).
  { unfold IcsWrite.vevent_body. rewrite !sapp_assoc. reflexivity. }
  rewrite E, sapp_assoc. apply includes_app_r. reflexivity.
Qed.


Lemma parse_block_body (v : IcsWrite.VEvent) (T : string) :
  IcsWrite.well_formed v -> Text.match_key "LOCATION:" T = None ->
  Text.parse_block (IcsWrite.vevent_body v ++ T) = Some (IcsWrite.expected v).
Proof.
  intros Hw HT. unfold Text.parse_block.
  rewrite end_in_body, summary_of_body, dtstart_of_body, dtend_of_body, location_of_body
    by assumption.
  cbv zeta. cbn [option_map].
  destruct Hw as (_ & _ & _ & _ & _ & _ & _ & _ & _ & _ & _ & _ & _ & Hne).
  destruct (String.eqb (Text.trim (IcsWrite.v_summary v)) "") eqn:E.
  - apply String.eqb_eq in E. contradiction.
  - reflexivity.
Qed.

Lemma prefix_app_clear (k a b : string) :
  prefix k a = false -> prefix a k = false -> prefix k (a ++ b) = false.
Proof.
  revert k. induction a as [|y a IH]; intros k H1 H2.
  - rewrite prefix_nil in H2. discriminate.
  - destruct k as [|x k]; [discriminate|]. cbn [prefix append] in H1, H2 |- *.
    destruct (ascii_dec x y) as [->|]; [|reflexivity].
    destruct (ascii_dec y y); [|congruence]. apply IH; assumption.
Qed.

Lemma split_go_clear (k a b cur : string) :
  IcsWrite.starts_clear k a = true ->
  Text.split_go k (a ++ b) 0 cur = Text.split_go k b 0 (cur ++ a).
Proof.
  revert cur. induction a as [|y a IH]; intros cur H.
  - rewrite sapp_nil_r. reflexivity.
  - cbn [IcsWrite.starts_clear] in H. apply andb_true_iff in H as [H H3].
    apply andb_true_iff in H as [H1 H2]. apply negb_true_iff in H1, H2.
    change (String y a ++ b) with (String y (a ++ b)). cbn [Text.split_go].
    pose proof (prefix_app_clear k (String y a) b H1 H2) as P. simpl append in P. rewrite P.
    rewrite IH by exact H3. rewrite sapp_assoc. reflexivity.
Qed.

Lemma split_go_line (k n b cur : string) :
  Text.includes k n = false -> ~ In Text.CR (list_ascii_of_string k) ->
  Text.split_go k (n ++ (IcsWrite.CRLF ++ b)) 0 cur
  = Text.split_go k (IcsWrite.CRLF ++ b) 0 (cur ++ n).
Proof. intros Hn Hc. exact (split_go_field k n (String Text.LF b) Text.CR Hn Hc cur). Qed.

Ltac split_step :=
  first [ rewrite split_go_clear by reflexivity
        | rewrite split_go_line by (assumption || not_in_key) ].

Lemma split_body (v : IcsWrite.VEvent) (X cur : string) :
  IcsWrite.well_formed v ->
  Text.split_go "BEGIN:VEVENT" (IcsWrite.vevent_body v ++ X) 0 cur
  = Text.split_go "BEGIN:VEVENT" X 0 (cur ++ IcsWrite.vevent_body v).
Proof.
  intros Hw. destruct v as [n s e loc]. unfold IcsWrite.well_formed in Hw. simpl in Hw.
  destruct Hw as (Hn & Hs & He & Bn & Bs & Be & Sn & En & Es & Ln & Ls & Le & Hloc & Hne).
  unfold IcsWrite.vevent_body.
  cbn [IcsWrite.v_summary IcsWrite.v_dtstart IcsWrite.v_dtend IcsWrite.v_location].
  destruct loc as [x|]; cbn [IcsWrite.location_line]; [destruct Hloc as [_ Bx]|];
    rewrite !sapp_assoc; repeat split_step; f_equal; rewrite ?sapp_assoc; reflexivity.
Qed.




Lemma prefix_self (k b : string) : prefix k (k ++ b) = true.
Proof.
  induction k as [|x k IH]; [apply prefix_nil|]. cbn [prefix append].
  destruct (ascii_dec x x); [exact IH|congruence].
Qed.

Lemma split_go_skip (k a b acc : string) :
  Text.split_go k (a ++ b) (length a) acc = Text.split_go k b 0 acc.
Proof. induction a as [|y a IH]; [reflexivity|]. exact IH. Qed.

Lemma split_go_sep (k b cur : string) :
  k <> "" -> Text.split_go k (k ++ b) 0 cur = cur :: Text.split_go k b 0 "".
Proof.
  intros Hk. destruct k as [|c k']; [congruence|].
  change (String c k' ++ b) with (String c (k' ++ b)). cbn [Text.split_go].
  pose proof (prefix_self (String c k') b) as P. simpl append in P. rewrite P.
  f_equal. exact (split_go_skip (String c k') k' b "").
Qed.

Lemma split_go_clear_end (k a cur : string) :
  IcsWrite.starts_clear k a = true -> Text.split_go k a 0 cur = [cur ++ a].
Proof.
  intros H. pose proof (split_go_clear k a "" cur H) as E.
  rewrite sapp_nil_r in E. exact E.
Qed.

Lemma split_vevent (v : IcsWrite.VEvent) (X cur : string) :
  IcsWrite.well_formed v ->
  Text.split_go "BEGIN:VEVENT" (IcsWrite.vevent v ++ X) 0 cur
  = cur :: Text.split_go "BEGIN:VEVENT" X 0 (IcsWrite.vevent_body v).
Proof.
  intros Hw. unfold IcsWrite.vevent. rewrite sapp_assoc, split_go_sep by discriminate.
  rewrite split_body by exact Hw. reflexivity.
Qed.

Lemma parse_blocks (vs : list IcsWrite.VEvent) (v : IcsWrite.VEvent) :
  Forall IcsWrite.well_formed (v :: vs) ->
  flat_map (fun block => match Text.parse_block block with Some e => [e] | None => [] end)
    (Text.split_go "BEGIN:VEVENT"
       (fold_right append "" (map IcsWrite.vevent vs) ++ ("END:VCALENDAR" ++ IcsWrite.CRLF))
       0 (IcsWrite.vevent_body v))
  = map IcsWrite.expected (v :: vs).
Proof.
  revert v. induction vs as [|v' vs IH]; intros v Hall.
  - inversion Hall as [|? ? Hv _]; subst.
    change ("" ++ ("END:VCALENDAR" ++ IcsWrite.CRLF)) with ("END:VCALENDAR" ++ IcsWrite.CRLF).
    rewrite split_go_clear_end by reflexivity. cbn [flat_map].
    rewrite parse_block_body by (exact Hv || reflexivity). reflexivity.
  - inversion Hall as [|? ? Hv Hrest]; subst.
    cbn [map fold_right]. rewrite sapp_assoc.
    inversion Hrest as [|? ? Hv' _]; subst.
    rewrite split_vevent by exact Hv'. cbn [flat_map].
    rewrite <- (sapp_nil_r (IcsWrite.vevent_body v)) at 1.
    rewrite parse_block_body by (exact Hv || reflexivity).
    rewrite IH by exact Hrest. reflexivity.
Qed.

(** [parseICS] reads back every event of a calendar written with one
    [VEVENT] block per event. *)
Theorem parseICS_vcalendar (vs : list IcsWrite.VEvent) :
  Forall IcsWrite.well_formed vs ->
  Text.parseICS (IcsWrite.vcalendar vs) = map IcsWrite.expected vs.
Proof.
  intros Hall. unfold Text.parseICS, IcsWrite.vcalendar, Text.str_split.
  rewrite split_go_clear by reflexivity. rewrite split_go_clear by reflexivity.
  destruct vs as [|v vs].
  - change (fold_right append "" (map IcsWrite.vevent []) ++ ("END:VCALENDAR" ++ IcsWrite.CRLF))
      with ("END:VCALENDAR" ++ IcsWrite.CRLF).
    rewrite split_go_clear_end by reflexivity. reflexivity.
  - inversion Hall as [|? ? Hv _]; subst.
    cbn [map fold_right]. rewrite sapp_assoc, split_vevent by exact Hv.
    cbn [tl]. apply parse_blocks, Hall.
Qed.


Lemma includes_single_clear (c : ascii) (a : string) :
  Text.includes (String c "") a = false -> IcsWrite.starts_clear (String c "") a = true.
Proof.
  induction a as [|y a IH]; intros H; [reflexivity|].
  rewrite includes_cons in H. apply orb_false_iff in H as [H1 H2].
  cbn [IcsWrite.starts_clear]. rewrite H1, IH by exact H2.
  destruct a as [|z a]; cbn [prefix] in H1 |- *;
    destruct (ascii_dec y c); destruct (ascii_dec c y); try congruence; reflexivity.
Qed.

Lemma endsWith_app_r (k a b : string) :
  Text.endsWith k b = true -> Text.endsWith k (a ++ b) = true.
Proof.
  induction a as [|y a IH]; intros H; [exact H|].
  change (String y a ++ b) with (String y (a ++ b)). simpl Text.endsWith.
  rewrite IH by exact H. apply orb_true_r.
Qed.

Lemma substring_app_l (a b : string) : substring 0 (length a) (a ++ b) = a.
Proof. induction a as [|y a IH]; simpl; [destruct b; reflexivity|]. rewrite IH. reflexivity. Qed.

Lemma substring_app_shift (a b : string) (i n : nat) :
  substring (length a + i) n (a ++ b) = substring i n b.
Proof. induction a as [|y a IH]; [reflexivity|]. exact IH. Qed.

Lemma substring_app_r0 (a b : string) (n : nat) :
  (n <= length a)%nat -> substring 0 n (a ++ b) = substring 0 n a.
Proof.
  revert n. induction a as [|y a IH]; intros n Hn.
  - simpl in Hn. destruct n; [destruct b|]; [reflexivity|reflexivity|lia].
  - destruct n; [destruct b; reflexivity|]. simpl in Hn |- *. rewrite IH by lia. reflexivity.
Qed.

Lemma substring_all (a : string) : substring 0 (length a) a = a.
Proof. rewrite <- (sapp_nil_r a) at 2. rewrite substring_app_l. reflexivity. Qed.

(** The three parts of a slice [YYYY], [MM], [DD] of an 8-character date. *)
Lemma slices_8 (y m d b : string) :
  length y = 4%nat -> length m = 2%nat -> length d = 2%nat ->
  Text.slice (y ++ m ++ d ++ b) 0 4 = y /\ Text.slice (y ++ m ++ d ++ b) 4 6 = m /\
  Text.slice (y ++ m ++ d ++ b) 6 8 = d.
Proof.
  intros Hy Hm Hd. unfold Text.slice. simpl Nat.sub.
  split; [|split].
  - rewrite <- Hy. apply substring_app_l.
  - change 4%nat with (4 + 0)%nat. rewrite <- Hy at 1. rewrite substring_app_shift.
    rewrite <- Hm. apply substring_app_l.
  - change 6%nat with (4 + 2)%nat. rewrite <- Hy at 1. rewrite substring_app_shift.
    change 2%nat with (2 + 0)%nat at 1. rewrite <- Hm at 1. rewrite substring_app_shift.
    rewrite <- Hd. apply substring_app_l.
Qed.

Lemma slices_6 (h i s b : string) :
  length h = 2%nat -> length i = 2%nat -> length s = 2%nat ->
  Text.slice (h ++ i ++ s ++ b) 0 2 = h /\ Text.slice (h ++ i ++ s ++ b) 2 4 = i /\
  Text.slice (h ++ i ++ s ++ b) 4 6 = s.
Proof.
  intros Hh Hi Hs. unfold Text.slice. simpl Nat.sub.
  split; [|split].
  - rewrite <- Hh. apply substring_app_l.
  - change 2%nat with (2 + 0)%nat at 1. rewrite <- Hh at 1. rewrite substring_app_shift.
    rewrite <- Hi. apply substring_app_l.
  - change 4%nat with (2 + 2)%nat. rewrite <- Hh at 1. rewrite substring_app_shift.
    change 2%nat with (2 + 0)%nat at 1. rewrite <- Hi at 1. rewrite substring_app_shift.
    rewrite <- Hs. apply substring_app_l.
Qed.


Lemma includes_self (k b : string) : k <> "" -> Text.includes k (k ++ b) = true.
Proof.
  intros Hk. destruct k as [|c k']; [congruence|].
  change (String c k' ++ b) with (String c (k' ++ b)). rewrite includes_cons.
  pose proof (prefix_self (String c k') b) as P. simpl append in P. rewrite P. reflexivity.
Qed.

Lemma includes_single_app (c : ascii) (a b : string) :
  Text.includes (String c "") (a ++ b)
  = Text.includes (String c "") a || Text.includes (String c "") b.
Proof.
  induction a as [|y a IH]; [destruct b; reflexivity|].
  change (String y a ++ b) with (String y (a ++ b)). rewrite !includes_cons, IH.
  cbn [prefix]. destruct (ascii_dec c y); [rewrite !prefix_nil|]; reflexivity.
Qed.

Lemma slength_app (a b : string) : length (a ++ b) = (length a + length b)%nat.
Proof. induction a as [|y a IH]; simpl; [reflexivity|]. rewrite IH. reflexivity. Qed.

Ltac clear_T := apply includes_single_clear; assumption.

(** [parseICSTime] rewrites the basic ICS forms as the ISO forms handed to
    [new Date]: [YYYYMMDDTHHMMSSZ] becomes [YYYY-MM-DDTHH:MM:SSZ] and
    [YYYYMMDD] becomes [YYYY-MM-DD]. *)
Theorem parseICSTime_iso (y m d hh mm ss : string) :
  length y = 4%nat -> length m = 2%nat -> length d = 2%nat ->
  length hh = 2%nat -> length mm = 2%nat -> length ss = 2%nat ->
  Text.includes "T" y = false -> Text.includes "T" m = false -> Text.includes "T" d = false ->
  Text.includes "T" hh = false -> Text.includes "T" mm = false -> Text.includes "T" ss = false ->
  Text.parseICSTime (y ++ m ++ d ++ "T" ++ hh ++ mm ++ ss ++ "Z")
  = y ++ "-" ++ m ++ "-" ++ d ++ "T" ++ hh ++ ":" ++ mm ++ ":" ++ ss ++ "Z" /\
  Text.parseICSTime (y ++ m ++ d) = y ++ "-" ++ m ++ "-" ++ d.
Proof.
  intros Ly Lm Ld Lh Li Ls Ty Tm Td Th Ti Ts. split.
  - unfold Text.parseICSTime.
    replace (Text.includes "T" (y ++ m ++ d ++ "T" ++ hh ++ mm ++ ss ++ "Z")) with true
      by (symmetry; do 3 apply includes_app_r; apply includes_self; discriminate).
    replace (Text.endsWith "Z" (y ++ m ++ d ++ "T" ++ hh ++ mm ++ ss ++ "Z")) with true
      by (symmetry; do 7 apply endsWith_app_r; reflexivity).
    cbn [andb]. unfold Text.str_split.
    rewrite (split_go_clear "T" y) by clear_T. rewrite (split_go_clear "T" m) by clear_T.
    rewrite (split_go_clear "T" d) by clear_T. rewrite split_go_sep by discriminate.
    rewrite (split_go_clear "T" hh) by clear_T. rewrite (split_go_clear "T" mm) by clear_T.
    rewrite (split_go_clear "T" ss) by clear_T. rewrite split_go_clear_end by reflexivity.
    cbn [nth]. change ("" ++ y) with y. change ("" ++ hh) with hh. rewrite !sapp_assoc.
    destruct (slices_8 y m d "" Ly Lm Ld) as (S1 & S2 & S3). rewrite sapp_nil_r in S1, S2, S3.
    destruct (slices_6 hh mm ss "Z" Lh Li Ls) as (S4 & S5 & S6).
    rewrite S1, S2, S3, S4, S5, S6. reflexivity.
  - unfold Text.parseICSTime.
    rewrite !includes_single_app, Ty, Tm, Td. cbn [orb andb].
    rewrite !slength_app, Ly, Lm, Ld. cbn [Nat.eqb].
    destruct (slices_8 y m d "" Ly Lm Ld) as (S1 & S2 & S3). rewrite sapp_nil_r in S1, S2, S3.
    rewrite S1, S2, S3. reflexivity.
Qed.

End IcsFacts.

(** ** Numbers in settings and task descriptions *)

Module NumFacts.
Import Strings.String Strings.Ascii.

Lemma digit_char_facts (d : Z) :
  0 <= d < 10 ->
  Text.digit_value 10 (Decimal.digit_char d) = Some d /\
  Text.is_ws (Decimal.digit_char d) = false /\
  Decimal.digit_char d <> "-"%char /\ Decimal.digit_char d <> "+"%char /\
  Decimal.digit_char d <> ":"%char /\ Decimal.digit_char d <> "x"%char /\
  Decimal.digit_char d <> "X"%char.
Proof.
  intros Hd.
  assert (d = 0 \/ d = 1 \/ d = 2 \/ d = 3 \/ d = 4 \/ d = 5 \/ d = 6 \/ d = 7 \/ d = 8 \/ d = 9)
    as H by lia.
  repeat destruct H as [->|H]; subst; vm_compute; repeat split; discriminate.
Qed.

(** [read_digits] on a numeral followed by a non-digit. *)
Lemma read_digits_numeral (ds : list Z) (t : string) (a : Z) :
  Forall (fun d => 0 <= d < 10) ds ->
  (t = EmptyString \/ exists c r, t = String c r /\ Text.digit_value 10 c = None) ->
  Text.read_digits 10 (Decimal.digits_string ds ++ t) (Some a)
  = Some (fold_left (fun a d => a * 10 + d) ds a).
Proof.
  intros Hds Ht. revert a. induction Hds as [|d ds Hd Hds IH]; intros a; simpl.
  - destruct Ht as [->|[c [r [-> Hc]]]]; simpl; [reflexivity|]. rewrite Hc. reflexivity.
  - destruct (digit_char_facts d Hd) as [-> _]. apply IH.
Qed.

Lemma prefix_0x_numeral (d : Z) (s : string) :
  0 <= d < 10 ->
  (forall c r, s = String c r -> c <> "x"%char /\ c <> "X"%char) ->
  prefix "0x" (String (Decimal.digit_char d) s) = false /\
  prefix "0X" (String (Decimal.digit_char d) s) = false.
Proof.
  intros Hd Hs. cbn [prefix].
  destruct (ascii_dec "0" (Decimal.digit_char d)); [|split; reflexivity].
  destruct s as [|c r]; [split; reflexivity|]. cbn [prefix].
  destruct (Hs c r eq_refl) as [Hx HX].
  destruct (ascii_dec "x" c) as [E|]; [congruence|].
  destruct (ascii_dec "X" c) as [E|]; [congruence|]. split; reflexivity.
Qed.

(** [parseInt] of a numeral followed by a character that is neither a
    digit nor [x]/[X] reads the numeral. *)
Lemma parseInt_numeral (ds : list Z) (t : string) :
  ds <> [] -> Forall (fun d => 0 <= d < 10) ds ->
  (t = EmptyString \/ exists c r, t = String c r /\ Text.digit_value 10 c = None /\
                                   c <> "x"%char /\ c <> "X"%char) ->
  Text.parseInt (Decimal.digits_string ds ++ t) = Some (Decimal.digits_value ds).
Proof.
  intros Hne Hds Ht.
  destruct ds as [|d ds]; [congruence|].
  pose proof Hds as Hds'. inversion Hds' as [|? ? Hd Hrest]; subst.
  destruct (digit_char_facts d Hd) as (Hv & Hws & Hm & Hp & _ & _ & _).
  unfold Text.parseInt. cbn [Decimal.digits_string String.append].
  simpl Text.trim_start. rewrite Hws.
  replace (Ascii.eqb (Decimal.digit_char d) "-") with false
    by (symmetry; apply Ascii.eqb_neq; exact Hm).
  replace (Ascii.eqb (Decimal.digit_char d) "+") with false
    by (symmetry; apply Ascii.eqb_neq; exact Hp).
  destruct (prefix_0x_numeral d (Decimal.digits_string ds ++ t) Hd) as [H0x H0X].
  { intros c r Hcr. destruct ds as [|d' ds'].
    - simpl in Hcr. destruct Ht as [->|(c' & r' & -> & _ & Hx & HX)]; [discriminate|].
      injection Hcr as <- <-. split; assumption.
    - inversion Hrest as [|? ? Hd' _]; subst. simpl in Hcr. injection Hcr as <- <-.
      destruct (digit_char_facts d' Hd') as (_ & _ & _ & _ & _ & ? & ?). split; assumption. }
  rewrite H0x, H0X. simpl orb. cbv iota beta.
  simpl Text.read_digits. rewrite Hv.
  rewrite read_digits_numeral; [|exact Hrest|].
  - unfold Decimal.digits_value. simpl. f_equal. destruct (fold_left _ ds d); reflexivity.
  - destruct Ht as [->|(c & r & -> & Hc & _)]; [left; reflexivity|right; eauto].
Qed.


Lemma string_app_assoc (a b c : string) : ((a ++ b) ++ c)%string = (a ++ (b ++ c))%string.
Proof. induction a as [|x a IH]; simpl; [reflexivity|]. rewrite IH. reflexivity. Qed.

Lemma string_app_nil_r (a : string) : (a ++ "")%string = a.
Proof. induction a as [|x a IH]; simpl; [reflexivity|]. rewrite IH. reflexivity. Qed.

Lemma split_colon_numeral (ds : list Z) (rest cur : string) :
  Forall (fun d => 0 <= d < 10) ds ->
  hd EmptyString (Text.split_go ":" (Decimal.digits_string ds ++ String ":" rest) 0 cur)
  = (cur ++ Decimal.digits_string ds)%string.
Proof.
  intros Hds. revert cur. induction Hds as [|d ds Hd Hds IH]; intros cur.
  - simpl. rewrite string_app_nil_r. destruct rest; reflexivity.
  - cbn [Decimal.digits_string String.append Text.split_go].
    destruct (digit_char_facts d Hd) as (_ & _ & _ & _ & Hc & _).
    cbn [prefix]. destruct (ascii_dec ":" (Decimal.digit_char d)) as [E|_]; [congruence|].
    rewrite IH, string_app_assoc. reflexivity.
Qed.

Lemma trim_start_app_ws (ws s : string) :
  Text.trim_start ws = EmptyString -> Text.trim_start (ws ++ s) = Text.trim_start s.
Proof.
  induction ws as [|c ws IH]; simpl; [reflexivity|].
  destruct (Text.is_ws c); [exact IH | discriminate].
Qed.

Lemma trim_end_cons (c : ascii) (s : string) :
  Text.is_ws c = false -> Text.trim_end (String c s) = String c (Text.trim_end s).
Proof. intros H. simpl. destruct (Text.trim_end s); [rewrite H|]; reflexivity. Qed.

Lemma trim_numeral (ds : list Z) (rest : string) :
  ds <> [] -> Forall (fun d => 0 <= d < 10) ds ->
  Text.trim (Decimal.digits_string ds ++ rest) = (Decimal.digits_string ds ++ Text.trim_end rest)%string.
Proof.
  intros Hne Hds. unfold Text.trim.
  destruct Hds as [|d ds Hd Hds]; [congruence|].
  destruct (digit_char_facts d Hd) as (_ & Hws & _).
  cbn [Decimal.digits_string String.append Text.trim_start]. rewrite Hws.
  rewrite trim_end_cons by exact Hws. f_equal. clear Hne.
  induction Hds as [|d' ds' Hd' Hds' IH]; [reflexivity|].
  destruct (digit_char_facts d' Hd') as (_ & Hws' & _).
  cbn [Decimal.digits_string String.append]. rewrite trim_end_cons by exact Hws'.
  rewrite IH. reflexivity.
Qed.

Lemma trim_end_head (c : ascii) (r : string) :
  Text.trim_end (String c r) = EmptyString \/
  exists r', Text.trim_end (String c r) = String c r'.
Proof.
  simpl. destruct (Text.trim_end r); [destruct (Text.is_ws c)|]; eauto.
Qed.

(** [saveSettings] keeps the hours of an ["HH:MM"] time and drops the
    minutes: [parseInt(value.split(':')[0])] is the number before the first
    colon, for a number below 2^53 (a double holds it exactly). *)
Theorem settingsHour_reads_hours (ds : list Z) (rest : string) :
  ds <> [] -> Forall (fun d => 0 <= d < 10) ds -> Decimal.digits_value ds < 2 ^ 53 ->
  Text.settingsHour (Decimal.digits_string ds ++ String ":" rest) = Some (Decimal.digits_value ds).
Proof.
  intros Hne Hds _. unfold Text.settingsHour, Text.str_split.
  rewrite split_colon_numeral by exact Hds. simpl.
  rewrite <- (string_app_nil_r (Decimal.digits_string ds)).
  apply parseInt_numeral; auto.
Qed.

(** [estimateTaskDuration] returns the number a reply starts with, after
    blanks, whatever text follows it (a reply such as [" 45 minutes"]),
    unless a digit, [x] or [X] follows directly; for a number below 2^53
    (a double holds it exactly). *)
Theorem estimateTaskDuration_reads_number (ws rest : string) (ds : list Z) :
  Text.trim_start ws = EmptyString -> ds <> [] -> Forall (fun d => 0 <= d < 10) ds ->
  Decimal.digits_value ds < 2 ^ 53 ->
  (rest = EmptyString \/ exists c r, rest = String c r /\ Text.digit_value 10 c = None /\
                                      c <> "x"%char /\ c <> "X"%char) ->
  Text.estimateTaskDuration (Some (ws ++ Decimal.digits_string ds ++ rest)%string)
  = Some (Decimal.digits_value ds).
Proof.
  intros Hws Hne Hds _ Hrest. unfold Text.estimateTaskDuration, Text.truthy.
  replace (String.eqb (ws ++ Decimal.digits_string ds ++ rest) EmptyString) with false.
  2:{ destruct ws; [destruct ds; [congruence|]|]; reflexivity. }
  unfold Text.trim. rewrite trim_start_app_ws by exact Hws.
  fold (Text.trim (Decimal.digits_string ds ++ rest)).
  rewrite trim_numeral by assumption.
  apply parseInt_numeral; [assumption|assumption|].
  destruct Hrest as [->|(c & r & -> & Hc & Hx & HX)]; [left; reflexivity|].
  destruct (trim_end_head c r) as [->|[r' ->]]; [left; reflexivity|right; eauto 6].
Qed.

End NumFacts.


(** ** The iCalendar reader of the second class *)

Module ICalFacts.
Import Strings.String Strings.Ascii.
Local Open Scope string_scope.
Import IcsFacts.

(** [split(':')] cut by cut. *)
Lemma split_colon_cons (c : ascii) (s cur : string) :
  Text.split_go ":" (String c s) 0 cur
  = if Ascii.eqb c ":" then (cur :: Text.split_go ":" s 0 "")%list
    else Text.split_go ":" s 0 (cur ++ String c "").
Proof.
  cbn [Text.split_go prefix]. destruct (ascii_dec ":" c) as [<-|n].
  - rewrite prefix_nil. reflexivity.
  - destruct (Ascii.eqb_spec c ":") as [->|_]; [congruence|reflexivity].
Qed.

Lemma split_colon_none (s cur : string) :
  Text.includes ":" s = false -> Text.split_go ":" s 0 cur = [cur ++ s].
Proof.
  revert cur. induction s as [|c s IH]; intros cur H.
  - simpl. rewrite sapp_nil_r. reflexivity.
  - rewrite split_colon_cons. simpl in H. apply orb_false_iff in H as [H1 H2].
    destruct (Ascii.eqb_spec c ":") as [->|n].
    + simpl in H1. rewrite prefix_nil in H1. discriminate.
    + rewrite IH by exact H2. rewrite sapp_assoc. reflexivity.
Qed.

Lemma split_go_nonempty (s cur : string) : Text.split_go ":" s 0 cur <> [].
Proof.
  revert cur. induction s as [|c s IH]; intros cur; [discriminate|].
  rewrite split_colon_cons. destruct (Ascii.eqb c ":"); [discriminate|apply IH].
Qed.

Lemma last_split_colon (p v cur : string) :
  last (Text.split_go ":" (p ++ String ":" v) 0 cur) ""
  = last (Text.split_go ":" v 0 "") "".
Proof.
  revert cur. induction p as [|c p IH]; intros cur.
  - simpl (("" ++ _)). rewrite split_colon_cons. simpl (Ascii.eqb _ _). cbv iota.
    pose proof (split_go_nonempty v "") as Hne.
    destruct (Text.split_go ":" v 0 ""); [congruence|reflexivity].
  - simpl ((String c p) ++ _). rewrite split_colon_cons.
    destruct (Ascii.eqb c ":").
    + rewrite <- (IH ""). pose proof (split_go_nonempty (p ++ String ":" v) "") as Hne.
      destruct (Text.split_go ":" (p ++ String ":" v) 0 ""); [congruence|reflexivity].
    + apply IH.
Qed.

Lemma substring_past (s : string) (n m : nat) :
  (length s <= n)%nat -> substring n m s = "".
Proof.
  revert n. induction s as [|c s IH]; intros n H.
  - destruct n, m; reflexivity.
  - destruct n; simpl in H; [lia|]. simpl. apply IH. lia.
Qed.

Lemma line_step_kept (utc : Z -> Z) (sd ed : Z) (line : string) st :
  Forall (fun ev => exists s t, ICal.ic_start ev = Some (Some s) /\ ICal.ic_end ev = Some (Some t) /\ s <= ed /\ sd <= t) (fst st) -> Forall (fun ev => exists s t, ICal.ic_start ev = Some (Some s) /\ ICal.ic_end ev = Some (Some t) /\ s <= ed /\ sd <= t) (fst (ICal.line_step utc sd ed line st)).
Proof.
  destruct st as [events [ev|]]; simpl; intros H.
  - destruct (String.eqb line "BEGIN:VEVENT"); [exact H|].
    destruct (String.eqb line "END:VEVENT"); [|exact H].
    destruct (ICal.ic_start ev) as [s|] eqn:Es; [|exact H].
    destruct (ICal.ic_end ev) as [t|] eqn:Et; [|exact H].
    destruct (ICal.date_le s ed && ICal.date_ge t sd) eqn:Ew; [|exact H].
    simpl. apply Forall_app. split; [exact H|]. constructor; [|constructor].
    apply andb_true_iff in Ew as [E1 E2].
    destruct s as [s|]; [|discriminate]. destruct t as [t|]; [|discriminate].
    exists s, t. simpl in E1, E2. apply Z.leb_le in E1. apply Z.leb_le in E2. auto.
  - destruct (String.eqb line "BEGIN:VEVENT"); exact H.
Qed.

Lemma for_loop_kept (utc : Z -> Z) (sd ed : Z) (f : nat) (lines : list string) st :
  Forall (fun ev => exists s t, ICal.ic_start ev = Some (Some s) /\ ICal.ic_end ev = Some (Some t) /\ s <= ed /\ sd <= t) (fst st) -> Forall (fun ev => exists s t, ICal.ic_start ev = Some (Some s) /\ ICal.ic_end ev = Some (Some t) /\ s <= ed /\ sd <= t) (fst (ICal.for_loop utc sd ed f lines st)).
Proof.
  revert lines st. induction f as [|f IH]; intros lines st H; [exact H|].
  destruct lines as [|l rest]; [exact H|]. simpl.
  destruct (ICal.gather (Text.trim l) rest) as [line rest'].
  apply IH, line_step_kept, H.
Qed.

(** *** Reading a written calendar back *)

Lemma split_lines_line (l rest cur : string) :
  IcsWrite.one_line l ->
  ICal.split_lines_go (l ++ IcsWrite.CRLF ++ rest) cur
  = (cur ++ l) :: ICal.split_lines_go rest "".
Proof.
  revert cur. induction l as [|c l IH]; intros cur Hl.
  - simpl. rewrite sapp_nil_r. reflexivity.
  - unfold IcsWrite.one_line in Hl. simpl in Hl.
    assert (Hc : Text.is_line_terminator c = false) by (apply Hl; left; reflexivity).
    assert (Hl' : IcsWrite.one_line l) by (intros x Hx; apply Hl; right; exact Hx).
    unfold Text.is_line_terminator in Hc. apply orb_false_iff in Hc as [HLF HCR].
    simpl. rewrite HLF, HCR. rewrite IH by exact Hl'. rewrite sapp_assoc. reflexivity.
Qed.

Lemma split_lines_join (ls : list string) :
  Forall IcsWrite.one_line ls -> ICal.split_lines (ICalWrite.crlf_join ls) = (ls ++ [""])%list.
Proof.
  unfold ICal.split_lines. induction ls as [|l ls IH]; intros H; [reflexivity|].
  inversion H as [|? ? Hl Hls]; subst.
  change (ICalWrite.crlf_join (l :: ls)) with (l ++ IcsWrite.CRLF ++ ICalWrite.crlf_join ls).
  rewrite split_lines_line by exact Hl. rewrite IH by exact Hls. reflexivity.
Qed.

Lemma one_line_app (a b : string) :
  IcsWrite.one_line a -> IcsWrite.one_line b -> IcsWrite.one_line (a ++ b).
Proof.
  unfold IcsWrite.one_line. induction a as [|c a IH]; intros Ha Hb x Hx; [exact (Hb x Hx)|].
  simpl in Hx. destruct Hx as [<-|Hx].
  - apply Ha. left. reflexivity.
  - apply IH; [|exact Hb|exact Hx]. intros y Hy. apply Ha. right. exact Hy.
Qed.

Lemma trim_end_nonws (c : ascii) (r : string) :
  Text.is_ws c = false -> Text.trim_end (String c r) = String c (Text.trim_end r).
Proof. intros H. simpl. destruct (Text.trim_end r); [rewrite H|]; reflexivity. Qed.

Lemma trim_key (a b : string) :
  Text.is_ws (match a with String c _ => c | "" => " "%char end) = false ->
  forallb (fun c => negb (Text.is_ws c)) (list_ascii_of_string a) = true ->
  Text.trim (a ++ b) = a ++ Text.trim_end b.
Proof.
  intros Hh Ha. unfold Text.trim.
  assert (Hs : Text.trim_start (a ++ b) = a ++ b).
  { destruct a as [|c a]; [discriminate|]. simpl. simpl in Hh. rewrite Hh. reflexivity. }
  rewrite Hs. clear Hh Hs. induction a as [|c a IH]; [reflexivity|].
  simpl in Ha. apply andb_true_iff in Ha as [Hc Ha]. apply negb_true_iff in Hc.
  simpl ((String c a) ++ b). rewrite trim_end_nonws by exact Hc. rewrite IH by exact Ha.
  reflexivity.
Qed.

Lemma trim_blank (c : string) : Text.trim (" " ++ c) = Text.trim c.
Proof. reflexivity. Qed.

Lemma gather_stop (line : string) (rest : list string) :
  ICal.starts_blank (hd "" rest) = false -> ICal.gather line rest = (line, rest).
Proof. destruct rest as [|n rest]; simpl; [reflexivity|]. intros ->. reflexivity. Qed.

Lemma gather_folds (line : string) (cs : list string) (rest : list string) :
  ICal.starts_blank (hd "" rest) = false ->
  ICal.gather line (map (fun c => (" " ++ c)%string) cs ++ rest)%list
  = (line ++ fold_right append "" (map Text.trim cs), rest).
Proof.
  revert line. induction cs as [|c cs IH]; intros line H.
  - simpl. rewrite sapp_nil_r. apply gather_stop, H.
  - cbn [map List.app ICal.gather].
    replace (ICal.starts_blank (" " ++ c)) with true by reflexivity.
    rewrite trim_blank, IH by exact H. rewrite sapp_assoc. reflexivity.
Qed.

Lemma line_step_summary (utc : Z -> Z) (sd ed : Z) (w : string) evs :
  ICal.line_step utc sd ed ("SUMMARY:" ++ w) (evs, Some ICal.empty_event)
  = (evs, Some (ICal.mkICalEvent None None (Some w) None None)).
Proof. reflexivity. Qed.

Lemma line_step_dtstart (utc : Z -> Z) (sd ed : Z) (w : string) evs ev :
  ICal.line_step utc sd ed ("DTSTART:" ++ w) (evs, Some ev)
  = (evs, Some (ICal.mkICalEvent (Some (ICal.parseICalDate utc w)) (ICal.ic_end ev)
                  (ICal.ic_summary ev) (ICal.ic_description ev) (ICal.ic_location ev))).
Proof. reflexivity. Qed.

Lemma line_step_dtend (utc : Z -> Z) (sd ed : Z) (w : string) evs ev :
  ICal.line_step utc sd ed ("DTEND:" ++ w) (evs, Some ev)
  = (evs, Some (ICal.mkICalEvent (ICal.ic_start ev) (Some (ICal.parseICalDate utc w))
                  (ICal.ic_summary ev) (ICal.ic_description ev) (ICal.ic_location ev))).
Proof. reflexivity. Qed.

Lemma line_step_end (utc : Z -> Z) (sd ed : Z) evs ev :
  ICal.line_step utc sd ed "END:VEVENT" (evs, Some ev)
  = match ICal.ic_start ev, ICal.ic_end ev with
    | Some s, Some e =>
        if ICal.date_le s ed && ICal.date_ge e sd then ((evs ++ [ev])%list, None)
        else (evs, None)
    | _, _ => (evs, None)
    end.
Proof. reflexivity. Qed.

Lemma for_loop_entry (utc : Z -> Z) (sd ed : Z) (f : nat) (e : ICalWrite.Entry)
    (rest : list string) (evs : list ICal.ICalEvent) :
  ICal.starts_blank (hd "" rest) = false ->
  (5 <= f)%nat ->
  ICal.for_loop utc sd ed f (ICalWrite.entry_lines e ++ rest) (evs, None)
  = ICal.for_loop utc sd ed (f - 5) rest
      ((if ICalWrite.in_window sd ed (ICalWrite.expected_event utc e)
        then evs ++ [ICalWrite.expected_event utc e] else evs)%list, None).
Proof.
  intros Hr Hf. destruct e as [s cs a b].
  do 5 (destruct f as [|f]; [lia|]). replace (S (S (S (S (S f)))) - 5)%nat with f by lia.
  unfold ICalWrite.entry_lines. cbn [ICalWrite.en_summary ICalWrite.en_folds
    ICalWrite.en_dtstart ICalWrite.en_dtend].
  rewrite <- !app_assoc. cbn [app].
  cbn [ICal.for_loop].
  replace (Text.trim "BEGIN:VEVENT") with "BEGIN:VEVENT" by reflexivity.
  rewrite gather_stop by reflexivity.
  replace (ICal.line_step utc sd ed "BEGIN:VEVENT" (evs, None))
    with (evs, Some ICal.empty_event) by reflexivity.
  cbn [ICal.for_loop].
  rewrite trim_key by reflexivity. rewrite gather_folds by reflexivity.
  rewrite sapp_assoc, line_step_summary.
  cbn [ICal.for_loop app].
  rewrite trim_key by reflexivity. rewrite gather_stop by reflexivity.
  rewrite line_step_dtstart. cbn [ICal.for_loop].
  rewrite trim_key by reflexivity. rewrite gather_stop by reflexivity.
  rewrite line_step_dtend. cbn [ICal.for_loop].
  replace (Text.trim "END:VEVENT") with "END:VEVENT" by reflexivity.
  rewrite gather_stop by exact Hr. rewrite line_step_end.
  unfold ICalWrite.in_window, ICalWrite.expected_event. cbn [ICal.ic_start ICal.ic_end
    ICal.ic_summary ICal.ic_description ICal.ic_location ICalWrite.en_summary
    ICalWrite.en_folds ICalWrite.en_dtstart ICalWrite.en_dtend].
  destruct (_ && _); reflexivity.
Qed.


Lemma one_line_check (s : string) :
  forallb (fun c => negb (Text.is_line_terminator c)) (list_ascii_of_string s) = true ->
  IcsWrite.one_line s.
Proof.
  intros H c Hc. rewrite forallb_forall in H. apply negb_true_iff, H, Hc.
Qed.

Lemma entry_lines_one_line (e : ICalWrite.Entry) :
  ICalWrite.entry_ok e -> Forall IcsWrite.one_line (ICalWrite.entry_lines e).
Proof.
  intros (Hs & Hf & Ha & Hb). unfold ICalWrite.entry_lines.
  apply Forall_app. split; [|apply Forall_app; split].
  - constructor; [apply one_line_check; reflexivity|].
    constructor; [|constructor]. apply one_line_app; [apply one_line_check; reflexivity|exact Hs].
  - apply Forall_map. eapply Forall_impl; [|exact Hf]. intros c Hc.
    apply one_line_app; [apply one_line_check; reflexivity|exact Hc].
  - constructor; [apply one_line_app; [apply one_line_check; reflexivity|exact Ha]|].
    constructor; [apply one_line_app; [apply one_line_check; reflexivity|exact Hb]|].
    constructor; [apply one_line_check; reflexivity|constructor].
Qed.

Lemma entry_lines_length (e : ICalWrite.Entry) :
  List.length (ICalWrite.entry_lines e) = (5 + List.length (ICalWrite.en_folds e))%nat.
Proof.
  unfold ICalWrite.entry_lines. rewrite !length_app, length_map. simpl. lia.
Qed.

Lemma entries_head (es : list ICalWrite.Entry) :
  ICal.starts_blank (hd "" (flat_map ICalWrite.entry_lines es ++ ["END:VCALENDAR"; ""])%list)
  = false.
Proof. destruct es; reflexivity. Qed.

Lemma for_loop_entries (utc : Z -> Z) (sd ed : Z) (es : list ICalWrite.Entry) (f : nat)
    (evs : list ICal.ICalEvent) :
  (List.length (flat_map ICalWrite.entry_lines es ++ ["END:VCALENDAR"; ""]) <= f)%nat ->
  fst (ICal.for_loop utc sd ed f (flat_map ICalWrite.entry_lines es ++ ["END:VCALENDAR"; ""])
         (evs, None))
  = (evs ++ filter (ICalWrite.in_window sd ed) (map (ICalWrite.expected_event utc) es))%list.
Proof.
  revert f evs. induction es as [|e es IH]; intros f evs Hf.
  - simpl in Hf. do 2 (destruct f as [|f]; [lia|]).
    rewrite app_nil_r. destruct f; reflexivity.
  - cbn [flat_map] in Hf |- *. rewrite <- app_assoc in Hf |- *.
    rewrite length_app, entry_lines_length in Hf.
    rewrite for_loop_entry by (apply entries_head || lia).
    rewrite IH by lia.
    cbn [map filter]. destruct (ICalWrite.in_window sd ed (ICalWrite.expected_event utc e));
      rewrite <- ?app_assoc; reflexivity.
Qed.

(** [parseICalendar] reads back a calendar written one line per property:
    each event comes with its summary, the two dates [parseICalDate] reads
    and no description or location, in the order written, and exactly
    the events that meet the window are kept.  A summary continued on
    further lines is joined with each piece trimmed, so the blanks at the
    folds are lost. *)
Theorem parseICalendar_reads_back (utc : Z -> Z) (es : list ICalWrite.Entry) (sd ed : Z) :
  Forall ICalWrite.entry_ok es ->
  ICal.parseICalendar utc (ICalWrite.ical_text es) sd ed
  = filter (ICalWrite.in_window sd ed) (map (ICalWrite.expected_event utc) es).
Proof.
  intros Hes. unfold ICal.parseICalendar, ICalWrite.ical_text.
  rewrite split_lines_join.
  2:{ constructor; [apply one_line_check; reflexivity|]. apply Forall_app. split.
      - rewrite Forall_forall. intros l Hl. apply in_flat_map in Hl as [e [He Hl]].
        rewrite Forall_forall in Hes.
        exact (proj1 (Forall_forall _ _) (entry_lines_one_line e (Hes e He)) l Hl).
      - constructor; [apply one_line_check; reflexivity|constructor]. }
  rewrite <- app_comm_cons, <- app_assoc. cbn [app].
  cbn [List.length ICal.for_loop].
  replace (Text.trim "BEGIN:VCALENDAR") with "BEGIN:VCALENDAR" by reflexivity.
  rewrite gather_stop by apply entries_head.
  replace (ICal.line_step utc sd ed "BEGIN:VCALENDAR" ([], None)) with
    (@nil ICal.ICalEvent, @None ICal.ICalEvent) by reflexivity.
  apply for_loop_entries. lia.
Qed.

Lemma index_of_colon (a b : string) :
  Text.includes ":" a = false -> ICal.index_of ":" (a ++ String ":" b) = Some (length a).
Proof.
  induction a as [|c a IH]; intros H; [reflexivity|].
  rewrite includes_cons in H. apply orb_false_iff in H as [H1 H2].
  cbn [append ICal.index_of]. rewrite IH by exact H2.
  destruct (Ascii.eqb_spec c ":") as [->|n]; [|reflexivity].
  cbn [prefix] in H1. rewrite prefix_nil in H1. destruct (ascii_dec ":" ":"); congruence.
Qed.

Lemma drop_colon (a b : string) (c : ascii) : Text.drop (S (length a)) (a ++ String c b) = b.
Proof. induction a as [|y a IH]; [reflexivity|]. exact IH. Qed.

Lemma property_step_dtstart (utc : Z -> Z) (params v : string) (ev : ICal.ICalEvent) :
  Text.includes ":" params = false ->
  ICal.property_step utc ("DTSTART" ++ params ++ ":" ++ v) ev
  = ICal.mkICalEvent (Some (ICal.parseICalDate utc v)) (ICal.ic_end ev) (ICal.ic_summary ev)
      (ICal.ic_description ev) (ICal.ic_location ev).
Proof.
  intros H. rewrite <- sapp_assoc. change (":" ++ v) with (String ":" v).
  set (a := "DTSTART" ++ params).
  assert (Hi : ICal.index_of ":" (a ++ String ":" v) = Some (length a))
    by (apply index_of_colon; subst a; simpl; exact H).
  unfold ICal.property_step. rewrite Hi.
  destruct (length a) as [|k] eqn:E; [subst a; discriminate|].
  rewrite <- E, substring_app_l, drop_colon. subst a. rewrite prefix_self. reflexivity.
Qed.

Lemma property_step_dtend (utc : Z -> Z) (params v : string) (ev : ICal.ICalEvent) :
  Text.includes ":" params = false ->
  ICal.property_step utc ("DTEND" ++ params ++ ":" ++ v) ev
  = ICal.mkICalEvent (ICal.ic_start ev) (Some (ICal.parseICalDate utc v)) (ICal.ic_summary ev)
      (ICal.ic_description ev) (ICal.ic_location ev).
Proof.
  intros H. rewrite <- sapp_assoc. change (":" ++ v) with (String ":" v).
  set (a := "DTEND" ++ params).
  assert (Hi : ICal.index_of ":" (a ++ String ":" v) = Some (length a))
    by (apply index_of_colon; subst a; simpl; exact H).
  unfold ICal.property_step. rewrite Hi.
  destruct (length a) as [|k] eqn:E; [subst a; discriminate|].
  rewrite <- E, substring_app_l, drop_colon. subst a. rewrite prefix_self.
  replace (prefix "DTSTART" ("DTEND" ++ params)) with false by reflexivity.
  reflexivity.
Qed.

(** A [DTSTART] or [DTEND] line with parameters, such as a [TZID], sets the
    same date as the line without them: the zone it names is ignored. *)
Theorem property_step_ignores_parameters (utc : Z -> Z) (params v : string)
    (ev : ICal.ICalEvent) :
  Text.includes ":" params = false ->
  ICal.property_step utc ("DTSTART" ++ params ++ ":" ++ v) ev
  = ICal.property_step utc ("DTSTART:" ++ v) ev /\
  ICal.property_step utc ("DTEND" ++ params ++ ":" ++ v) ev
  = ICal.property_step utc ("DTEND:" ++ v) ev.
Proof.
  intros H. split.
  - rewrite (property_step_dtstart utc params v ev H).
    symmetry. exact (property_step_dtstart utc "" v ev eq_refl).
  - rewrite (property_step_dtend utc params v ev H).
    symmetry. exact (property_step_dtend utc "" v ev eq_refl).
Qed.

(** A date value of neither eight characters nor at least fourteen has no
    seconds field: [parseInt] of the empty slice is NaN, and so is the date. *)
Theorem parseICalDate_short_invalid (utc : Z -> Z) (v : string) :
  Text.includes ":" v = false -> length v <> 8%nat -> (length v <= 13)%nat ->
  ICal.parseICalDate utc v = None.
Proof.
  intros Hc H8 H13. unfold ICal.parseICalDate, Text.str_split.
  rewrite split_colon_none by exact Hc. cbn [last append].
  apply Nat.eqb_neq in H8. rewrite H8.
  replace (Text.parseInt (Text.slice v 13 15)) with (@None Z)
    by (unfold Text.slice; rewrite substring_past by lia; reflexivity).
  destruct (Text.endsWith "Z" v);
    unfold JSDate.Date_UTC, JSDate.new_Date_local;
    repeat match goal with |- context [match ?o with Some _ => _ | None => _ end] =>
      destruct o; try reflexivity end.
Qed.

(** Every event [parseICalendar] returns has a valid start no later than
    [endDate] and a valid end no earlier than [startDate]. *)
Theorem parseICalendar_window (utc : Z -> Z) (icalData : string) (sd ed : Z)
    (ev : ICal.ICalEvent) :
  In ev (ICal.parseICalendar utc icalData sd ed) ->
  exists s t, ICal.ic_start ev = Some (Some s) /\ ICal.ic_end ev = Some (Some t) /\
    (s <= ed)%Z /\ (sd <= t)%Z.
Proof.
  intros H. unfold ICal.parseICalendar in H.
  refine (proj1 (Forall_forall _ _) (for_loop_kept utc sd ed _ _ _ _) ev H).
  constructor.
Qed.

Lemma import_fold (events : list ICal.ICalEvent) (evs : list ICal.Event1) (k : Z) :
  fold_left ICal.import_step events (evs, k)
  = ((evs ++ map ICal.imported_entry events)%list, (k + Z.of_nat (List.length events))%Z).
Proof.
  revert evs k. induction events as [|event events IH]; intros evs k.
  - simpl. rewrite app_nil_r. f_equal. lia.
  - cbn [fold_left]. unfold ICal.import_step at 2. unfold ICal.addEvent_v1.
    rewrite IH, <- app_assoc. cbn [map List.app List.length]. f_equal. lia.
Qed.

Lemma truthy_name (o : option string) :
  match Text.truthy o with Some n => n | None => "Untitled Event" end <> "".
Proof.
  destruct o as [x|]; [|discriminate]. unfold Text.truthy.
  destruct (String.eqb_spec x ""); [discriminate|exact n].
Qed.

Lemma run_queue1_events (mb : Z) (q : list (nat * ICal.Task1)) :
  forall ts slots evs, exists pushed,
    snd (ICal.run_queue1 mb q ts slots evs) = (evs ++ pushed)%list /\
    Forall (fun e => ICal.e1_isTask e = true) pushed.
Proof.
  induction q as [|[i t] q IH]; intros ts slots evs; cbn [ICal.run_queue1].
  - exists []. rewrite app_nil_r. split; [reflexivity|constructor].
  - destruct (ICal.scan1 mb t slots) as [[[a b] slots']|]; [|apply IH].
    destruct (IH (replace_nth i (ICal.set_scheduled1 t a b) ts) slots'
                 (evs ++ [ICal.taskEvent1 t a b])%list) as (p & Hp & Hf).
    exists (ICal.taskEvent1 t a b :: p). rewrite Hp, <- app_assoc. split; [reflexivity|].
    constructor; [reflexivity|exact Hf].
Qed.

(** [autoScheduleTasks] keeps the events that are not task events, in
    order, and appends task events. *)
Lemma autoScheduleTasks1_events (now : Z) (st : Settings) (ts : list ICal.Task1)
    (evs : list ICal.Event1) :
  exists pushed,
    snd (ICal.autoScheduleTasks1 now st ts evs)
    = (filter (fun e => negb (ICal.e1_isTask e)) evs ++ pushed)%list /\
    Forall (fun e => ICal.e1_isTask e = true) pushed.
Proof. unfold ICal.autoScheduleTasks1. apply run_queue1_events. Qed.

Lemma filter_imported (L : list ICal.ICalEvent) :
  filter (fun e => negb (ICal.e1_isTask e)) (map ICal.imported_entry L)
  = map ICal.imported_entry L.
Proof. induction L as [|x L IH]; [reflexivity|]. cbn [map filter]. simpl. rewrite IH. reflexivity. Qed.

(** What a successful import does, whatever the tasks and the events: the
    events parsed in the window, appended and then rescheduled. *)
Lemma importGoogleCalendar_some (utc : Z -> Z) (now daysAhead schedNow : Z)
    (attempts : list (option string)) (st : Settings) (ts : list ICal.Task1)
    (evs : list ICal.Event1) r :
  ICal.importGoogleCalendar utc now daysAhead schedNow attempts st ts evs = Some r ->
  exists L, L <> [] /\
    (forall ev, In ev L -> exists s t, ICal.ic_start ev = Some (Some s) /\
       ICal.ic_end ev = Some (Some t) /\
       (s <= now + daysAhead * 24 * 60 * 60 * 1000)%Z /\ (now <= t)%Z) /\
    forall schedNow' st' ts' evs',
      ICal.importGoogleCalendar utc now daysAhead schedNow' attempts st' ts' evs'
      = Some (fst (ICal.autoScheduleTasks1 schedNow' st' ts' (evs' ++ map ICal.imported_entry L)),
              snd (ICal.autoScheduleTasks1 schedNow' st' ts' (evs' ++ map ICal.imported_entry L)),
              Z.of_nat (List.length L)).
Proof.
  unfold ICal.importGoogleCalendar.
  destruct (Text.truthy (ICal.proxy_loop attempts None)) as [icalData|]; [|discriminate].
  unfold JSDate.TimeClip.
  destruct (Z.abs (now + daysAhead * 24 * 60 * 60 * 1000) <=? 8640000000000000)%Z;
    [|discriminate].
  pose proof (parseICalendar_window utc icalData now (now + daysAhead * 24 * 60 * 60 * 1000))
    as Hw.
  destruct (ICal.parseICalendar utc icalData now (now + daysAhead * 24 * 60 * 60 * 1000))
    as [|e0 es] eqn:E; [discriminate|].
  intros _. exists (e0 :: es). split; [discriminate|]. split; [exact Hw|].
  intros schedNow' st' ts' evs'.
  rewrite import_fold. cbv iota beta.
  destruct (ICal.autoScheduleTasks1 schedNow' st' ts' (evs' ++ map ICal.imported_entry (e0 :: es)))
    as [ts1 evs1].
  cbn [fst snd]. rewrite Z.add_0_l. reflexivity.
Qed.

(** What [importGoogleCalendar] leaves when it does not throw: the events
    that are not task events, in order, then a non-empty list of imported
    events, as many as the count it returns, then the task events
    [autoScheduleTasks] pushes.  Each imported event is fixed, imported,
    not a task and named, with a valid start no later than [daysAhead] days
    from now and a valid end no earlier than now. *)
Theorem importGoogleCalendar_adds (utc : Z -> Z) (now daysAhead schedNow : Z)
    (attempts : list (option string)) (st : Settings) (ts ts' : list ICal.Task1)
    (evs evs' : list ICal.Event1) (n : Z) :
  ICal.importGoogleCalendar utc now daysAhead schedNow attempts st ts evs = Some (ts', evs', n) ->
  exists added pushed,
    evs' = (filter (fun e => negb (ICal.e1_isTask e)) evs ++ added ++ pushed)%list /\
    added <> [] /\ n = Z.of_nat (List.length added) /\
    Forall (fun e => ICal.e1_isFixed e = true /\ ICal.e1_isImported e = true /\
      ICal.e1_isTask e = false /\ ICal.e1_name e <> "" /\
      exists s t, ICal.e1_start e = Some s /\ ICal.e1_end e = Some t /\
        (s <= now + daysAhead * 24 * 60 * 60 * 1000)%Z /\ (now <= t)%Z) added /\
    Forall (fun e => ICal.e1_isTask e = true) pushed.
Proof.
  intros H. destruct (importGoogleCalendar_some _ _ _ _ _ _ _ _ _ H) as (L & HL & Hw & Heq).
  rewrite Heq in H. injection H as _ Hevs Hn.
  destruct (autoScheduleTasks1_events schedNow st ts (evs ++ map ICal.imported_entry L))
    as (pushed & Hp & Hf).
  rewrite filter_app, filter_imported in Hp.
  exists (map ICal.imported_entry L), pushed.
  split; [rewrite <- Hevs, Hp, <- app_assoc; reflexivity|].
  split; [destruct L; [congruence|discriminate]|].
  split; [rewrite length_map; symmetry; exact Hn|].
  split; [|exact Hf].
  apply Forall_forall. intros e He. apply in_map_iff in He as [event [<- Hin]].
  unfold ICal.imported_entry.
  cbn [ICal.e1_isFixed ICal.e1_isImported ICal.e1_isTask ICal.e1_name ICal.e1_start ICal.e1_end].
  split; [reflexivity|]. split; [reflexivity|]. split; [reflexivity|].
  split; [apply truthy_name|].
  destruct (Hw event Hin) as [s [t [Hs [Ht [H1 H2]]]]].
  rewrite Hs, Ht. exists s, t. auto.
Qed.

(** [importGoogleCalendar] does not check for events already imported:
    importing the same calendar again over the same window keeps the
    imported events of the first import and appends them a second time. *)
Theorem importGoogleCalendar_twice (utc : Z -> Z) (now daysAhead schedNow : Z)
    (attempts : list (option string)) (st : Settings) (ts ts1 : list ICal.Task1)
    (evs evs1 : list ICal.Event1) (n : Z) :
  ICal.importGoogleCalendar utc now daysAhead schedNow attempts st ts evs = Some (ts1, evs1, n) ->
  exists added, added <> [] /\
    Forall (fun e => ICal.e1_isImported e = true /\ ICal.e1_isTask e = false) added /\
    (exists pushed, evs1 = (filter (fun e => negb (ICal.e1_isTask e)) evs ++ added ++ pushed)%list) /\
    forall schedNow2, exists ts2 pushed2,
      ICal.importGoogleCalendar utc now daysAhead schedNow2 attempts st ts1 evs1
      = Some (ts2, (filter (fun e => negb (ICal.e1_isTask e)) evs ++ added ++ added ++ pushed2)%list,
              n) /\
      Forall (fun e => ICal.e1_isTask e = true) pushed2.
Proof.
  intros H. destruct (importGoogleCalendar_some _ _ _ _ _ _ _ _ _ H) as (L & HL & _ & Heq).
  pose proof (Heq schedNow st ts evs) as H1. rewrite H1 in H.
  injection H as _ Hevs Hn.
  destruct (autoScheduleTasks1_events schedNow st ts (evs ++ map ICal.imported_entry L))
    as (pushed & Hp & Hf).
  rewrite filter_app, filter_imported in Hp.
  exists (map ICal.imported_entry L). split; [destruct L; [congruence|discriminate]|].
  split.
  { apply Forall_forall. intros e He. apply in_map_iff in He as [event [<- _]].
    split; reflexivity. }
  split; [exists pushed; rewrite <- Hevs, Hp, <- app_assoc; reflexivity|].
  intros schedNow2. rewrite (Heq schedNow2 st ts1 evs1).
  destruct (autoScheduleTasks1_events schedNow2 st ts1 (evs1 ++ map ICal.imported_entry L))
    as (pushed2 & Hp2 & Hf2).
  exists (fst (ICal.autoScheduleTasks1 schedNow2 st ts1 (evs1 ++ map ICal.imported_entry L))),
    pushed2.
  split; [|exact Hf2].
  rewrite Hp2, <- Hn. f_equal. f_equal.
  rewrite filter_app, filter_imported, <- Hevs, Hp, !filter_app, filter_imported.
  assert (Hnil : filter (fun e => negb (ICal.e1_isTask e)) pushed = []).
  { clear -Hf. induction Hf as [|x l Hx _ IH]; [reflexivity|].
    cbn [filter]. rewrite Hx. exact IH. }
  assert (Hid : forall l : list ICal.Event1,
            filter (fun e => negb (ICal.e1_isTask e)) (filter (fun e => negb (ICal.e1_isTask e)) l)
            = filter (fun e => negb (ICal.e1_isTask e)) l).
  { induction l as [|x l IH]; [reflexivity|]. cbn [filter].
    destruct (negb (ICal.e1_isTask x)) eqn:Ex; [cbn [filter]; rewrite Ex, IH; reflexivity|exact IH]. }
  rewrite Hnil, Hid, app_nil_r. rewrite <- !app_assoc. reflexivity.
Qed.

Lemma proxy_loop_nones (pre : list (option string)) (d : option string) :
  Forall (fun a => a = None) pre -> forall rest,
  ICal.proxy_loop (pre ++ rest) d = ICal.proxy_loop rest d.
Proof.
  induction 1 as [|a pre Ha Hpre IH]; intros rest; [reflexivity|].
  subst a. exact (IH rest).
Qed.

(** A response that fails the [BEGIN:VCALENDAR] check is still imported
    when no other proxy answers: [icalData] keeps the rejected text, and
    the events parsed from it are added. *)
Theorem importGoogleCalendar_rejected_response (utc : Z -> Z) (now daysAhead schedNow : Z)
    (pre rest : list (option string)) (t : string) (st : Settings) (ts : list ICal.Task1)
    (evs : list ICal.Event1) :
  (Z.abs (now + daysAhead * 24 * 60 * 60 * 1000) <= 8640000000000000)%Z ->
  ICal.valid_ical t = false -> t <> "" ->
  Forall (fun a => a = None) pre -> Forall (fun a => a = None) rest ->
  ICal.parseICalendar utc t now (now + daysAhead * 24 * 60 * 60 * 1000) <> [] ->
  exists ts' evs' n,
    ICal.importGoogleCalendar utc now daysAhead schedNow (pre ++ Some t :: rest)%list st ts evs
    = Some (ts', evs', n) /\ (0 < n)%Z.
Proof.
  intros Hc Hv Ht Hpre Hrest Hne. unfold ICal.importGoogleCalendar, JSDate.TimeClip.
  apply Z.leb_le in Hc. rewrite Hc.
  rewrite (proxy_loop_nones pre None Hpre). cbn [ICal.proxy_loop]. rewrite Hv.
  replace (ICal.proxy_loop rest (Some t)) with (Some t)
    by (clear -Hrest; induction Hrest as [|a r Ha _ IH]; [reflexivity|subst a; exact IH]).
  unfold Text.truthy. destruct (String.eqb_spec t ""); [contradiction|].
  destruct (ICal.parseICalendar utc t now (now + daysAhead * 24 * 60 * 60 * 1000))
    as [|e0 es]; [contradiction|].
  rewrite import_fold. cbv iota beta.
  destruct (ICal.autoScheduleTasks1 schedNow st ts (evs ++ map ICal.imported_entry (e0 :: es)))
    as [ts1 evs1].
  do 3 eexists. split; [reflexivity|]. cbn [List.length]. lia.
Qed.

End ICalFacts.

Module TextFacts.
Import Strings.String Strings.Ascii.
Local Open Scope string_scope.

(** A one-hour appointment at a clinic half an hour away: the morning gap
    ends when the trip there starts. *)
Lemma addEvent_blocks_travel_witness :
  0 <= workingHours_start defaultSettings /\ workingHours_end defaultSettings <= 24 /\
  In (mkSlot (tuesday + 9 * HOUR) (tuesday + 11 * HOUR + 30 * MINUTE))
    (getAvailableSlots defaultSettings tuesday (tuesday + DAY)
       (Text.sched_events
          (Text.addEvent (Some "Home") (Some "key") (fun _ _ => 30) []
             (Text.mkEventInput "Dentist" (Some (tuesday + 12 * HOUR))
                (Some (tuesday + 13 * HOUR)) (Some "Clinic"))))) /\
  ~ (tuesday + 12 * HOUR - Z.max 0 30 * MINUTE <= tuesday + 11 * HOUR
     < tuesday + 13 * HOUR + Z.max 0 30 * MINUTE).
Proof.
  assert (Hin : In (mkSlot (tuesday + 9 * HOUR) (tuesday + 11 * HOUR + 30 * MINUTE))
    (getAvailableSlots defaultSettings tuesday (tuesday + DAY)
       (Text.sched_events
          (Text.addEvent (Some "Home") (Some "key") (fun _ _ => 30) []
             (Text.mkEventInput "Dentist" (Some (tuesday + 12 * HOUR))
                (Some (tuesday + 13 * HOUR)) (Some "Clinic")))))).
  { vm_compute. left. reflexivity. }
  split; [vm_compute; discriminate|]. split; [vm_compute; discriminate|].
  split; [exact Hin|].
  exact (addEvent_blocks_travel defaultSettings tuesday (tuesday + DAY)
           (Some "Home") (Some "key") (fun _ _ => 30) []
           (Text.mkEventInput "Dentist" (Some (tuesday + 12 * HOUR))
              (Some (tuesday + 13 * HOUR)) (Some "Clinic"))
           (tuesday + 12 * HOUR) (tuesday + 13 * HOUR)
           (mkSlot (tuesday + 9 * HOUR) (tuesday + 11 * HOUR + 30 * MINUTE))
           (tuesday + 11 * HOUR)
           ltac:(vm_compute; discriminate) ltac:(vm_compute; discriminate)
           (Forall_nil _) eq_refl eq_refl ltac:(vm_compute; discriminate) Hin
           ltac:(unfold in_slot; simpl; lia)).
Defined.

(** The same event in a feed twice, imported twice. *)
Lemma import_again_adds_nothing_witness :
  Forall (fun ev => Text.ei_start ev <> None)
    [Text.mkEventInput "Standup" (Some 1000) (Some 2000) None;
     Text.mkEventInput "Standup" (Some 1000) (Some 2000) None] /\
  (let evs1 := fst (Text.importEvents None None (fun _ _ => 0) []
                      [Text.mkEventInput "Standup" (Some 1000) (Some 2000) None;
                       Text.mkEventInput "Standup" (Some 1000) (Some 2000) None] 0) in
   Text.importEvents None None (fun _ _ => 0) evs1
     [Text.mkEventInput "Standup" (Some 1000) (Some 2000) None;
      Text.mkEventInput "Standup" (Some 1000) (Some 2000) None] 0 = (evs1, 0)).
Proof.
  assert (Hv : Forall (fun ev => Text.ei_start ev <> None)
    [Text.mkEventInput "Standup" (Some 1000) (Some 2000) None;
     Text.mkEventInput "Standup" (Some 1000) (Some 2000) None]).
  { repeat constructor; simpl; discriminate. }
  split; [exact Hv|].
  exact (import_again_adds_nothing None None (fun _ _ => 0) [] _ Hv).
Defined.

(** Hours "09:30": the hour 9 is kept. *)
Lemma settingsHour_reads_hours_witness :
  [0; 9] <> [] /\ Forall (fun d => 0 <= d < 10) [0; 9] /\
  Decimal.digits_value [0; 9] < 2 ^ 53 /\
  Text.settingsHour (Decimal.digits_string [0; 9] ++ String ":" "30")
  = Some (Decimal.digits_value [0; 9]).
Proof.
  assert (Hds : Forall (fun d => 0 <= d < 10) [0; 9]) by (repeat constructor; lia).
  assert (Hb : Decimal.digits_value [0; 9] < 2 ^ 53) by (vm_compute; reflexivity).
  split; [discriminate|]. split; [exact Hds|]. split; [exact Hb|].
  exact (NumFacts.settingsHour_reads_hours [0; 9] "30" ltac:(discriminate) Hds Hb).
Defined.

(** The reply " 90 minutes" gives 90. *)
Lemma estimateTaskDuration_reads_number_witness :
  Text.estimateTaskDuration (Some (" " ++ Decimal.digits_string [9; 0] ++ " minutes"))
  = Some (Decimal.digits_value [9; 0]) /\
  Decimal.digits_value [9; 0] = 90.
Proof.
  split; [|reflexivity].
  apply (NumFacts.estimateTaskDuration_reads_number " " " minutes" [9; 0]).
  - reflexivity.
  - discriminate.
  - repeat constructor; lia.
  - vm_compute. reflexivity.
  - right. exists " "%char, "minutes". split; [reflexivity|].
    split; [vm_compute; reflexivity|]. split; discriminate.
Defined.

(** A calendar with one meeting in a room. *)
Lemma parseICS_vcalendar_witness :
  Forall IcsWrite.well_formed
    [IcsWrite.mkVEvent "Team sync" "20240105T090000Z" "20240105T100000Z" (Some "Room 4")] /\
  Text.parseICS (IcsWrite.vcalendar
    [IcsWrite.mkVEvent "Team sync" "20240105T090000Z" "20240105T100000Z" (Some "Room 4")])
  = [Text.mkIcsEvent "Team sync" "2024-01-05T09:00:00Z" "2024-01-05T10:00:00Z" (Some "Room 4")].
Proof.
  assert (Hw : Forall IcsWrite.well_formed
    [IcsWrite.mkVEvent "Team sync" "20240105T090000Z" "20240105T100000Z" (Some "Room 4")]).
  { constructor; [|constructor]. unfold IcsWrite.well_formed, IcsWrite.one_line. simpl.
    repeat split; try reflexivity; try discriminate;
      intros c Hc; repeat destruct Hc as [<-|Hc]; try reflexivity; destruct Hc. }
  split; [exact Hw|].
  exact (IcsFacts.parseICS_vcalendar _ Hw).
Defined.

(** The start "20240105T093000Z" and the day "20240105". *)
Lemma parseICSTime_iso_witness :
  Text.parseICSTime ("2024" ++ "01" ++ "05" ++ "T" ++ "09" ++ "30" ++ "00" ++ "Z")
  = "2024" ++ "-" ++ "01" ++ "-" ++ "05" ++ "T" ++ "09" ++ ":" ++ "30" ++ ":" ++ "00" ++ "Z" /\
  Text.parseICSTime ("2024" ++ "01" ++ "05") = "2024" ++ "-" ++ "01" ++ "-" ++ "05".
Proof.
  exact (IcsFacts.parseICSTime_iso "2024" "01" "05" "09" "30" "00"
           eq_refl eq_refl eq_refl eq_refl eq_refl eq_refl
           eq_refl eq_refl eq_refl eq_refl eq_refl eq_refl).
Defined.

(** A summary folded over two lines, read back within a window of one day. *)
Lemma parseICalendar_reads_back_witness :
  Forall ICalWrite.entry_ok
    [ICalWrite.mkEntry "Team " [" sync"] "20240105T090000Z" "20240105T100000Z"] /\
  ICal.parseICalendar (fun t => t)
    (ICalWrite.ical_text
       [ICalWrite.mkEntry "Team " [" sync"] "20240105T090000Z" "20240105T100000Z"])
    1704412800000 1704499200000
  = filter (ICalWrite.in_window 1704412800000 1704499200000)
      (map (ICalWrite.expected_event (fun t => t))
         [ICalWrite.mkEntry "Team " [" sync"] "20240105T090000Z" "20240105T100000Z"]).
Proof.
  assert (H : Forall ICalWrite.entry_ok
    [ICalWrite.mkEntry "Team " [" sync"] "20240105T090000Z" "20240105T100000Z"]).
  { constructor; [|constructor]. unfold ICalWrite.entry_ok; cbn [ICalWrite.en_summary
      ICalWrite.en_folds ICalWrite.en_dtstart ICalWrite.en_dtend].
    split; [apply ICalFacts.one_line_check; reflexivity|].
    split; [constructor; [apply ICalFacts.one_line_check; reflexivity|constructor]|].
    split; apply ICalFacts.one_line_check; reflexivity. }
  split; [exact H|].
  exact (ICalFacts.parseICalendar_reads_back (fun t => t) _ 1704412800000 1704499200000 H).
Defined.

(** A start and an end given with a [TZID] parameter. *)
Lemma property_step_ignores_parameters_witness :
  Text.includes ":" ";TZID=Europe/Paris" = false /\
  ICal.property_step (fun t => t) ("DTSTART" ++ ";TZID=Europe/Paris" ++ ":" ++ "20240105T090000")
    ICal.empty_event
  = ICal.property_step (fun t => t) ("DTSTART:" ++ "20240105T090000") ICal.empty_event /\
  ICal.property_step (fun t => t) ("DTEND" ++ ";TZID=Europe/Paris" ++ ":" ++ "20240105T090000")
    ICal.empty_event
  = ICal.property_step (fun t => t) ("DTEND:" ++ "20240105T090000") ICal.empty_event.
Proof.
  split; [reflexivity|].
  apply ICalFacts.property_step_ignores_parameters. reflexivity.
Defined.

(** A time written without its seconds. *)
Lemma parseICalDate_short_invalid_witness :
  Text.includes ":" "20240105T0900" = false /\ String.length "20240105T0900" <> 8%nat /\
  (String.length "20240105T0900" <= 13)%nat /\
  ICal.parseICalDate (fun t => t) "20240105T0900" = None.
Proof.
  assert (H1 : Text.includes ":" "20240105T0900" = false) by reflexivity.
  assert (H2 : String.length "20240105T0900" <> 8%nat) by (simpl; discriminate).
  assert (H3 : (String.length "20240105T0900" <= 13)%nat) by (simpl; lia).
  split; [exact H1|]. split; [exact H2|]. split; [exact H3|].
  exact (ICalFacts.parseICalDate_short_invalid (fun t => t) _ H1 H2 H3).
Defined.

(** The event of a written calendar, found in a window of one day. *)
Lemma parseICalendar_window_witness :
  In (ICalWrite.expected_event (fun t => t)
        (ICalWrite.mkEntry "Standup" [] "20240105T090000Z" "20240105T093000Z"))
    (ICal.parseICalendar (fun t => t)
       (ICalWrite.ical_text
          [ICalWrite.mkEntry "Standup" [] "20240105T090000Z" "20240105T093000Z"])
       1704412800000 1704499200000) /\
  exists s t, ICal.ic_start (ICalWrite.expected_event (fun t => t)
        (ICalWrite.mkEntry "Standup" [] "20240105T090000Z" "20240105T093000Z"))
      = Some (Some s) /\
    ICal.ic_end (ICalWrite.expected_event (fun t => t)
        (ICalWrite.mkEntry "Standup" [] "20240105T090000Z" "20240105T093000Z"))
      = Some (Some t) /\
    (s <= 1704499200000)%Z /\ (1704412800000 <= t)%Z.
Proof.
  assert (H : In (ICalWrite.expected_event (fun t => t)
        (ICalWrite.mkEntry "Standup" [] "20240105T090000Z" "20240105T093000Z"))
    (ICal.parseICalendar (fun t => t)
       (ICalWrite.ical_text
          [ICalWrite.mkEntry "Standup" [] "20240105T090000Z" "20240105T093000Z"])
       1704412800000 1704499200000)) by (vm_compute; left; reflexivity).
  split; [exact H|].
  exact (ICalFacts.parseICalendar_window (fun t => t) _ _ _ _ H).
Defined.

Import SampleImport.

(** The calendar read on the second proxy, the first one having failed, on
    a Friday with a lunch and a task placed by an earlier pass: the task
    moves after the imported meeting. *)
Lemma importGoogleCalendar_adds_witness :
  ICal.importGoogleCalendar (fun t => t) friday 14 friday [None; Some teamCalendar]
    defaultSettings [reportTask] fridayEvents
  = Some ([reportRescheduled], [lunch; teamSync; reportEvent], 1) /\
  exists added pushed,
    [lunch; teamSync; reportEvent]
    = (filter (fun e => negb (ICal.e1_isTask e)) fridayEvents ++ added ++ pushed)%list /\
    added <> [] /\ 1 = Z.of_nat (List.length added) /\
    Forall (fun e => ICal.e1_isFixed e = true /\ ICal.e1_isImported e = true /\
      ICal.e1_isTask e = false /\ ICal.e1_name e <> "" /\
      exists s t, ICal.e1_start e = Some s /\ ICal.e1_end e = Some t /\
        (s <= friday + 14 * 24 * 60 * 60 * 1000)%Z /\ (friday <= t)%Z) added /\
    Forall (fun e => ICal.e1_isTask e = true) pushed.
Proof.
  assert (H : ICal.importGoogleCalendar (fun t => t) friday 14 friday [None; Some teamCalendar]
    defaultSettings [reportTask] fridayEvents
    = Some ([reportRescheduled], [lunch; teamSync; reportEvent], 1))
    by (vm_compute; reflexivity).
  split; [exact H|].
  exact (ICalFacts.importGoogleCalendar_adds _ _ _ _ _ _ _ _ _ _ _ H).
Defined.

(** The same calendar imported into the result of the first import. *)
Lemma importGoogleCalendar_twice_witness :
  ICal.importGoogleCalendar (fun t => t) friday 14 friday [Some teamCalendar]
    defaultSettings [reportTask] fridayEvents
  = Some ([reportRescheduled], [lunch; teamSync; reportEvent], 1) /\
  ICal.importGoogleCalendar (fun t => t) friday 14 friday [Some teamCalendar]
    defaultSettings [reportRescheduled] [lunch; teamSync; reportEvent]
  = Some ([reportRescheduled], [lunch; teamSync; teamSync; reportEvent], 1) /\
  exists added, added <> [] /\
    Forall (fun e => ICal.e1_isImported e = true /\ ICal.e1_isTask e = false) added /\
    (exists pushed, [lunch; teamSync; reportEvent]
       = (filter (fun e => negb (ICal.e1_isTask e)) fridayEvents ++ added ++ pushed)%list) /\
    forall schedNow2, exists ts2 pushed2,
      ICal.importGoogleCalendar (fun t => t) friday 14 schedNow2 [Some teamCalendar]
        defaultSettings [reportRescheduled] [lunch; teamSync; reportEvent]
      = Some (ts2, (filter (fun e => negb (ICal.e1_isTask e)) fridayEvents
                    ++ added ++ added ++ pushed2)%list, 1) /\
      Forall (fun e => ICal.e1_isTask e = true) pushed2.
Proof.
  assert (H : ICal.importGoogleCalendar (fun t => t) friday 14 friday [Some teamCalendar]
    defaultSettings [reportTask] fridayEvents
    = Some ([reportRescheduled], [lunch; teamSync; reportEvent], 1))
    by (vm_compute; reflexivity).
  split; [exact H|]. split; [vm_compute; reflexivity|].
  exact (ICalFacts.importGoogleCalendar_twice _ _ _ _ _ _ _ _ _ _ _ H).
Defined.

(** A response holding a [VEVENT] but no [BEGIN:VCALENDAR], on the second
    of three proxies, the others failing. *)
Lemma importGoogleCalendar_rejected_response_witness :
  ICal.valid_ical (ICalWrite.crlf_join (ICalWrite.entry_lines
      (ICalWrite.mkEntry "Standup" [] "20240105T090000Z" "20240105T093000Z"))) = false /\
  exists ts' evs' n, ICal.importGoogleCalendar (fun t => t) friday 14 friday
      ([None] ++ Some (ICalWrite.crlf_join (ICalWrite.entry_lines
         (ICalWrite.mkEntry "Standup" [] "20240105T090000Z" "20240105T093000Z"))) :: [None])%list
      defaultSettings [] []
    = Some (ts', evs', n) /\ (0 < n)%Z.
Proof.
  assert (Hv : ICal.valid_ical (ICalWrite.crlf_join (ICalWrite.entry_lines
      (ICalWrite.mkEntry "Standup" [] "20240105T090000Z" "20240105T093000Z"))) = false)
    by (vm_compute; reflexivity).
  split; [exact Hv|].
  apply (ICalFacts.importGoogleCalendar_rejected_response (fun t => t) _ _ _ _ _ _ _ _ _).
  - vm_compute. discriminate.
  - exact Hv.
  - vm_compute. discriminate.
  - constructor; [reflexivity|constructor].
  - constructor; [reflexivity|constructor].
  - vm_compute. discriminate.
Defined.
End TextFacts.

(** Two fixed meetings ten minutes apart and a commute on a Tuesday. *)
Lemma getAvailableSlots_copies_agree_witness :
  getAvailableSlots defaultSettings tuesday (tuesday + DAY)
    [mkEvent (tuesday + 10 * HOUR) (tuesday + 11 * HOUR) true false false None;
     mkEvent (tuesday + 11 * HOUR + 10 * MINUTE) (tuesday + 12 * HOUR) true false false None;
     mkEvent (tuesday + 14 * HOUR) (tuesday + 15 * HOUR) false false true None]
  = filter (long_enough defaultSettings)
      (getAvailableSlots_v1 defaultSettings tuesday (tuesday + DAY)
        [mkEvent (tuesday + 10 * HOUR) (tuesday + 11 * HOUR) true false false None;
         mkEvent (tuesday + 11 * HOUR + 10 * MINUTE) (tuesday + 12 * HOUR) true false false None;
         mkEvent (tuesday + 14 * HOUR) (tuesday + 15 * HOUR) false false true None]).
Proof.
  apply getAvailableSlots_copies_agree.
  - repeat constructor.
  - concrete.
  - cbn [filter isFixed].
    repeat (apply FOP_cons || apply FOP_nil || apply Forall_cons || apply Forall_nil);
      cbv beta; cbn [ev_start ev_end]; unfold tuesday, HOUR, MINUTE, DAY; lia.
Defined.
